(** * mindthegap: the [create image-bundle] command

    A shallow embedding of the [RunE] closure of [NewCommand] in package
    [imagebundle]: the manifest index built from the
    source manifest list, the per-platform lookup with its arm64 fallback,
    the choice between digest-qualified and tag-qualified copies, the
    destination manifest list and the fail-fast orchestration around the
    external collaborators (skopeo, the staging registry, the archiver);
    and of [IsECRRegistry] in package [ecr]. *)

From stdpp Require Import base strings list gmap.

Local Open Scope list_scope.

(** ** Data model *)

(** The [platform] value of the [--platform] flag.  It is a struct, not a
    pointer: assigning it copies the three fields. *)
Record platform := mkPlatform { os : string; arch : string; variant : string }.

(** Modelled from the spec: the [String] method of [platform] is declared
    in a file of the package that is not part of the sources at hand; the
    canonical form is [os/arch], or [os/arch/variant] when the variant is
    non-empty. *)
Definition platform_String (p : platform) : string :=
  let s := os p +:+ "/" +:+ arch p in
  if decide (variant p = "") then s else s +:+ "/" +:+ variant p.

(** [p.variant = v] on a local [platform] value. *)
Definition set_variant (p : platform) (v : string) : platform :=
  {| os := os p; arch := arch p; variant := v |}.

Module manifestlist.

Record PlatformSpec := {
  Architecture : string;
  OS : string;
  Variant : string
}.

Record ManifestDescriptor := {
  MediaType : string;
  Size : Z;
  Digest : string;
  Platform : PlatformSpec
}.

Record Versioned := {
  SchemaVersion : Z;
  VersionedMediaType : string
}.

Record ManifestList := {
  versioned : Versioned;
  Manifests : list ManifestDescriptor
}.

(** The zero value Go yields for a map miss. *)
Definition zero : ManifestDescriptor :=
  {| MediaType := ""; Size := 0; Digest := "";
     Platform := {| Architecture := ""; OS := ""; Variant := "" |} |}.

End manifestlist.
Import manifestlist.

Module skopeo.

Inductive SkopeoOption :=
| DisableSrcTLSVerify
| DisableDestTLSVerify
| SrcCredentials (username password : string)
| Debug
| OS (os : string)
| Arch (arch : string)
| Variant (variant : string).

End skopeo.

(** ** The manifest index (lines 136-143) *)

Definition srcManifestPlatform (m : ManifestDescriptor) : string :=
  let s := OS (Platform m) +:+ "/" +:+ Architecture (Platform m) in
  if decide (Variant (Platform m) = "") then s
  else s +:+ "/" +:+ Variant (Platform m).

(** [platformManifests[srcManifestPlatform] = m] for each [m], in order. *)
Definition platformManifests (ms : list ManifestDescriptor)
  : gmap string ManifestDescriptor :=
  foldl (fun idx m => <[srcManifestPlatform m := m]> idx) ∅ ms.

(** ** Looking a requested platform up (lines 147-156) *)

(** Lines 149-151: the assignment to the loop variable. *)
Definition arm64_fallback (p : platform) : platform :=
  if decide (arch p = "arm64") then set_variant p "v8" else p.

(** The loop variable after the lookups, the descriptor found (the zero
    value on a miss) and the final [ok]. *)
Definition resolve (idx : gmap string ManifestDescriptor) (p : platform)
  : platform * ManifestDescriptor * bool :=
  match idx !! platform_String p with
  | Some m => (p, m, true)
  | None =>
      let p := arm64_fallback p in
      match idx !! platform_String p with
      | Some m => (p, m, true)
      | None => (p, zero, false)
      end
  end.

(** ** Source and destination of one copy (lines 158-165) *)

Definition digestFound_of (platformManifest : ManifestDescriptor) : bool :=
  negb (bool_decide (Digest platformManifest = "")).

Definition tag_ref (host imageName imageTag : string) : string :=
  "docker://" +:+ host +:+ "/" +:+ imageName +:+ ":" +:+ imageTag.

Definition digest_ref (host imageName digest : string) : string :=
  "docker://" +:+ host +:+ "/" +:+ imageName +:+ "@" +:+ digest.

Definition copy_src (registryName imageName imageTag : string)
    (platformManifest : ManifestDescriptor) : string :=
  if digestFound_of platformManifest
  then digest_ref registryName imageName (Digest platformManifest)
  else tag_ref registryName imageName imageTag.

Definition copy_dst (address imageName imageTag : string)
    (platformManifest : ManifestDescriptor) : string :=
  if digestFound_of platformManifest
  then digest_ref address imageName (Digest platformManifest)
  else tag_ref address imageName imageTag.

(** ** Configuration (package [config], consumed read-only) *)

Record Credentials := { Username : string; Password : string }.

(** [TLSVerify] and [Credentials] are pointers in Go: [None] is [nil].
    The two Go maps ([cfg] and [Images]) are given as the list of their
    entries in the order in which [range] happens to visit them. *)
Record RegistrySyncConfig := {
  TLSVerify : option bool;
  credentials : option Credentials;
  Images : list (string * list string)
}.

Definition SourceConfig := list (string * RegistrySyncConfig).

(** ** Collaborators and the trace of a run *)

(** An [error] is identified with its message; [%w] splices it. *)
Definition error := string.

Inductive stat_result :=
| StatOk                      (* err == nil *)
| StatNotExist                (* errors.Is(err, os.ErrNotExist) *)
| StatErr (e : error).

Record Registry := { Address : string }.

Inductive event :=
| EvStart (msg : string)
| EvStartCopying (srcImageName : string) (platforms : list platform)
| EvEnd (success : bool)
| EvInfo (msg : string)
| EvInfoConfig (cfg : SourceConfig)
| EvWarning (p : platform) (srcImageName : string)
| EvStat (name : string) (r : stat_result)
| EvParseFile (name : string) (r : SourceConfig + error)
| EvAbs (path : string) (r : string + error)
| EvMkdirTemp (dir pattern : string) (r : string + error)
| EvRemoveAll (path : string)
| EvNewRegistry (storageDirectory : string) (r : Registry + error)
| EvGoListenAndServe (reg : Registry)
| EvNewRunner
| EvSkopeoCleanup
| EvLogin (registryName : string) (debug : bool) (r : option error)
| EvInspectManifest (ref : string) (r : ManifestList * string * option error)
| EvCopy (src dst : string) (opts : list skopeo.SkopeoOption)
    (r : string * option error)
| EvCopyManifest (ml : ManifestList) (dst : string)
    (opts : list skopeo.SkopeoOption) (r : string * option error)
| EvWriteSanitizedConfig (cfg : SourceConfig) (path : string) (r : option error)
| EvArchiveDirectory (dir out : string) (r : option error)
| EvErrOut (msg : string)
| EvExit (code : Z).

(** Everything the command calls outside itself, as transitions of an
    outside world [W].  [filepath.Dir] and [filepath.Join] are pure.
    [os.RemoveAll] and the clean-up function of the skopeo runner return
    an error like the others; the command discards it (lines 77 and 95),
    which is why their events carry no result. *)
Class Collaborators (W : Type) := {
  os_Stat : string → W → stat_result * W;
  config_ParseFile : string → W → (SourceConfig + error) * W;
  filepath_Abs : string → W → (string + error) * W;
  filepath_Dir : string → string;
  filepath_Join : string → string → string;
  os_MkdirTemp : string → string → W → (string + error) * W;
  os_RemoveAll : string → W → option error * W;
  registry_NewRegistry : string → W → (Registry + error) * W;
  skopeo_NewRunner : W → unit * W;
  skopeoCleanup : W → option error * W;
  AttemptToLoginToRegistry : string → bool → W → option error * W;
  InspectManifest : string → W → (ManifestList * string * option error) * W;
  Copy : string → string → list skopeo.SkopeoOption → W
         → (string * option error) * W;
  CopyManifest : ManifestList → string → list skopeo.SkopeoOption → W
                 → (string * option error) * W;
  config_WriteSanitizedConfig : SourceConfig → string → W → option error * W;
  archive_ArchiveDirectory : string → string → W → option error * W
}.

(** The state the closure runs in: the outside world and the captured
    flag variable [platforms]. *)
Record state (W : Type) := mkState { world : W; platforms : list platform }.
Arguments mkState {W} _ _.
Arguments world {W} _.
Arguments platforms {W} _.

Inductive outcome (A : Type) :=
| Ok (a : A)
| Err (e : error).
Arguments Ok {A} _.
Arguments Err {A} _.

(** A computation returns normally or with an error, and leaves a state
    and the events it produced. *)
Definition M (W A : Type) : Type := state W → outcome A * state W * list event.

Definition ret {W A} (a : A) : M W A := fun s => (Ok a, s, []).

Definition fail {W A} (e : error) : M W A := fun s => (Err e, s, []).

Definition bind {W A B} (m : M W A) (k : A → M W B) : M W B := fun s =>
  match m s with
  | (Ok a, s1, t1) => let '(r, s2, t2) := k a s1 in (r, s2, t1 ++ t2)
  | (Err e, s1, t1) => (Err e, s1, t1)
  end.

Global Instance M_ret {W} : MRet (M W) := fun A => ret.
Global Instance M_bind {W} : MBind (M W) := fun A B k m => bind m k.

Definition emit {W} (ev : event) : M W unit := fun s => (Ok tt, s, [ev]).

Definition call {W R} (f : W → R * W) (ev : R → event) : M W R := fun s =>
  let '(r, w) := f (world s) in (Ok r, mkState w (platforms s), [ev r]).

Definition get_platforms {W} : M W (list platform) := fun s =>
  (Ok (platforms s), s, []).

(** An assignment to the captured variable [platforms].  The closure
    contains none: its loops read the slice and assign to the loop
    variable, a copy of the element. *)
Definition set_platforms {W} (ps : list platform) : M W unit := fun s =>
  (Ok tt, mkState (world s) ps, []).

(** [defer d] before [body]: [d] runs when [body] returns, whatever it
    returns, and the returned value is kept; what [d] itself returns is
    discarded. *)
Definition defer {W A B} (d : M W B) (body : M W A) : M W A := fun s =>
  let '(r, s1, t1) := body s in
  let '(_, s2, t2) := d s1 in (r, s2, t1 ++ t2).

Fixpoint forM_ {W A} (f : A → M W unit) (l : list A) : M W unit :=
  match l with
  | [] => ret tt
  | x :: l => bind (f x) (fun _ => forM_ f l)
  end.

Fixpoint foldM {W A B} (f : B → A → M W B) (b : B) (l : list A) : M W B :=
  match l with
  | [] => ret b
  | x :: l => bind (f b x) (fun b => foldM f b l)
  end.

Definition result_of {W A} (x : outcome A * state W * list event) : outcome A :=
  x.1.1.
Definition state_of {W A} (x : outcome A * state W * list event) : state W :=
  x.1.2.
Definition trace_of {W A} (x : outcome A * state W * list event) : list event :=
  x.2.

(** ** The command *)

Section RunE.

Context {W : Type} `{!Collaborators W}.

(** [verbose] is [klog.V(4).Enabled()]. *)
Variable verbose : bool.

Definition logV4 (ev : event) : M W unit :=
  if verbose then emit ev else ret tt.

(** Lines 41-54, entered only when [overwrite] is false. *)
Definition check_outputFile (outputFile : string) : M W unit :=
  emit (EvStart "Checking if output file already exists");;
  r ← call (os_Stat outputFile) (EvStat outputFile);
  match r with
  | StatOk =>
      emit (EvEnd false);;
      fail (outputFile +:+
            " already exists: specify --overwrite to overwrite existing file")
  | StatErr e =>
      emit (EvEnd false);;
      fail ("failed to check if output file " +:+ outputFile +:+
            " already exists: " +:+ e)
  | StatNotExist => emit (EvEnd true)
  end.

(** The options of one copy (lines 170-173). *)
Definition copy_opts (skopeoOpts : list skopeo.SkopeoOption) (p : platform)
  : list skopeo.SkopeoOption :=
  skopeoOpts ++ [skopeo.DisableDestTLSVerify; skopeo.OS (os p);
                 skopeo.Arch (arch p); skopeo.Variant (variant p)].

(** Lines 182-184. *)
Definition appended (destImageManifestList : ManifestList)
    (platformManifest : ManifestDescriptor) : ManifestList :=
  if digestFound_of platformManifest
  then {| versioned := versioned destImageManifestList;
          Manifests := Manifests destImageManifestList ++ [platformManifest] |}
  else destImageManifestList.

(** Lines 146-184: one iteration of the loop over [platforms].  The
    loop variable [p] is a copy of the slice element; [digestFound] is
    declared outside the loop and assigned in every iteration. *)
Definition platform_body (registryName imageName imageTag : string)
    (reg : Registry) (skopeoOpts : list skopeo.SkopeoOption)
    (idx : gmap string ManifestDescriptor)
    (acc : bool * ManifestList) (p : platform) : M W (bool * ManifestList) :=
  let destImageManifestList := acc.2 in
  let srcImageName := registryName +:+ "/" +:+ imageName +:+ ":" +:+ imageTag in
  let '(p, platformManifest, ok) := resolve idx p in
  (if ok then ret tt else emit (EvWarning p srcImageName));;
  let digestFound := digestFound_of platformManifest in
  let src := copy_src registryName imageName imageTag platformManifest in
  let dst := copy_dst (Address reg) imageName imageTag platformManifest in
  let opts := copy_opts skopeoOpts p in
  '(skopeoOutput, err) ← call (Copy src dst opts) (EvCopy src dst opts);
  match err with
  | Some e => emit (EvInfo skopeoOutput);; emit (EvEnd false);; fail e
  | None =>
      logV4 (EvInfo skopeoOutput);;
      mret (digestFound, appended destImageManifestList platformManifest)
  end.

(** Lines 145-185. *)
Definition platforms_loop (registryName imageName imageTag : string)
    (reg : Registry) (skopeoOpts : list skopeo.SkopeoOption)
    (idx : gmap string ManifestDescriptor)
    (acc : bool * ManifestList) (ps : list platform) : M W (bool * ManifestList) :=
  foldM (platform_body registryName imageName imageTag reg skopeoOpts idx) acc ps.

(** Lines 186-201. *)
Definition publish (imageName imageTag : string) (reg : Registry)
    (skopeoOpts : list skopeo.SkopeoOption)
    (digestFound : bool) (destImageManifestList : ManifestList) : M W unit :=
  if digestFound then
    let dst := tag_ref (Address reg) imageName imageTag in
    let opts := skopeoOpts ++ [skopeo.DisableDestTLSVerify] in
    '(skopeoOutput, err) ← call (CopyManifest destImageManifestList dst opts)
                                (EvCopyManifest destImageManifestList dst opts);
    match err with
    | Some e => emit (EvInfo skopeoOutput);; emit (EvEnd false);; fail e
    | None => logV4 (EvInfo skopeoOutput)
    end
  else mret tt.

(** Lines 119-202: one image tag. *)
Definition imageTag_body (registryName : string) (reg : Registry)
    (skopeoOpts : list skopeo.SkopeoOption) (imageName imageTag : string)
  : M W unit :=
  let srcImageName := registryName +:+ "/" +:+ imageName +:+ ":" +:+ imageTag in
  ps ← get_platforms;
  emit (EvStartCopying srcImageName ps);;
  let ref := "docker://" +:+ srcImageName in
  '(srcImageManifestList, skopeoOutput, err) ←
    call (InspectManifest ref) (EvInspectManifest ref);
  match err with
  | Some e => emit (EvInfo skopeoOutput);; emit (EvEnd false);; fail e
  | None =>
      logV4 (EvInfo skopeoOutput);;
      let destImageManifestList :=
        {| versioned := versioned srcImageManifestList; Manifests := [] |} in
      let idx := platformManifests (Manifests srcImageManifestList) in
      ps ← get_platforms;
      '(digestFound, destImageManifestList) ←
        platforms_loop registryName imageName imageTag reg skopeoOpts idx
          (false, destImageManifestList) ps;
      publish imageName imageTag reg skopeoOpts digestFound destImageManifestList;;
      emit (EvEnd true)
  end.

(** Lines 117-204. *)
Definition image_body (registryName : string) (reg : Registry)
    (skopeoOpts : list skopeo.SkopeoOption)
    (entry : string * list string) : M W unit :=
  forM_ (imageTag_body registryName reg skopeoOpts entry.1) entry.2.

(** Lines 98-115: the options of one source registry. *)
Definition tls_opts (registryConfig : RegistrySyncConfig)
  : list skopeo.SkopeoOption :=
  match TLSVerify registryConfig with
  | Some false => [skopeo.DisableSrcTLSVerify]
  | _ => []
  end.

Definition login (registryName : string) : M W unit :=
  err ← call (AttemptToLoginToRegistry registryName verbose)
             (EvLogin registryName verbose);
  match err with
  | Some e => fail ("error logging in to registry: " +:+ e)
  | None => mret tt
  end.

Definition registry_opts (registryName : string)
    (registryConfig : RegistrySyncConfig) : M W (list skopeo.SkopeoOption) :=
  let skopeoOpts := tls_opts registryConfig in
  skopeoOpts ←
    match credentials registryConfig with
    | Some c =>
        if decide (Username c = "")
        then login registryName;; mret skopeoOpts
        else mret (skopeoOpts ++ [skopeo.SrcCredentials (Username c) (Password c)])
    | None => login registryName;; mret skopeoOpts
    end;
  mret (if verbose then skopeoOpts ++ [skopeo.Debug] else skopeoOpts).

(** Lines 97-205. *)
Definition registry_body (reg : Registry)
    (entry : string * RegistrySyncConfig) : M W unit :=
  skopeoOpts ← registry_opts entry.1 entry.2;
  forM_ (image_body entry.1 reg skopeoOpts) (Images entry.2).

(** Lines 94-218, with [skopeoCleanup] deferred. *)
Definition bundle (cfg : SourceConfig) (tempDir : string) (reg : Registry)
    (outputFile : string) : M W unit :=
  call skopeo_NewRunner (fun _ => EvNewRunner);;
  defer (call skopeoCleanup (fun _ => EvSkopeoCleanup))
    (forM_ (registry_body reg) cfg;;
     err ← call (config_WriteSanitizedConfig cfg
                   (filepath_Join tempDir "images.yaml"))
                (EvWriteSanitizedConfig cfg (filepath_Join tempDir "images.yaml"));
     match err with
     | Some e => fail e
     | None =>
         emit (EvStart ("Archiving images to " +:+ outputFile));;
         err ← call (archive_ArchiveDirectory tempDir outputFile)
                    (EvArchiveDirectory tempDir outputFile);
         match err with
         | Some e =>
             emit (EvEnd false);;
             fail ("failed to create image bundle tarball: " +:+ e)
         | None => emit (EvEnd true)
         end
     end).

(** Lines 80-92: the staging registry, served by a goroutine. *)
Definition with_registry (cfg : SourceConfig) (tempDir outputFile : string)
  : M W unit :=
  emit (EvStart "Starting temporary Docker registry");;
  r ← call (registry_NewRegistry tempDir) (EvNewRegistry tempDir);
  match r with
  | inr e =>
      emit (EvEnd false);;
      fail ("failed to create local Docker registry: " +:+ e)
  | inl reg =>
      emit (EvGoListenAndServe reg);;
      emit (EvEnd true);;
      bundle cfg tempDir reg outputFile
  end.

(** Lines 65-78, with [os.RemoveAll(tempDir)] deferred. *)
Definition with_tempDir (cfg : SourceConfig) (outputFile : string) : M W unit :=
  emit (EvStart "Creating temporary directory");;
  r ← call (filepath_Abs outputFile) (EvAbs outputFile);
  match r with
  | inr e =>
      emit (EvEnd false);;
      fail ("failed to determine where to create temporary directory: " +:+ e)
  | inl outputFileAbs =>
      let dir := filepath_Dir outputFileAbs in
      r ← call (os_MkdirTemp dir ".image-bundle-*")
               (EvMkdirTemp dir ".image-bundle-*");
      match r with
      | inr e =>
          emit (EvEnd false);;
          fail ("failed to create temporary directory: " +:+ e)
      | inl tempDir =>
          defer (call (os_RemoveAll tempDir) (fun _ => EvRemoveAll tempDir))
            (emit (EvEnd true);; with_registry cfg tempDir outputFile)
      end
  end.

(** Lines 56-63. *)
Definition parse_config (configFile : string) : M W SourceConfig :=
  emit (EvStart "Parsing image bundle config");;
  r ← call (config_ParseFile configFile) (EvParseFile configFile);
  match r with
  | inr e => emit (EvEnd false);; fail e
  | inl cfg => logV4 (EvInfoConfig cfg);; emit (EvEnd true);; mret cfg
  end.

(** The [RunE] closure of [NewCommand]. *)
Definition RunE (configFile outputFile : string) (overwrite : bool) : M W unit :=
  (if overwrite then mret tt else check_outputFile outputFile);;
  cfg ← parse_config configFile;
  with_tempDir cfg outputFile.

End RunE.

(** ** The process around the command (lines 86-91)

    The goroutine started at line 86 blocks in [reg.ListenAndServe()].  If
    that call returns an error, the goroutine writes to [ErrOut] and calls
    [os.Exit(2)]: the process ends there and then, and Go runs no deferred
    function on [os.Exit].  A run of the process is therefore the run of
    [RunE], cut after the [k] events the main goroutine still got to
    produce past the [go] statement.  The goroutine outlives the command's
    own deferred calls, so the cut may come after any of them, the last
    one included; an event stands for a call that has been started. *)

Inductive exit_status :=
| Returned (r : outcome unit)
| Exited (code : Z).

Fixpoint split_at_go (t : list event) : option (list event * list event) :=
  match t with
  | [] => None
  | EvGoListenAndServe reg :: t => Some ([EvGoListenAndServe reg], t)
  | ev :: t =>
      match split_at_go t with
      | Some (pre, post) => Some (ev :: pre, post)
      | None => None
      end
  end.

Definition newline : string := String (Ascii.ascii_of_nat 10) "".

(** [serve_fails = Some (k, e)]: [ListenAndServe] returns [e] once the
    main goroutine has produced [k] events past the [go] statement; if the
    command never gets that far, or with [None], the process ends with the
    command. *)
Definition run_process {W} (serve_fails : option (nat * error))
    (cmd : M W unit) (s : state W) : exit_status * list event :=
  let '(r, _, t) := cmd s in
  match serve_fails with
  | None => (Returned r, t)
  | Some (k, e) =>
      match split_at_go t with
      | Some (pre, post) =>
          if decide (k ≤ length post)
          then (Exited 2,
                pre ++ take k post ++
                [EvErrOut ("error serving Docker registry: " +:+ e +:+ newline);
                 EvExit 2])
          else (Returned r, t)
      | None => (Returned r, t)
      end
  end.

(** ** A concrete outside world, for running the model *)

Module Demo.

Definition desc (os arch variant digest : string) : ManifestDescriptor :=
  {| MediaType := "application/vnd.docker.distribution.manifest.v2+json";
     Size := 1000; Digest := digest;
     Platform := {| Architecture := arch; OS := os; Variant := variant |} |}.

Definition v2 : Versioned :=
  {| SchemaVersion := 2;
     VersionedMediaType :=
       "application/vnd.docker.distribution.manifest.list.v2+json" |}.

(** The manifest list of the spec's end-to-end scenarios. *)
Definition nginx : ManifestList :=
  {| versioned := v2;
     Manifests := [desc "linux" "amd64" "" "sha256:aaa";
                   desc "linux" "arm64" "v8" "sha256:bbb"] |}.

Definition one_registry (tags : list string) : SourceConfig :=
  [("docker.io",
    {| TLSVerify := None; credentials := None;
       Images := [("library/nginx", tags)] |})].

(** The world is stateless: [stat] answers [os.Stat], [cfg] is the parsed
    file, [inspect] answers [InspectManifest] and [copy_err] says which
    sources [Copy] fails on. *)
Definition collaborators (stat : stat_result) (cfg : SourceConfig)
    (inspect : string → ManifestList * string * option error)
    (copy_err : string → option error) : Collaborators unit :=
  {| os_Stat := fun _ w => (stat, w);
     config_ParseFile := fun _ w => (inl cfg, w);
     filepath_Abs := fun p w => (inl ("/work/" +:+ p), w);
     filepath_Dir := fun _ => "/work";
     filepath_Join := fun d f => d +:+ "/" +:+ f;
     os_MkdirTemp := fun d _ w => (inl (d +:+ "/.image-bundle-1"), w);
     os_RemoveAll := fun _ w => (None, w);
     registry_NewRegistry := fun _ w => (inl {| Address := "127.0.0.1:5000" |}, w);
     skopeo_NewRunner := fun w => (tt, w);
     skopeoCleanup := fun w => (None, w);
     AttemptToLoginToRegistry := fun _ _ w => (None, w);
     InspectManifest := fun ref w => (inspect ref, w);
     Copy := fun src _ _ w => (("copied", copy_err src), w);
     CopyManifest := fun _ _ _ w => (("published", None), w);
     config_WriteSanitizedConfig := fun _ _ w => (None, w);
     archive_ArchiveDirectory := fun _ _ w => (None, w) |}.

Definition happy : Collaborators unit :=
  collaborators StatNotExist (one_registry ["1.25"])
    (fun _ => (nginx, "inspected", None)) (fun _ => None).

(** Two tags, and a copy tool that fails on the [arm64] image. *)
Definition failing_copy : Collaborators unit :=
  collaborators StatNotExist (one_registry ["1.25"; "1.26"])
    (fun _ => (nginx, "inspected", None))
    (fun src =>
       if decide (src = "docker://docker.io/library/nginx@sha256:bbb")
       then Some "exit status 1" else None).

(** Tag [1.26] publishes its [arm64] image without a variant. *)
Definition nginx_1_26 : ManifestList :=
  {| versioned := v2;
     Manifests := [desc "linux" "amd64" "" "sha256:ccc";
                   desc "linux" "arm64" "" "sha256:ddd"] |}.

Definition two_tags : Collaborators unit :=
  collaborators StatNotExist (one_registry ["1.25"; "1.26"])
    (fun ref =>
       if decide (ref = "docker://docker.io/library/nginx:1.26")
       then (nginx_1_26, "inspected", None)
       else (nginx, "inspected", None))
    (fun _ => None).

Definition start (ps : list platform) : state unit := mkState tt ps.

Definition amd64 : platform := mkPlatform "linux" "amd64" "".
Definition arm64 : platform := mkPlatform "linux" "arm64" "".
Definition windows : platform := mkPlatform "windows" "amd64" "".

End Demo.

(** ** Reading a trace *)

(** The events that follow the return of [Copy] in one iteration. *)
Definition after_copy (verbose : bool) (skopeoOutput : string)
    (err : option error) : list event :=
  match err with
  | Some _ => [EvInfo skopeoOutput; EvEnd false]
  | None => if verbose then [EvInfo skopeoOutput] else []
  end.

(** The copy requests of a trace: source, destination and options. *)
Definition copy_request (ev : event)
  : option (string * string * list skopeo.SkopeoOption) :=
  match ev with
  | EvCopy src dst opts _ => Some (src, dst, opts)
  | _ => None
  end.

Definition copy_requests (t : list event)
  : list (string * string * list skopeo.SkopeoOption) :=
  omap copy_request t.

(** What the copy tool answered to the copy requests of a trace. *)
Definition copy_result (ev : event) : option (option error) :=
  match ev with
  | EvCopy _ _ _ (_, err) => Some err
  | _ => None
  end.

Definition copy_results (t : list event) : list (option error) :=
  omap copy_result t.

(** The error an external tool call came back with. *)
Definition tool_error (ev : event) : option error :=
  match ev with
  | EvInspectManifest _ (_, _, err) => err
  | EvCopy _ _ _ (_, err) => err
  | EvCopyManifest _ _ _ (_, err) => err
  | _ => None
  end.

(** Log lines and deferred clean-up: what may still happen once the
    command is on its way out. *)
Definition passive (ev : event) : bool :=
  match ev with
  | EvInfo _ | EvEnd _ | EvSkopeoCleanup | EvRemoveAll _ => true
  | _ => false
  end.

Definition is_stat (ev : event) : bool :=
  match ev with EvStat _ _ => true | _ => false end.

Definition is_publish (ev : event) : bool :=
  match ev with EvCopyManifest _ _ _ _ => true | _ => false end.

Definition is_RemoveAll (ev : event) : bool :=
  match ev with EvRemoveAll _ => true | _ => false end.

Definition is_go (ev : event) : bool :=
  match ev with EvGoListenAndServe _ => true | _ => false end.

Definition made_tempDir (ev : event) : option string :=
  match ev with
  | EvMkdirTemp _ _ (inl tempDir) => Some tempDir
  | _ => None
  end.

(** A status line of a tag shows the platforms [ps]. *)
Definition shows_platforms (ps : list platform) (ev : event) : Prop :=
  match ev with
  | EvStartCopying _ ps' => ps' = ps
  | _ => True
  end.

(** ** Properties of computations *)

(** From a state holding the platforms [ps], [m] produces only events
    that satisfy [P] and leaves the platforms as they were. *)
Definition sound {W A} (ps : list platform) (P : event → Prop) (m : M W A) : Prop :=
  ∀ s, platforms s = ps →
    Forall P (trace_of (m s)) ∧ platforms (state_of (m s)) = ps.

(** A failed tool call decides the outcome: the run returns its error,
    and only log lines and clean-up follow it. *)
Definition failfast {A} (r : outcome A) (t : list event) : Prop :=
  ∀ pre ev post e,
    t = pre ++ ev :: post → tool_error ev = Some e →
    r = Err e ∧ Forall (fun ev => passive ev = true) post.

Definition ff {W A} (m : M W A) : Prop :=
  ∀ s, failfast (result_of (m s)) (trace_of (m s)).

(** ** Package [ecr]: recognising an ECR registry address *)

Module regexp.

(** The fragment of Go's regular expressions that the package uses.  The
    input is matched byte by byte: the classes of the pattern below only
    single out ASCII bytes, so matching bytes and matching runes agree. *)
Inductive re :=
| Never
| Eps
| Class (f : Ascii.ascii → bool)
| Cat (r1 r2 : re)
| Alt (r1 r2 : re)
| Star (r : re).

(** [x?], [x+] and a literal. *)
Definition Opt (r : re) : re := Alt r Eps.
Definition Plus (r : re) : re := Cat r (Star r).
Fixpoint Lit (s : string) : re :=
  match s with
  | EmptyString => Eps
  | String c s => Cat (Class (fun c' => bool_decide (c' = c))) (Lit s)
  end.

(** The strings a pattern matches in full. *)
Inductive lang : re → string → Prop :=
| lang_Eps : lang Eps ""
| lang_Class f c : f c = true → lang (Class f) (String c "")
| lang_Cat r1 r2 s1 s2 : lang r1 s1 → lang r2 s2 → lang (Cat r1 r2) (s1 +:+ s2)
| lang_Alt_l r1 r2 s : lang r1 s → lang (Alt r1 r2) s
| lang_Alt_r r1 r2 s : lang r2 s → lang (Alt r1 r2) s
| lang_Star_nil r : lang (Star r) ""
| lang_Star_cons r s1 s2 :
    lang r s1 → lang (Star r) s2 → lang (Star r) (s1 +:+ s2).

Fixpoint nullable (r : re) : bool :=
  match r with
  | Never => false
  | Eps => true
  | Class _ => false
  | Cat r1 r2 => nullable r1 && nullable r2
  | Alt r1 r2 => nullable r1 || nullable r2
  | Star _ => true
  end.

(** What is left of [r] to match once the byte [c] has been read. *)
Fixpoint deriv (c : Ascii.ascii) (r : re) : re :=
  match r with
  | Never => Never
  | Eps => Never
  | Class f => if f c then Eps else Never
  | Cat r1 r2 =>
      if nullable r1
      then Alt (Cat (deriv c r1) r2) (deriv c r2)
      else Cat (deriv c r1) r2
  | Alt r1 r2 => Alt (deriv c r1) (deriv c r2)
  | Star r => Cat (deriv c r) (Star r)
  end.

(** [MatchString] for a pattern [^r] with no [$]: some prefix of the
    input matches [r]. *)
Fixpoint MatchString_bol (r : re) (s : string) : bool :=
  nullable r ||
  match s with
  | EmptyString => false
  | String c s => MatchString_bol (deriv c r) s
  end.

End regexp.

Module ecr.

Definition is_alnum (c : Ascii.ascii) : bool :=
  let n := Ascii.nat_of_ascii c in
  (Nat.leb 97 n && Nat.leb n 122)      (* a-z *)
  || (Nat.leb 65 n && Nat.leb n 90)    (* A-Z *)
  || (Nat.leb 48 n && Nat.leb n 57).   (* 0-9 *)

Definition not_dot (c : Ascii.ascii) : bool :=
  negb (bool_decide (c = Ascii.ascii_of_nat 46)).

(** The pattern of [ecrRegistryRegexp] after its leading [^]:
    [(?:https://)?[a-zA-Z0-9]+\.dkr\.ecr\.[^.]+\.amazonaws\.com/?]. *)
Definition ecrRegistryRegexp : regexp.re :=
  regexp.Cat (regexp.Opt (regexp.Lit "https://"))
    (regexp.Cat (regexp.Plus (regexp.Class is_alnum))
       (regexp.Cat (regexp.Lit ".dkr.ecr.")
          (regexp.Cat (regexp.Plus (regexp.Class not_dot))
             (regexp.Cat (regexp.Lit ".amazonaws.com")
                (regexp.Opt (regexp.Lit "/")))))).

Definition IsECRRegistry (registryAddress : string) : bool :=
  regexp.MatchString_bol ecrRegistryRegexp registryAddress.

End ecr.

(** Every byte of [s] satisfies [f]. *)
Fixpoint string_forall (f : Ascii.ascii → bool) (s : string) : bool :=
  match s with
  | EmptyString => true
  | String c s => f c && string_forall f s
  end.

(** ** Errors of a run *)

(** The error the command returns when a call to a collaborator comes
    back failed: the collaborator's own error, or that error wrapped with
    the message of the [fmt.Errorf] at the call site. *)
Definition call_error (ev : event) : option error :=
  match ev with
  | EvStat name StatOk =>
      Some (name +:+
            " already exists: specify --overwrite to overwrite existing file")
  | EvStat name (StatErr e) =>
      Some ("failed to check if output file " +:+ name +:+
            " already exists: " +:+ e)
  | EvParseFile _ (inr e) => Some e
  | EvAbs _ (inr e) =>
      Some ("failed to determine where to create temporary directory: " +:+ e)
  | EvMkdirTemp _ _ (inr e) =>
      Some ("failed to create temporary directory: " +:+ e)
  | EvNewRegistry _ (inr e) =>
      Some ("failed to create local Docker registry: " +:+ e)
  | EvLogin _ _ (Some e) => Some ("error logging in to registry: " +:+ e)
  | EvInspectManifest _ (_, _, Some e) => Some e
  | EvCopy _ _ _ (_, Some e) => Some e
  | EvCopyManifest _ _ _ (_, Some e) => Some e
  | EvWriteSanitizedConfig _ _ (Some e) => Some e
  | EvArchiveDirectory _ _ (Some e) =>
      Some ("failed to create image bundle tarball: " +:+ e)
  | _ => None
  end.

(** The two ways in which [call_error] comes about: the file that
    [os.Stat] finds in the way, which is the command's own error about a
    call that succeeded, and a call that came back with an error.
    [os.Stat] reporting that the file does not exist is the answer the
    command hopes for, and no error of the run. *)
Definition already_exists (ev : event) : option error :=
  match ev with
  | EvStat name StatOk =>
      Some (name +:+
            " already exists: specify --overwrite to overwrite existing file")
  | _ => None
  end.

Definition failed_call (ev : event) : option error :=
  match ev with
  | EvStat _ StatOk => None
  | _ => call_error ev
  end.

(** The collaborators [C] with other answers from the two clean-ups: they
    do to the world what they did, and return [rm] and [cl]. *)
Definition with_cleanup_results {W} (C : Collaborators W)
    (rm : string → W → option error) (cl : W → option error)
  : Collaborators W :=
  {| os_Stat := @os_Stat W C;
     config_ParseFile := @config_ParseFile W C;
     filepath_Abs := @filepath_Abs W C;
     filepath_Dir := @filepath_Dir W C;
     filepath_Join := @filepath_Join W C;
     os_MkdirTemp := @os_MkdirTemp W C;
     os_RemoveAll := fun path w => (rm path w, (@os_RemoveAll W C path w).2);
     registry_NewRegistry := @registry_NewRegistry W C;
     skopeo_NewRunner := @skopeo_NewRunner W C;
     skopeoCleanup := fun w => (cl w, (@skopeoCleanup W C w).2);
     AttemptToLoginToRegistry := @AttemptToLoginToRegistry W C;
     InspectManifest := @InspectManifest W C;
     Copy := @Copy W C;
     CopyManifest := @CopyManifest W C;
     config_WriteSanitizedConfig := @config_WriteSanitizedConfig W C;
     archive_ArchiveDirectory := @archive_ArchiveDirectory W C |}.

(** A normal return has seen no failed call; an error return has seen
    exactly one, whose error it is, with only log lines and clean-up
    after it. *)
Definition accounted {A} (r : outcome A) (t : list event) : Prop :=
  match r with
  | Ok _ => Forall (fun ev => call_error ev = None) t
  | Err e =>
      ∃ pre ev post,
        t = pre ++ ev :: post
        ∧ Forall (fun ev => call_error ev = None) pre
        ∧ call_error ev = Some e
        ∧ Forall (fun ev => passive ev = true) post
  end.

Definition accounts {W A} (m : M W A) : Prop :=
  ∀ s, accounted (result_of (m s)) (trace_of (m s)).

(** ** What a tag asks for *)

(** The descriptor the lookup of [p] ends with. *)
Definition found (idx : gmap string ManifestDescriptor) (p : platform)
  : ManifestDescriptor :=
  (resolve idx p).1.2.

(** The copy request the iteration for [p] issues. *)
Definition planned (registryName imageName imageTag : string) (reg : Registry)
    (skopeoOpts : list skopeo.SkopeoOption)
    (idx : gmap string ManifestDescriptor) (p : platform)
  : string * string * list skopeo.SkopeoOption :=
  (copy_src registryName imageName imageTag (found idx p),
   copy_dst (Address reg) imageName imageTag (found idx p),
   copy_opts skopeoOpts (resolve idx p).1.1).

Definition no_slash (s : string) : bool :=
  string_forall (fun c => negb (bool_decide (c = Ascii.ascii_of_nat 47))) s.

(** ** The calls made for one source registry *)

(** The options that lines 98-115 compute for a registry. *)
Definition source_opts (verbose : bool) (registryConfig : RegistrySyncConfig)
  : list skopeo.SkopeoOption :=
  match TLSVerify registryConfig with
  | Some false => [skopeo.DisableSrcTLSVerify]
  | _ => []
  end
  ++ match credentials registryConfig with
     | Some c =>
         if decide (Username c = "") then []
         else [skopeo.SrcCredentials (Username c) (Password c)]
     | None => []
     end
  ++ (if verbose then [skopeo.Debug] else []).

Definition has_username (registryConfig : RegistrySyncConfig) : bool :=
  match credentials registryConfig with
  | Some c => negb (bool_decide (Username c = ""))
  | None => false
  end.

(** [ev], if it is a call to skopeo, is a call of the iteration for the
    registry [entry].  A login names that registry and is made only when it
    has no user name.  An inspect, which takes no options, reads a tag that
    is configured for the registry.  A copy reads such a tag from that
    registry, by tag or by digest, writes it to the staging registry [reg]
    and carries the options of that registry, then [DisableDestTLSVerify]
    and a platform filter; a publication writes the tag to the staging
    registry with the options of that registry and [DisableDestTLSVerify]. *)
Definition for_registry (verbose : bool) (reg : Registry)
    (entry : string * RegistrySyncConfig) (ev : event) : Prop :=
  match ev with
  | EvLogin registryName debug _ =>
      registryName = entry.1 ∧ debug = verbose ∧ has_username entry.2 = false
  | EvInspectManifest ref _ =>
      ∃ image imageTag,
        image ∈ Images entry.2 ∧ imageTag ∈ image.2
        ∧ ref = "docker://" +:+ entry.1 +:+ "/" +:+ image.1 +:+ ":" +:+ imageTag
  | EvCopy src dst opts _ =>
      ∃ image imageTag,
        image ∈ Images entry.2 ∧ imageTag ∈ image.2
        ∧ ((src = "docker://" +:+ entry.1 +:+ "/" +:+ image.1 +:+ ":" +:+ imageTag
            ∧ dst = "docker://" +:+ Address reg +:+ "/" +:+ image.1 +:+ ":"
                    +:+ imageTag)
           ∨ ∃ digest,
               src = "docker://" +:+ entry.1 +:+ "/" +:+ image.1 +:+ "@" +:+ digest
               ∧ dst = "docker://" +:+ Address reg +:+ "/" +:+ image.1 +:+ "@"
                       +:+ digest)
        ∧ ∃ p, opts = source_opts verbose entry.2
                      ++ [skopeo.DisableDestTLSVerify; skopeo.OS (os p);
                          skopeo.Arch (arch p); skopeo.Variant (variant p)]
  | EvCopyManifest _ dst opts _ =>
      ∃ image imageTag,
        image ∈ Images entry.2 ∧ imageTag ∈ image.2
        ∧ dst = "docker://" +:+ Address reg +:+ "/" +:+ image.1 +:+ ":" +:+ imageTag
        ∧ opts = source_opts verbose entry.2 ++ [skopeo.DisableDestTLSVerify]
  | _ => True
  end.

Definition login_of (ev : event) : option (string * bool) :=
  match ev with
  | EvLogin registryName debug _ => Some (registryName, debug)
  | _ => None
  end.

(** The events that only the loops over the registries, their images and
    their tags produce (lines 97-205): the calls to skopeo, the status line
    of a tag and the warning about a platform. *)
Definition is_loop_event (ev : event) : bool :=
  match ev with
  | EvLogin _ _ _ | EvInspectManifest _ _ | EvCopy _ _ _ _
  | EvCopyManifest _ _ _ _ | EvWarning _ _ | EvStartCopying _ _ => true
  | _ => false
  end.

(** ** The images of a configuration *)

(** The references the run inspects for a configuration, in the order in
    which the three loops visit registries, images and tags. *)
Definition inspect_refs (cfg : SourceConfig) : list string :=
  entry ← cfg;
  image ← Images entry.2;
  imageTag ← image.2;
  ["docker://" +:+ entry.1 +:+ "/" +:+ image.1 +:+ ":" +:+ imageTag].

Definition inspect_ref (ev : event) : option string :=
  match ev with
  | EvInspectManifest ref _ => Some ref
  | _ => None
  end.

Definition inspected (t : list event) : list string := omap inspect_ref t.

(** The tags of a configuration, each with the registry entry and the
    image it belongs to, in the order of the three loops. *)
Definition tags_of (cfg : SourceConfig)
  : list ((string * RegistrySyncConfig) * string * string) :=
  entry ← cfg;
  image ← Images entry.2;
  imageTag ← image.2;
  [(entry, image.1, imageTag)].

(** The manifest lists the inspections of a trace returned, in order. *)
Definition inspected_list (ev : event) : option ManifestList :=
  match ev with
  | EvInspectManifest _ (ml, _, _) => Some ml
  | _ => None
  end.

Definition inspected_lists (t : list event) : list ManifestList :=
  omap inspected_list t.

(** The copy requests of one tag whose inspection returned [ml]: one per
    platform of [ps], in the order of [ps], each platform looked up as it
    stands in [ps], with the options of the tag's own registry. *)
Definition tag_copies (verbose : bool) (reg : Registry) (ps : list platform)
    (tag : (string * RegistrySyncConfig) * string * string) (ml : ManifestList)
  : list (string * string * list skopeo.SkopeoOption) :=
  planned tag.1.1.1 tag.1.2 tag.2 reg (source_opts verbose tag.1.1.2)
    (platformManifests (Manifests ml)) <$> ps.

(** The warnings of a trace: the platform as the lookup left it, and the
    image. *)
Definition warning (ev : event) : option (platform * string) :=
  match ev with
  | EvWarning p srcImageName => Some (p, srcImageName)
  | _ => None
  end.

Definition warnings (t : list event) : list (platform * string) :=
  omap warning t.

(** The warnings of one tag whose inspection returned [ml]: one for each
    platform of [ps] that the index of [ml] holds neither under its own
    key nor, for [arm64], under [v8]. *)
Definition tag_warnings (ps : list platform)
    (tag : (string * RegistrySyncConfig) * string * string) (ml : ManifestList)
  : list (platform * string) :=
  p ← ps;
  if (resolve (platformManifests (Manifests ml)) p).2 then []
  else [((resolve (platformManifests (Manifests ml)) p).1.1,
         tag.1.1.1 +:+ "/" +:+ tag.1.2 +:+ ":" +:+ tag.2)].

Definition copy_mark (ev : event) : option unit :=
  match ev with
  | EvCopy _ _ _ _ => Some tt
  | _ => None
  end.

(** From a state holding the platforms [ps], the events of [m] that [g]
    selects are a prefix of [out], and all of [out] when [m] returns
    normally; the platforms are left as they were. *)
Definition yields {W A B} (ps : list platform) (g : event → option B)
    (m : M W A) (out : list B) : Prop :=
  ∀ s, platforms s = ps →
    platforms (state_of (m s)) = ps
    ∧ omap g (trace_of (m s)) `prefix_of` out
    ∧ (∀ a, result_of (m s) = Ok a → omap g (trace_of (m s)) = out).

(** From a state holding the platforms [ps], [m] inspects at most the
    tags [items], in that order, and all of them when it returns normally;
    the events of [m] that [g] selects are those that [h] gives for each
    inspected tag and the manifest list its inspection returned, up to the
    point where [m] returns; the platforms are left as they were. *)
Definition plans {W A T B} (ps : list platform) (g : event → option B)
    (h : T → ManifestList → list B) (m : M W A) (items : list T) : Prop :=
  ∀ s, platforms s = ps →
    platforms (state_of (m s)) = ps
    ∧ length (inspected_lists (trace_of (m s))) ≤ length items
    ∧ omap g (trace_of (m s))
        `prefix_of` mjoin (zip_with h items (inspected_lists (trace_of (m s))))
    ∧ (∀ a, result_of (m s) = Ok a →
         length (inspected_lists (trace_of (m s))) = length items
         ∧ omap g (trace_of (m s))
           = mjoin (zip_with h items (inspected_lists (trace_of (m s))))).

(** ** The status line *)

(** What the calls to [statusLogger] have left: nothing in progress, a
    status in progress, or a status that ended in failure. *)
Inductive status := Idle | Busy | Failed.

(** [Start] needs an idle line, [End] a status in progress; after a
    failed status nothing is started again. *)
Definition status_step (st : status) (ev : event) : option status :=
  match ev with
  | EvStart _ | EvStartCopying _ _ =>
      match st with Idle => Some Busy | _ => None end
  | EvEnd true => match st with Busy => Some Idle | _ => None end
  | EvEnd false => match st with Busy => Some Failed | _ => None end
  | _ => Some st
  end.

Fixpoint status_run (st : status) (t : list event) : option status :=
  match t with
  | [] => Some st
  | ev :: t =>
      match status_step st ev with
      | Some st => status_run st t
      | None => None
      end
  end.

(** Started with the line in state [pre], [m] leaves it in state [post]
    when it returns normally, and idle or failed when it returns an
    error. *)
Definition tracks {W A} (m : M W A) (pre post : status) : Prop :=
  ∀ s, match result_of (m s) with
       | Ok _ => status_run pre (trace_of (m s)) = Some post
       | Err _ => status_run pre (trace_of (m s)) = Some Failed
                  ∨ status_run pre (trace_of (m s)) = Some Idle
       end.

(** * Properties *)

(** ** Strings *)

Lemma string_app_cons (c : Ascii.ascii) (s a : string) :
  String c s +:+ a = String c (s +:+ a).
Proof. reflexivity. Qed.

Lemma string_app_inv_head (s a b : string) : s +:+ a = s +:+ b → a = b.
Proof.
  induction s as [|c s IH]; [done|].
  rewrite !string_app_cons. intros [= Heq]. by apply IH.
Qed.

Lemma string_app_empty_r (s : string) : s +:+ "" = s.
Proof.
  induction s as [|c s IH]; [done|]. by rewrite string_app_cons, IH.
Qed.

Lemma string_app_assoc (a b c : string) : (a +:+ b) +:+ c = a +:+ b +:+ c.
Proof.
  induction a as [|x a IH]; [done|]. by rewrite !string_app_cons, IH.
Qed.

Lemma digest_ref_ne_tag_ref (host imageName digest imageTag : string) :
  digest_ref host imageName digest ≠ tag_ref host imageName imageTag.
Proof.
  unfold digest_ref, tag_ref. intros Heq.
  do 4 apply string_app_inv_head in Heq. discriminate Heq.
Qed.

(** ** The manifest index *)

Lemma foldl_insert_lookup (ms : list ManifestDescriptor)
    (idx : gmap string ManifestDescriptor) (k : string) :
  foldl (fun idx m => <[srcManifestPlatform m := m]> idx) idx ms !! k =
    match last (filter (fun m => srcManifestPlatform m = k) ms) with
    | Some m => Some m
    | None => idx !! k
    end.
Proof.
  revert idx. induction ms as [|m ms IH]; intros idx; simpl; [done|].
  rewrite IH, filter_cons. case_decide as Hk.
  - rewrite last_cons. destruct (last (filter _ ms)); [done|].
    subst k. by rewrite lookup_insert_eq.
  - destruct (last (filter _ ms)); [done|]. by rewrite lookup_insert_ne.
Qed.

Lemma platformManifests_lookup (ms : list ManifestDescriptor) (k : string) :
  platformManifests ms !! k =
    last (filter (fun m => srcManifestPlatform m = k) ms).
Proof.
  unfold platformManifests. rewrite foldl_insert_lookup.
  by destruct (last (filter _ ms)).
Qed.

(** C6: the index maps the key [os/arch], with [/variant] appended only
    for a non-empty variant, to the last entry of the source list that has
    this key, and every entry of the list has its key in the index,
    whatever its digest. *)
Theorem C6_manifest_index (ms : list ManifestDescriptor) :
  (∀ m, srcManifestPlatform m =
          OS (Platform m) +:+ "/" +:+ Architecture (Platform m) +:+
          (if decide (Variant (Platform m) = "") then ""
           else "/" +:+ Variant (Platform m)))
  ∧ (∀ k, platformManifests ms !! k =
            last (filter (fun m => srcManifestPlatform m = k) ms))
  ∧ Forall (fun m => is_Some (platformManifests ms !! srcManifestPlatform m)) ms.
Proof.
  split; [|split].
  - intros m. unfold srcManifestPlatform. case_decide.
    + by rewrite string_app_empty_r.
    + by rewrite !string_app_assoc.
  - apply platformManifests_lookup.
  - apply Forall_forall. intros m Hm.
    rewrite platformManifests_lookup.
    assert (Hin : m ∈ filter (fun m' => srcManifestPlatform m' = srcManifestPlatform m) ms)
      by (apply list_elem_of_filter; done).
    destruct (filter _ ms) as [|x l] eqn:Hf; [by apply elem_of_nil in Hin|].
    destruct (last (x :: l)) eqn:Hl; [by eexists|].
    by apply last_None in Hl.
Qed.

(** ** Looking a platform up *)

Lemma resolve_miss_zero (idx : gmap string ManifestDescriptor) (p : platform) :
  (resolve idx p).2 = false → (resolve idx p).1.2 = zero.
Proof.
  unfold resolve. destruct (idx !! platform_String p); [done|].
  by destruct (idx !! platform_String (arm64_fallback p)).
Qed.

Lemma resolve_hit_lookup (idx : gmap string ManifestDescriptor) (p : platform) :
  (resolve idx p).2 = true →
  idx !! platform_String (resolve idx p).1.1 = Some (resolve idx p).1.2.
Proof.
  unfold resolve. destruct (idx !! platform_String p) eqn:H1; [done|].
  by destruct (idx !! platform_String (arm64_fallback p)) eqn:H2.
Qed.

(** ** One iteration of the loop over the platforms *)

Ltac run_M :=
  unfold mbind, M_bind, mret, M_ret, bind, call, emit, ret, fail, logV4,
    get_platforms; simpl.

Lemma platform_body_run {W : Type} `{!Collaborators W} (verbose : bool)
    (registryName imageName imageTag : string) (reg : Registry)
    (skopeoOpts : list skopeo.SkopeoOption)
    (idx : gmap string ManifestDescriptor)
    (acc : bool * ManifestList) (p : platform) (s : state W) :
  let p' := (resolve idx p).1.1 in
  let m := (resolve idx p).1.2 in
  let src := copy_src registryName imageName imageTag m in
  let dst := copy_dst (Address reg) imageName imageTag m in
  let r := Copy src dst (copy_opts skopeoOpts p') (world s) in
  platform_body verbose registryName imageName imageTag reg skopeoOpts idx acc p s =
    (match r.1.2 with
     | Some e => Err e
     | None => Ok (digestFound_of m, appended acc.2 m)
     end,
     mkState r.2 (platforms s),
     (if (resolve idx p).2 then []
      else [EvWarning p' (registryName +:+ "/" +:+ imageName +:+ ":" +:+ imageTag)])
     ++ [EvCopy src dst (copy_opts skopeoOpts p') r.1]
     ++ after_copy verbose r.1.1 r.1.2).
Proof.
  unfold platform_body, after_copy.
  destruct (resolve idx p) as [[p' m] ok]. simpl.
  destruct ok; run_M;
    destruct (Copy _ _ _ (world s)) as [[out [e|]] w']; simpl;
    try done; by destruct verbose.
Qed.

Lemma resolve_after_miss (idx : gmap string ManifestDescriptor) (p : platform) :
  idx !! platform_String p = None →
  resolve idx p =
    if decide (arch p = "arm64")
    then match idx !! platform_String (mkPlatform (os p) "arm64" "v8") with
         | Some m => (mkPlatform (os p) "arm64" "v8", m, true)
         | None => (mkPlatform (os p) "arm64" "v8", zero, false)
         end
    else (p, zero, false).
Proof.
  intros Hmiss. unfold resolve, arm64_fallback, set_variant. rewrite Hmiss.
  case_decide as Harch.
  - rewrite Harch. by destruct (idx !! _).
  - by rewrite Hmiss.
Qed.

(** C2, as the code has it: a platform that is absent from the index is
    looked up a second time under the variant [v8] whenever its
    architecture is [arm64], whatever variant was requested (a non-empty
    one is overwritten), and only then; that second lookup is the last
    one, and for every other architecture the platform is unresolved. *)
Theorem C2_v8_retry_on_arm64 (idx : gmap string ManifestDescriptor) (p : platform) :
  idx !! platform_String p = None →
  resolve idx p =
    if decide (arch p = "arm64")
    then match idx !! platform_String (mkPlatform (os p) "arm64" "v8") with
         | Some m => (mkPlatform (os p) "arm64" "v8", m, true)
         | None => (mkPlatform (os p) "arm64" "v8", zero, false)
         end
    else (p, zero, false).
Proof. apply resolve_after_miss. Qed.

Lemma C2_v8_retry_on_arm64_witness :
  resolve (platformManifests (Manifests Demo.nginx)) (mkPlatform "linux" "arm64" "")
  = (mkPlatform "linux" "arm64" "v8",
     Demo.desc "linux" "arm64" "v8" "sha256:bbb", true).
Proof.
  exact (C2_v8_retry_on_arm64 (platformManifests (Manifests Demo.nginx))
           (mkPlatform "linux" "arm64" "") eq_refl).
Defined.

(** C2 as stated fails: [linux/arm64/v7] is absent from the index, its
    variant is not empty, and yet the lookup is retried under [v8] and
    resolves to the [linux/arm64/v8] entry. *)
Lemma C2_retry_with_requested_variant :
  let idx := platformManifests (Manifests Demo.nginx) in
  let p := mkPlatform "linux" "arm64" "v7" in
  idx !! platform_String p = None
  ∧ variant p ≠ ""
  ∧ resolve idx p = (mkPlatform "linux" "arm64" "v8",
                     Demo.desc "linux" "arm64" "v8" "sha256:bbb", true)
  ∧ resolve idx p ≠ (p, zero, false).
Proof. vm_compute. repeat split; congruence. Qed.

(** C3: the one copy request of an iteration is digest-qualified, on both
    sides, when the platform resolved to an entry with a non-empty digest,
    and tag-qualified when it did not resolve or resolved to an entry with
    an empty digest; the references carry the [docker://] transport, and a
    digest-qualified reference is never a tag-qualified one. *)
Theorem C3_copy_request_qualification {W : Type} `{!Collaborators W}
    (verbose : bool) (registryName imageName imageTag : string) (reg : Registry)
    (skopeoOpts : list skopeo.SkopeoOption) (idx : gmap string ManifestDescriptor)
    (acc : bool * ManifestList) (p : platform) (s : state W) :
  copy_requests
    (trace_of (platform_body verbose registryName imageName imageTag reg
                 skopeoOpts idx acc p s))
  = [match resolve idx p with
     | (p', m, true) =>
         if decide (Digest m = "")
         then (tag_ref registryName imageName imageTag,
               tag_ref (Address reg) imageName imageTag, copy_opts skopeoOpts p')
         else (digest_ref registryName imageName (Digest m),
               digest_ref (Address reg) imageName (Digest m),
               copy_opts skopeoOpts p')
     | (p', _, false) =>
         (tag_ref registryName imageName imageTag,
          tag_ref (Address reg) imageName imageTag, copy_opts skopeoOpts p')
     end]
  ∧ (∀ host digest,
       digest_ref host imageName digest
         = "docker://" +:+ host +:+ "/" +:+ imageName +:+ "@" +:+ digest
       ∧ tag_ref host imageName imageTag
         = "docker://" +:+ host +:+ "/" +:+ imageName +:+ ":" +:+ imageTag
       ∧ digest_ref host imageName digest ≠ tag_ref host imageName imageTag).
Proof.
  split; [|intros; repeat split; apply digest_ref_ne_tag_ref].
  rewrite platform_body_run. unfold trace_of. cbn [snd].
  pose proof (resolve_miss_zero idx p) as Hzero.
  destruct (resolve idx p) as [[p' m] ok]. cbn [fst snd] in *.
  assert (Hlog : ∀ out err, copy_requests (after_copy verbose out err) = [])
    by (intros out [e|]; simpl; [done | by destruct verbose]).
  unfold copy_requests in *. rewrite !omap_app, Hlog, app_nil_r.
  unfold copy_src, copy_dst, digestFound_of.
  destruct ok; simpl.
  - case_decide as Hd; [by rewrite bool_decide_eq_true_2|].
    by rewrite bool_decide_eq_false_2.
  - by rewrite Hzero.
Qed.

(** C9: for a requested [arm64] platform with an empty variant that is
    absent from the index, the loop variable carries the variant [v8] from
    the retry on: the copy request is filtered on [v8], also when the
    second lookup misses as well and the copy is tag-qualified (the
    warning then names the [v8] platform). *)
Theorem C9_v8_stays_in_the_copy_filter {W : Type} `{!Collaborators W}
    (verbose : bool) (registryName imageName imageTag : string) (reg : Registry)
    (skopeoOpts : list skopeo.SkopeoOption) (idx : gmap string ManifestDescriptor)
    (acc : bool * ManifestList) (p : platform) (s : state W) :
  arch p = "arm64" → variant p = "" → idx !! platform_String p = None →
  let p8 := mkPlatform (os p) "arm64" "v8" in
  let opts := skopeoOpts ++ [skopeo.DisableDestTLSVerify; skopeo.OS (os p);
                             skopeo.Arch "arm64"; skopeo.Variant "v8"] in
  let t := trace_of (platform_body verbose registryName imageName imageTag reg
                       skopeoOpts idx acc p s) in
  match idx !! platform_String p8 with
  | Some m =>
      copy_requests t = [(copy_src registryName imageName imageTag m,
                          copy_dst (Address reg) imageName imageTag m, opts)]
  | None =>
      copy_requests t = [(tag_ref registryName imageName imageTag,
                          tag_ref (Address reg) imageName imageTag, opts)]
      ∧ head t = Some (EvWarning p8
                         (registryName +:+ "/" +:+ imageName +:+ ":" +:+ imageTag))
  end.
Proof.
  intros Harch Hvar Hmiss p8 opts t. subst t.
  assert (Hlog : ∀ out err, copy_requests (after_copy verbose out err) = [])
    by (intros out [e|]; simpl; [done | by destruct verbose]).
  rewrite platform_body_run. unfold trace_of. cbn [snd].
  rewrite (resolve_after_miss idx p Hmiss).
  rewrite decide_True by done. fold p8.
  destruct (idx !! platform_String p8) as [m|]; cbn [fst snd].
  - unfold copy_requests in *. rewrite !omap_app, Hlog. done.
  - split; [|done].
    unfold copy_requests in *. rewrite !omap_app, Hlog. done.
Qed.

Lemma C9_v8_stays_in_the_copy_filter_witness :
  let p := mkPlatform "linux" "arm64" "" in
  let t := trace_of (@platform_body unit Demo.happy false "docker.io"
                       "library/nginx" "1.25" {| Address := "127.0.0.1:5000" |}
                       [] ∅ (false, {| versioned := Demo.v2; Manifests := [] |})
                       p (Demo.start [p])) in
  copy_requests t =
    [("docker://docker.io/library/nginx:1.25",
      "docker://127.0.0.1:5000/library/nginx:1.25",
      [skopeo.DisableDestTLSVerify; skopeo.OS "linux"; skopeo.Arch "arm64";
       skopeo.Variant "v8"])]
  ∧ head t = Some (EvWarning (mkPlatform "linux" "arm64" "v8")
                     "docker.io/library/nginx:1.25").
Proof.
  exact (@C9_v8_stays_in_the_copy_filter unit Demo.happy false "docker.io"
           "library/nginx" "1.25" {| Address := "127.0.0.1:5000" |} [] ∅
           (false, {| versioned := Demo.v2; Manifests := [] |})
           (mkPlatform "linux" "arm64" "")
           (Demo.start [mkPlatform "linux" "arm64" ""])
           eq_refl eq_refl eq_refl).
Defined.

(** ** Reasoning on traces *)

Ltac unfold_cmd :=
  unfold RunE, parse_config, with_tempDir, with_registry, bundle,
    registry_body, registry_opts, login, image_body, imageTag_body, publish,
    platforms_loop, platform_body, check_outputFile, logV4.

Section Sound.

Context {W : Type}.
Variables (ps : list platform) (P : event → Prop).

Lemma sound_ret {A} (a : A) : sound ps P (ret a : M W A).
Proof. intros s Hs. split; [constructor | done]. Qed.

Lemma sound_fail {A} (e : error) : sound ps P (fail e : M W A).
Proof. intros s Hs. split; [constructor | done]. Qed.

Lemma sound_emit (ev : event) : P ev → sound ps P (emit ev : M W unit).
Proof. intros Hev s Hs. split; [by repeat constructor | done]. Qed.

Lemma sound_call {R} (f : W → R * W) (ev : R → event) :
  (∀ r, P (ev r)) → sound ps P (call f ev).
Proof.
  intros Hev s Hs. unfold call, trace_of, state_of.
  destruct (f (world s)) as [r w]. simpl. split; [by repeat constructor | done].
Qed.

Lemma sound_bind {A B} (m : M W A) (k : A → M W B) :
  sound ps P m → (∀ a, sound ps P (k a)) → sound ps P (bind m k).
Proof.
  intros Hm Hk s Hs. specialize (Hm s Hs). unfold bind, trace_of, state_of in *.
  destruct (m s) as [[[a|e] s1] t1]; simpl in *; [|done].
  destruct Hm as [Ht1 Hs1]. specialize (Hk a s1 Hs1).
  unfold trace_of, state_of in Hk.
  destruct (k a s1) as [[r s2] t2]; simpl in *.
  destruct Hk as [Ht2 Hs2]. split; [by apply Forall_app | done].
Qed.

Lemma sound_get {B} (k : list platform → M W B) :
  sound ps P (k ps) → sound ps P (bind get_platforms k).
Proof.
  intros Hk s Hs. specialize (Hk s Hs).
  unfold bind, get_platforms, trace_of, state_of in *. rewrite Hs.
  by destruct (k ps s) as [[r s2] t2].
Qed.

Lemma sound_defer {A B} (d : M W B) (body : M W A) :
  sound ps P d → sound ps P body → sound ps P (defer d body).
Proof.
  intros Hd Hb s Hs. specialize (Hb s Hs). unfold defer, trace_of, state_of in *.
  destruct (body s) as [[r s1] t1]; simpl in *. destruct Hb as [Ht1 Hs1].
  specialize (Hd s1 Hs1). unfold trace_of, state_of in Hd.
  destruct (d s1) as [[r2 s2] t2]; simpl in *.
  destruct Hd as [Ht2 Hs2]. split; [by apply Forall_app | done].
Qed.

Lemma sound_forM_ {A} (f : A → M W unit) (l : list A) :
  (∀ x, sound ps P (f x)) → sound ps P (forM_ f l).
Proof.
  intros Hf. induction l as [|x l IH]; simpl.
  - apply sound_ret.
  - apply sound_bind; [apply Hf | by intros _].
Qed.

Lemma sound_foldM {A B} (f : B → A → M W B) (b : B) (l : list A) :
  (∀ b x, sound ps P (f b x)) → sound ps P (foldM f b l).
Proof.
  intros Hf. revert b. induction l as [|x l IH]; intros b; simpl.
  - apply sound_ret.
  - apply sound_bind; [apply Hf | intros b'; apply IH].
Qed.

End Sound.

Ltac sound_step :=
  lazymatch goal with
  | |- sound _ _ (bind get_platforms _) => apply sound_get
  | |- sound _ _ (bind _ _) => apply sound_bind; [|intros ?]
  | |- sound _ _ (ret _) => apply sound_ret
  | |- sound _ _ (fail _) => apply sound_fail
  | |- sound _ _ (emit _) => apply sound_emit; try exact I; try reflexivity
  | |- sound _ _ (call _ _) => apply sound_call; intros ?; try exact I; try reflexivity
  | |- sound _ _ (defer _ _) => apply sound_defer
  | |- sound _ _ (forM_ _ _) => apply sound_forM_; intros ?
  | |- sound _ _ (foldM _ _ _) => apply sound_foldM; intros ? ?
  | |- sound _ _ (match ?x with _ => _ end) => destruct x
  end.

Ltac sound_tac :=
  unfold_cmd; unfold mbind, M_bind, mret, M_ret; repeat sound_step.

(** The platforms are only ever read, and every status line shows them. *)
Lemma RunE_sound_platforms {W : Type} `{!Collaborators W} (verbose : bool)
    (configFile outputFile : string) (overwrite : bool) (ps : list platform) :
  sound ps (shows_platforms ps) (RunE verbose configFile outputFile overwrite).
Proof. sound_tac. Qed.

(** C7: without [--overwrite], an output file that exists ends the command
    right after the [os.Stat] call: the error is returned and nothing else
    has happened, no configuration parsed, no temporary directory, no
    registry, no copy.  With [--overwrite], whether or not the file exists,
    no [os.Stat] call is made at all and the command starts with parsing
    the configuration. *)
Theorem C7_existing_output_file_fails_first {W : Type} `{!Collaborators W}
    (verbose : bool) (configFile outputFile : string) (s : state W) :
  ((os_Stat outputFile (world s)).1 = StatOk →
   RunE verbose configFile outputFile false s
     = (Err (outputFile +:+
             " already exists: specify --overwrite to overwrite existing file"),
        mkState (os_Stat outputFile (world s)).2 (platforms s),
        [EvStart "Checking if output file already exists";
         EvStat outputFile StatOk; EvEnd false]))
  ∧ Forall (fun ev => is_stat ev = false)
      (trace_of (RunE verbose configFile outputFile true s))
  ∧ ∃ rest,
      trace_of (RunE verbose configFile outputFile true s)
        = EvStart "Parsing image bundle config"
          :: EvParseFile configFile (config_ParseFile configFile (world s)).1
          :: rest.
Proof.
  split; [|split].
  - intros Hstat. unfold RunE, check_outputFile. run_M.
    destruct (os_Stat outputFile (world s)) as [r w]. simpl in *. by subst r.
  - assert (Hs : sound (platforms s) (fun ev => is_stat ev = false)
                   (RunE verbose configFile outputFile true))
      by sound_tac.
    by destruct (Hs s eq_refl).
  - unfold RunE, parse_config, trace_of. run_M.
    destruct (config_ParseFile configFile (world s)) as [[cfg|e] w]; simpl;
      [|by eexists].
    destruct (if verbose then _ else _) as [[[[]|e1] s1] t1]; simpl;
      [|by eexists].
    destruct (with_tempDir _ _ _ _) as [[r2 s2] t2]. simpl. by eexists.
Qed.

Lemma C7_existing_output_file_fails_first_witness :
  @RunE unit (Demo.collaborators StatOk (Demo.one_registry ["1.25"])
                (fun _ => (Demo.nginx, "inspected", None)) (fun _ => None))
    false "images.yaml" "images.tar" false
    (Demo.start [mkPlatform "linux" "amd64" ""])
  = (Err "images.tar already exists: specify --overwrite to overwrite existing file",
     Demo.start [mkPlatform "linux" "amd64" ""],
     [EvStart "Checking if output file already exists";
      EvStat "images.tar" StatOk; EvEnd false]).
Proof.
  exact (proj1 (@C7_existing_output_file_fails_first unit
           (Demo.collaborators StatOk (Demo.one_registry ["1.25"])
              (fun _ => (Demo.nginx, "inspected", None)) (fun _ => None))
           false "images.yaml" "images.tar"
           (Demo.start [mkPlatform "linux" "amd64" ""])) eq_refl).
Defined.

(** ** Fail-fast *)

Lemma app_eq_split {A} (t1 t2 pre post : list A) (x : A) :
  t1 ++ t2 = pre ++ x :: post →
  (∃ post1, t1 = pre ++ x :: post1 ∧ post = post1 ++ t2)
  ∨ (∃ pre2, pre = t1 ++ pre2 ∧ t2 = pre2 ++ x :: post).
Proof.
  revert pre. induction t1 as [|y t1 IH]; intros pre Heq; simpl in *.
  - right. by exists pre.
  - destruct pre as [|z pre]; simpl in *.
    + injection Heq as -> <-. left. by exists t1.
    + injection Heq as -> Heq. destruct (IH _ Heq) as [[post1 [-> ->]]|[pre2 [-> ->]]].
      * left. by exists post1.
      * right. by exists pre2.
Qed.

Lemma passive_tool_error (ev : event) : passive ev = true → tool_error ev = None.
Proof. by destruct ev. Qed.

Lemma failfast_passive {A} (r : outcome A) (t : list event) :
  Forall (fun ev => passive ev = true) t → failfast r t.
Proof.
  intros Ht pre ev post e -> Hev.
  apply Forall_app in Ht as [_ Ht]. apply Forall_cons in Ht as [Hp _].
  apply passive_tool_error in Hp. congruence.
Qed.

Section FailFast.

Context {W : Type}.

Lemma ff_ret {A} (a : A) : ff (ret a : M W A).
Proof. intros s. by apply failfast_passive. Qed.

Lemma ff_fail {A} (e : error) : ff (fail e : M W A).
Proof. intros s. by apply failfast_passive. Qed.

Lemma ff_get : ff (get_platforms : M W (list platform)).
Proof. intros s. by apply failfast_passive. Qed.

Lemma ff_bind {A B} (m : M W A) (k : A → M W B) :
  ff m → (∀ a, ff (k a)) → ff (bind m k).
Proof.
  intros Hm Hk s pre ev post e Ht Hev. specialize (Hm s).
  unfold bind, result_of, trace_of in *.
  destruct (m s) as [[[a|e1] s1] t1]; simpl in *.
  - specialize (Hk a s1). unfold result_of, trace_of in Hk.
    destruct (k a s1) as [[r s2] t2]; simpl in *.
    apply app_eq_split in Ht as [[post1 [-> ->]]|[pre2 [-> ->]]].
    + by destruct (Hm pre ev post1 e eq_refl Hev).
    + by apply (Hk pre2 ev post e).
  - destruct (Hm pre ev post e Ht Hev) as [[= ->] Hpost]. done.
Qed.

(** An external call and what follows it: when the call is a tool call
    that failed, the continuation only logs and returns the error. *)
Lemma ff_call_bind {R B} (f : W → R * W) (ev : R → event) (k : R → M W B) :
  (∀ r, match tool_error (ev r) with
        | Some e => ∀ s, result_of (k r s) = Err e
                         ∧ Forall (fun ev => passive ev = true) (trace_of (k r s))
        | None => ff (k r)
        end) →
  ff (bind (call f ev) k).
Proof.
  intros Hk s pre ev0 post e Ht Hev.
  unfold bind, call, result_of, trace_of in *.
  destruct (f (world s)) as [r w]. specialize (Hk r). simpl in *.
  destruct (k r {| world := w; platforms := platforms s |}) as [[r2 s2] t2] eqn:Hrun.
  simpl in *. destruct pre as [|x pre]; simpl in *.
  - simplify_eq. rewrite Hev in Hk.
    specialize (Hk {| world := w; platforms := platforms s |}).
    unfold result_of, trace_of in Hk. by rewrite Hrun in Hk.
  - simplify_eq. destruct (tool_error (ev r)) as [e'|].
    + specialize (Hk {| world := w; platforms := platforms s |}).
      unfold result_of, trace_of in Hk. rewrite Hrun in Hk. simpl in Hk.
      destruct Hk as [_ Hpas].
      apply Forall_app in Hpas as [_ Hpas]. apply Forall_cons in Hpas as [Hp _].
      apply passive_tool_error in Hp. congruence.
    + specialize (Hk {| world := w; platforms := platforms s |}).
      unfold result_of, trace_of in Hk. rewrite Hrun in Hk.
      by apply (Hk pre ev0 post e).
Qed.

Lemma ff_call {R} (f : W → R * W) (ev : R → event) :
  (∀ r, tool_error (ev r) = None) → ff (call f ev).
Proof.
  intros Hev s pre ev0 post e Ht He. unfold call, result_of, trace_of in *.
  destruct (f (world s)) as [r w]. simpl in *.
  destruct pre as [|x [|y pre]]; simpl in Ht; try discriminate Ht.
  simplify_eq. by rewrite Hev in He.
Qed.

Lemma ff_emit (ev : event) : tool_error ev = None → ff (emit ev : M W unit).
Proof.
  intros Hev s pre ev0 post e Ht He. unfold emit, trace_of in *. simpl in *.
  destruct pre as [|x [|y pre]]; simpl in Ht; try discriminate Ht.
  simplify_eq.
Qed.

Lemma ff_defer {A B} (d : M W B) (body : M W A) :
  (∀ s, Forall (fun ev => passive ev = true) (trace_of (d s))) →
  ff body → ff (defer d body).
Proof.
  intros Hd Hb s pre ev post e Ht Hev. specialize (Hb s).
  unfold defer, result_of, trace_of in *.
  destruct (body s) as [[r s1] t1]. specialize (Hd s1). unfold trace_of in Hd.
  destruct (d s1) as [[r2 s2] t2]. simpl in *.
  apply app_eq_split in Ht as [[post1 [-> ->]]|[pre2 [-> ->]]].
  - destruct (Hb pre ev post1 e eq_refl Hev) as [-> Hpost].
    split; [done | by apply Forall_app].
  - apply Forall_app in Hd as [_ Hd]. apply Forall_cons in Hd as [Hp _].
    apply passive_tool_error in Hp. congruence.
Qed.

Lemma ff_forM_ {A} (f : A → M W unit) (l : list A) :
  (∀ x, ff (f x)) → ff (forM_ f l).
Proof.
  intros Hf. induction l as [|x l IH]; simpl.
  - apply ff_ret.
  - apply ff_bind; [apply Hf | by intros _].
Qed.

Lemma ff_foldM {A B} (f : B → A → M W B) (b : B) (l : list A) :
  (∀ b x, ff (f b x)) → ff (foldM f b l).
Proof.
  intros Hf. revert b. induction l as [|x l IH]; intros b; simpl.
  - apply ff_ret.
  - apply ff_bind; [apply Hf | intros b'; apply IH].
Qed.

End FailFast.

Lemma passive_call {W R} (f : W → R * W) (ev : R → event) :
  (∀ r, passive (ev r) = true) →
  ∀ s, Forall (fun ev => passive ev = true) (trace_of (call f ev s)).
Proof.
  intros Hev s. unfold call, trace_of. destruct (f (world s)) as [r w].
  by repeat constructor.
Qed.

Ltac ff_failed_call :=
  intros ?; run_M; split; [reflexivity | repeat constructor].

Ltac ff_step :=
  lazymatch goal with
  | |- ff (bind (call _ _) _) =>
      apply ff_call_bind;
      let r := fresh "r" in
      intros r;
      lazymatch type of r with
      | (_ * _ * option error)%type => destruct r as [[? ?] [?|]]
      | (_ * option error)%type => destruct r as [? [?|]]
      | _ => idtac
      end;
      cbn [tool_error]; try ff_failed_call
  | |- ff (bind get_platforms _) => apply ff_bind; [apply ff_get | intros ?]
  | |- ff (bind _ _) => apply ff_bind; [|intros ?]
  | |- ff (ret _) => apply ff_ret
  | |- ff (fail _) => apply ff_fail
  | |- ff (emit _) => apply ff_emit; reflexivity
  | |- ff (call _ _) => apply ff_call; intros ?; reflexivity
  | |- ff (defer _ _) =>
      apply ff_defer; [apply passive_call; intros ?; reflexivity |]
  | |- ff (forM_ _ _) => apply ff_forM_; intros ?
  | |- ff (foldM _ _ _) => apply ff_foldM; intros ? ?
  | |- ff (match ?x with _ => _ end) => destruct x
  end.

Ltac ff_tac :=
  unfold_cmd; unfold mbind, M_bind, mret, M_ret; repeat ff_step.

Lemma RunE_ff {W : Type} `{!Collaborators W} (verbose : bool)
    (configFile outputFile : string) (overwrite : bool) :
  ff (RunE verbose configFile outputFile overwrite).
Proof. ff_tac. Qed.

(** C5: when [Copy], [InspectManifest] or [CopyManifest] comes back with
    an error anywhere in a run, the command returns that very error, and
    after the failed call nothing follows but log lines and the deferred
    clean-up: no further platform, tag, image or registry is touched and
    the manifest list of the tag in flight is not published. *)
Theorem C5_tool_error_aborts_the_run {W : Type} `{!Collaborators W}
    (verbose : bool) (configFile outputFile : string) (overwrite : bool)
    (s : state W) (pre post : list event) (ev : event) (e : error) :
  trace_of (RunE verbose configFile outputFile overwrite s) = pre ++ ev :: post →
  tool_error ev = Some e →
  result_of (RunE verbose configFile outputFile overwrite s) = Err e
  ∧ Forall (fun ev => passive ev = true) post.
Proof. apply RunE_ff. Qed.

Lemma C5_tool_error_aborts_the_run_witness :
  let run := @RunE unit Demo.failing_copy false "images.yaml" "images.tar" false
               (Demo.start [Demo.amd64; Demo.arm64]) in
  result_of run = Err "exit status 1"
  ∧ Forall (fun ev => passive ev = true)
      [EvInfo "copied"; EvEnd false; EvSkopeoCleanup;
       EvRemoveAll "/work/.image-bundle-1"].
Proof.
  pose (run := @RunE unit Demo.failing_copy false "images.yaml" "images.tar" false
                 (Demo.start [Demo.amd64; Demo.arm64])).
  exact (@C5_tool_error_aborts_the_run unit Demo.failing_copy false
           "images.yaml" "images.tar" false (Demo.start [Demo.amd64; Demo.arm64])
           (take 19 (trace_of run)) (drop 20 (trace_of run))
           (EvCopy "docker://docker.io/library/nginx@sha256:bbb"
              "docker://127.0.0.1:5000/library/nginx@sha256:bbb"
              [skopeo.DisableDestTLSVerify; skopeo.OS "linux";
               skopeo.Arch "arm64"; skopeo.Variant "v8"]
              ("copied", Some "exit status 1"))
           "exit status 1" eq_refl eq_refl).
Defined.

(** ** Publishing the destination manifest list *)

(** When the loop over the platforms returns, [digestFound] is what the
    last iteration assigned to it: whether the last requested platform
    resolved to a digest.  Earlier platforms do not count. *)
Lemma platforms_loop_digestFound {W : Type} `{!Collaborators W}
    (verbose : bool) (registryName imageName imageTag : string) (reg : Registry)
    (skopeoOpts : list skopeo.SkopeoOption) (idx : gmap string ManifestDescriptor)
    (ps : list platform) (acc : bool * ManifestList) (s : state W)
    (digestFound : bool) (destImageManifestList : ManifestList) :
  result_of (platforms_loop verbose registryName imageName imageTag reg
               skopeoOpts idx acc ps s)
    = Ok (digestFound, destImageManifestList) →
  digestFound = match last ps with
                | Some p => digestFound_of (resolve idx p).1.2
                | None => acc.1
                end.
Proof.
  unfold platforms_loop. revert acc s.
  induction ps as [|p ps IH]; intros acc s; cbn [foldM].
  - unfold ret, result_of. simpl. by intros [= ->].
  - unfold bind at 1. rewrite platform_body_run.
    destruct (Copy _ _ _ (world s)) as [[out [e|]] w]; cbn [fst snd];
      [by unfold result_of|].
    match goal with
    | |- context [foldM ?f ?b ps ?s1] =>
        specialize (IH b s1); destruct (foldM f b ps s1) as [[r s2] t2]
    end.
    unfold result_of in *. cbn [fst snd] in *. intros Hr.
    rewrite (IH Hr), last_cons. by destruct (last ps).
Qed.

(** The half of the publishing rule that the code keeps: when no
    requested platform resolves to a digest, [digestFound] is false after
    the loop and nothing is published, however many copies went by tag. *)
Lemma no_digest_no_publish {W : Type} `{!Collaborators W}
    (verbose : bool) (registryName imageName imageTag : string) (reg : Registry)
    (skopeoOpts : list skopeo.SkopeoOption) (idx : gmap string ManifestDescriptor)
    (ps : list platform) (destImageManifestList0 : ManifestList) (s : state W)
    (digestFound : bool) (destImageManifestList : ManifestList) :
  Forall (fun p => digestFound_of (resolve idx p).1.2 = false) ps →
  result_of (platforms_loop verbose registryName imageName imageTag reg
               skopeoOpts idx (false, destImageManifestList0) ps s)
    = Ok (digestFound, destImageManifestList) →
  digestFound = false.
Proof.
  intros Hall Hrun. apply platforms_loop_digestFound in Hrun. subst digestFound.
  destruct (last ps) as [p|] eqn:Hlast; [|done].
  apply last_Some_elem_of in Hlast.
  by apply (proj1 (Forall_forall _ _) Hall).
Qed.

(** C1 at a failing input: [linux/amd64] resolves to a digest and its
    entry is appended, [windows/amd64] does not resolve; the loop returns
    a non-empty destination manifest list with [digestFound] false, and
    the run never calls [CopyManifest].  With the same two platforms in
    the other order the list is published. *)
Theorem C1_appended_entry_left_unpublished :
  let reg := {| Address := "127.0.0.1:5000" |} in
  let idx := platformManifests (Manifests Demo.nginx) in
  let ps := [Demo.amd64; Demo.windows] in
  result_of (@platforms_loop unit Demo.happy false "docker.io" "library/nginx"
               "1.25" reg [] idx
               (false, {| versioned := Demo.v2; Manifests := [] |}) ps
               (Demo.start ps))
    = Ok (false, {| versioned := Demo.v2;
                    Manifests := [Demo.desc "linux" "amd64" "" "sha256:aaa"] |})
  ∧ filter (fun ev => is_publish ev = true)
      (trace_of (@RunE unit Demo.happy false "images.yaml" "images.tar" false
                   (Demo.start ps)))
    = []
  ∧ filter (fun ev => is_publish ev = true)
      (trace_of (@RunE unit Demo.happy false "images.yaml" "images.tar" false
                   (Demo.start (reverse ps))))
    = [EvCopyManifest
         {| versioned := Demo.v2;
            Manifests := [Demo.desc "linux" "amd64" "" "sha256:aaa"] |}
         "docker://127.0.0.1:5000/library/nginx:1.25"
         [skopeo.DisableDestTLSVerify] ("published", None)].
Proof. vm_compute. done. Qed.

(** ** The temporary directory *)

Lemma omap_all_None {A B} (f : A → option B) (l : list A) :
  Forall (fun x => f x = None) l → omap f l = [].
Proof.
  induction 1 as [|x l Hx _ IH]; [done|]. cbn [omap list_omap].
  by rewrite Hx.
Qed.

Lemma omap_cons_eq {A B} (f : A → option B) (x : A) (l : list A) :
  omap f (x :: l) = from_option (fun y => y :: omap f l) (omap f l) (f x).
Proof. reflexivity. Qed.

Lemma with_registry_makes_no_tempDir {W : Type} `{!Collaborators W}
    (verbose : bool) (cfg : SourceConfig) (tempDir outputFile : string)
    (s : state W) :
  Forall (fun ev => made_tempDir ev = None)
    (trace_of (with_registry verbose cfg tempDir outputFile s)).
Proof.
  assert (Hs : sound (platforms s) (fun ev => made_tempDir ev = None)
                 (with_registry verbose cfg tempDir outputFile))
    by sound_tac.
  by destruct (Hs s eq_refl).
Qed.

Lemma before_tempDir_makes_none {W : Type} `{!Collaborators W}
    (verbose : bool) (configFile outputFile : string) (overwrite : bool)
    (s : state W) :
  Forall (fun ev => made_tempDir ev = None)
    (trace_of (((if overwrite then mret tt else check_outputFile outputFile);;
                parse_config verbose configFile) s)).
Proof.
  assert (Hs : sound (platforms s) (fun ev => made_tempDir ev = None)
                 ((if overwrite then mret tt else check_outputFile outputFile);;
                  parse_config verbose configFile))
    by sound_tac.
  by destruct (Hs s eq_refl).
Qed.

(** Once [os.MkdirTemp] has succeeded, the last thing the command does
    before it returns, with or without an error, is [os.RemoveAll] on the
    directory it made. *)
Lemma with_tempDir_removes_it {W : Type} `{!Collaborators W}
    (verbose : bool) (cfg : SourceConfig) (outputFile : string) (s : state W)
    (tempDir : string) :
  tempDir ∈ omap made_tempDir (trace_of (with_tempDir verbose cfg outputFile s)) →
  last (trace_of (with_tempDir verbose cfg outputFile s))
    = Some (EvRemoveAll tempDir).
Proof.
  unfold with_tempDir. run_M.
  destruct (filepath_Abs outputFile (world s)) as [[outputFileAbs|e] w1]; simpl;
    [|by intros ?%elem_of_nil].
  destruct (os_MkdirTemp _ _ w1) as [[dir|e] w2]; simpl;
    [|by intros ?%elem_of_nil].
  unfold defer, trace_of. simpl.
  pose proof (with_registry_makes_no_tempDir verbose cfg dir outputFile
                {| world := w2; platforms := platforms s |}) as Hnone.
  unfold trace_of in Hnone.
  destruct (with_registry verbose cfg dir outputFile _) as [[r s3] t3].
  destruct (os_RemoveAll dir (world s3)) as [? w4]. simpl in *.
  rewrite omap_app, (omap_all_None _ _ Hnone). simpl.
  intros ->%list_elem_of_singleton.
  by rewrite !last_cons, last_snoc.
Qed.

Lemma RunE_removes_tempDir {W : Type} `{!Collaborators W}
    (verbose : bool) (configFile outputFile : string) (overwrite : bool)
    (s : state W) (tempDir : string) :
  tempDir ∈ omap made_tempDir
              (trace_of (RunE verbose configFile outputFile overwrite s)) →
  last (trace_of (RunE verbose configFile outputFile overwrite s))
    = Some (EvRemoveAll tempDir).
Proof.
  pose proof (before_tempDir_makes_none verbose configFile outputFile overwrite s)
    as Hnone.
  unfold RunE.
  change (((if overwrite then mret () else check_outputFile outputFile);;
           cfg ← parse_config verbose configFile;
           with_tempDir verbose cfg outputFile) s)
    with (bind (if overwrite then ret tt else check_outputFile outputFile)
            (fun _ => bind (parse_config verbose configFile)
                        (fun cfg => with_tempDir verbose cfg outputFile)) s).
  change (((if overwrite then mret () else check_outputFile outputFile);;
           parse_config verbose configFile) s)
    with (bind (if overwrite then ret tt else check_outputFile outputFile)
            (fun _ => parse_config verbose configFile) s) in Hnone.
  unfold bind, trace_of in *.
  destruct ((if overwrite then ret tt else check_outputFile outputFile) s)
    as [[[[]|e] s1] t1]; simpl in *.
  - destruct (parse_config verbose configFile s1) as [[[cfg|e] s2] t2]; simpl in *.
    + pose proof (with_tempDir_removes_it verbose cfg outputFile s2 tempDir) as Hrm.
      unfold trace_of in Hrm.
      destruct (with_tempDir verbose cfg outputFile s2) as [[r s3] t3]. simpl in *.
      rewrite app_assoc, omap_app, (omap_all_None _ _ Hnone). simpl.
      intros Hin. specialize (Hrm Hin).
      rewrite last_app, Hrm. done.
    + rewrite (omap_all_None _ _ Hnone). by intros ?%elem_of_nil.
  - rewrite (omap_all_None _ _ Hnone). by intros ?%elem_of_nil.
Qed.

(** [os.RemoveAll] is called at most once, as the very last thing. *)
Lemma with_tempDir_RemoveAll_last {W : Type} `{!Collaborators W}
    (verbose : bool) (cfg : SourceConfig) (outputFile : string) (s : state W) :
  ∃ init tail,
    trace_of (with_tempDir verbose cfg outputFile s) = init ++ tail
    ∧ Forall (fun ev => is_RemoveAll ev = false) init
    ∧ length tail ≤ 1.
Proof.
  unfold with_tempDir. run_M.
  destruct (filepath_Abs outputFile (world s)) as [[outputFileAbs|e] w1]; simpl.
  2: { eexists _, []. rewrite app_nil_r. split; [done|].
       split; [by repeat constructor | simpl; lia]. }
  destruct (os_MkdirTemp _ _ w1) as [[dir|e] w2]; simpl.
  2: { eexists _, []. rewrite app_nil_r. split; [done|].
       split; [by repeat constructor | simpl; lia]. }
  unfold defer, trace_of. simpl.
  assert (Hs : sound (platforms s) (fun ev => is_RemoveAll ev = false)
                 (with_registry verbose cfg dir outputFile))
    by sound_tac.
  destruct (Hs {| world := w2; platforms := platforms s |} eq_refl) as [Hnone _].
  unfold trace_of in Hnone.
  destruct (with_registry verbose cfg dir outputFile _) as [[r s3] t3].
  destruct (os_RemoveAll dir (world s3)) as [? w4]. simpl in *.
  exists ([EvStart "Creating temporary directory";
           EvAbs outputFile (inl outputFileAbs);
           EvMkdirTemp (filepath_Dir outputFileAbs) ".image-bundle-*" (inl dir);
           EvEnd true] ++ t3), [EvRemoveAll dir].
  split; [done|]. split; [|simpl; lia].
  apply Forall_app. split; [by repeat constructor | done].
Qed.

Lemma RunE_RemoveAll_last {W : Type} `{!Collaborators W}
    (verbose : bool) (configFile outputFile : string) (overwrite : bool)
    (s : state W) :
  ∃ init tail,
    trace_of (RunE verbose configFile outputFile overwrite s) = init ++ tail
    ∧ Forall (fun ev => is_RemoveAll ev = false) init
    ∧ length tail ≤ 1.
Proof.
  assert (Hs : sound (platforms s) (fun ev => is_RemoveAll ev = false)
                 ((if overwrite then mret tt else check_outputFile outputFile);;
                  parse_config verbose configFile))
    by sound_tac.
  destruct (Hs s eq_refl) as [Hnone _]. clear Hs.
  unfold RunE.
  change (((if overwrite then mret () else check_outputFile outputFile);;
           cfg ← parse_config verbose configFile;
           with_tempDir verbose cfg outputFile) s)
    with (bind (if overwrite then ret tt else check_outputFile outputFile)
            (fun _ => bind (parse_config verbose configFile)
                        (fun cfg => with_tempDir verbose cfg outputFile)) s).
  change (((if overwrite then mret () else check_outputFile outputFile);;
           parse_config verbose configFile) s)
    with (bind (if overwrite then ret tt else check_outputFile outputFile)
            (fun _ => parse_config verbose configFile) s) in Hnone.
  unfold bind, trace_of in *.
  destruct ((if overwrite then ret tt else check_outputFile outputFile) s)
    as [[[[]|e] s1] t1]; simpl in *.
  - destruct (parse_config verbose configFile s1) as [[[cfg|e] s2] t2]; simpl in *.
    + destruct (with_tempDir_RemoveAll_last verbose cfg outputFile s2)
        as (init & tail & Heq & Hinit & Htail).
      unfold trace_of in Heq.
      destruct (with_tempDir verbose cfg outputFile s2) as [[r s3] t3]. simpl in *.
      subst t3. exists (t1 ++ t2 ++ init), tail.
      split; [by rewrite <- !app_assoc|]. split; [|done].
      rewrite app_assoc. by apply Forall_app.
    + exists (t1 ++ t2), []. rewrite app_nil_r.
      split; [done|]. split; [done | simpl; lia].
  - exists t1, []. rewrite app_nil_r.
    split; [done|]. split; [done | simpl; lia].
Qed.

Lemma split_at_go_app (t pre post : list event) :
  split_at_go t = Some (pre, post) → t = pre ++ post.
Proof.
  revert pre post. induction t as [|ev t IH]; intros pre post; [done|].
  destruct ev; simpl;
    try (destruct (split_at_go t) as [[pre' post']|]; [|done];
         intros [= <- <-]; by rewrite (IH pre' post' eq_refl)).
  by intros [= <- <-].
Qed.

(** The serving goroutine is started only once the temporary directory
    exists. *)
Lemma go_needs_tempDir {W : Type} `{!Collaborators W}
    (verbose : bool) (configFile outputFile : string) (overwrite : bool)
    (s : state W) (ev : event) :
  ev ∈ trace_of (RunE verbose configFile outputFile overwrite s) →
  is_go ev = true →
  ∃ tempDir,
    tempDir ∈ omap made_tempDir
                (trace_of (RunE verbose configFile outputFile overwrite s)).
Proof.
  assert (Hs : sound (platforms s) (fun ev => is_go ev = false)
                 ((if overwrite then mret tt else check_outputFile outputFile);;
                  parse_config verbose configFile))
    by sound_tac.
  destruct (Hs s eq_refl) as [Hnone _]. clear Hs.
  unfold RunE.
  change (((if overwrite then mret () else check_outputFile outputFile);;
           cfg ← parse_config verbose configFile;
           with_tempDir verbose cfg outputFile) s)
    with (bind (if overwrite then ret tt else check_outputFile outputFile)
            (fun _ => bind (parse_config verbose configFile)
                        (fun cfg => with_tempDir verbose cfg outputFile)) s).
  change (((if overwrite then mret () else check_outputFile outputFile);;
           parse_config verbose configFile) s)
    with (bind (if overwrite then ret tt else check_outputFile outputFile)
            (fun _ => parse_config verbose configFile) s) in Hnone.
  assert (Hno : ∀ t : list event,
            Forall (fun ev => is_go ev = false) t → ev ∈ t → is_go ev = true → False).
  { intros t Ht Hin Hgo. apply (proj1 (Forall_forall _ _) Ht) in Hin. congruence. }
  unfold bind, trace_of in *.
  destruct ((if overwrite then ret tt else check_outputFile outputFile) s)
    as [[[[]|e] s1] t1]; simpl in *; [|by intros Hin Hgo; destruct (Hno _ Hnone Hin Hgo)].
  destruct (parse_config verbose configFile s1) as [[[cfg|e] s2] t2]; simpl in *;
    [|by intros Hin Hgo; destruct (Hno _ Hnone Hin Hgo)].
  unfold with_tempDir. run_M.
  destruct (filepath_Abs outputFile (world s2)) as [[outputFileAbs|e] w1]; simpl.
  2: { intros Hin Hgo. exfalso. rewrite app_assoc in Hin.
       apply elem_of_app in Hin as [Hin|Hin]; [by apply (Hno _ Hnone)|].
       apply elem_of_cons in Hin as [->|Hin]; [done|].
       apply elem_of_cons in Hin as [->|Hin]; [done|].
       apply elem_of_cons in Hin as [->|Hin]; [done|].
       by apply elem_of_nil in Hin. }
  destruct (os_MkdirTemp _ _ w1) as [[tempDir|e] w2]; simpl.
  2: { intros Hin Hgo. exfalso. rewrite app_assoc in Hin.
       apply elem_of_app in Hin as [Hin|Hin]; [by apply (Hno _ Hnone)|].
       apply elem_of_cons in Hin as [->|Hin]; [done|].
       apply elem_of_cons in Hin as [->|Hin]; [done|].
       apply elem_of_cons in Hin as [->|Hin]; [done|].
       apply elem_of_cons in Hin as [->|Hin]; [done|].
       by apply elem_of_nil in Hin. }
  intros _ _. exists tempDir.
  destruct (defer _ _ _) as [[r3 s3] t3]. simpl.
  rewrite app_assoc, omap_app. apply elem_of_app. right.
  rewrite !omap_cons_eq. simpl. by left.
Qed.

Lemma split_at_go_is_go (t pre post : list event) :
  split_at_go t = Some (pre, post) → ∃ ev, ev ∈ pre ∧ is_go ev = true.
Proof.
  revert pre post. induction t as [|ev t IH]; intros pre post; [done|].
  destruct ev; simpl;
    try (destruct (split_at_go t) as [[pre' post']|]; [|done];
         intros [= <- <-]; destruct (IH pre' post' eq_refl) as (ev' & Hin & Hgo);
         exists ev'; split; [by right | done]).
  intros [= <- <-]. eexists. split; [by left | done].
Qed.

(** Whenever the serving goroutine ends the process, it does so with
    code 2, after a prefix of what the command does when it is left to
    return.  [os.RemoveAll] has been called by then only if that prefix is
    the whole run of the command, whose last call it is: an exit at any
    earlier point leaves the temporary directory behind. *)
Lemma exit_cuts_the_run {W : Type} `{!Collaborators W}
    (verbose : bool) (configFile outputFile : string) (overwrite : bool)
    (serve_fails : option (nat * error)) (s : state W)
    (code : Z) (t : list event) :
  run_process serve_fails (RunE verbose configFile outputFile overwrite) s
    = (Exited code, t) →
  code = 2%Z
  ∧ ∃ k e t0,
      serve_fails = Some (k, e)
      ∧ t = t0 ++ [EvErrOut ("error serving Docker registry: " +:+ e +:+ newline);
                   EvExit 2]
      ∧ t0 `prefix_of` trace_of (RunE verbose configFile outputFile overwrite s)
      ∧ (∃ ev, ev ∈ t0 ∧ is_go ev = true)
      ∧ (t0 ≠ trace_of (RunE verbose configFile outputFile overwrite s) →
         Forall (fun ev => is_RemoveAll ev = false) t)
      ∧ (t0 = trace_of (RunE verbose configFile outputFile overwrite s) →
         ∃ tempDir,
           tempDir ∈ omap made_tempDir t0 ∧ last t0 = Some (EvRemoveAll tempDir)).
Proof.
  unfold run_process.
  destruct (RunE_RemoveAll_last verbose configFile outputFile overwrite s)
    as (init & tail & Heq & Hinit & Htail).
  pose proof (RunE_removes_tempDir verbose configFile outputFile overwrite s)
    as Hlast.
  pose proof (go_needs_tempDir verbose configFile outputFile overwrite s)
    as Hgo.
  unfold trace_of in *.
  destruct (RunE verbose configFile outputFile overwrite s) as [[r s'] tr].
  simpl in *. destruct serve_fails as [[k e]|]; [|done].
  destruct (split_at_go tr) as [[pre post]|] eqn:Hsplit; [|done].
  pose proof (split_at_go_is_go _ _ _ Hsplit) as (ev & Hev & Hisgo).
  apply split_at_go_app in Hsplit.
  case_decide as Hk; [|done]. intros [= <- <-]. split; [done|].
  exists k, e, (pre ++ take k post). split; [done|].
  split; [by rewrite <- app_assoc|].
  split; [rewrite Hsplit; apply prefix_app, prefix_take|].
  split; [exists ev; split; [apply elem_of_app; by left | done]|].
  split.
  - intros Hne.
    assert (Hlt : k < length post).
    { destruct (decide (k = length post)) as [->|]; [|lia].
      rewrite firstn_all in Hne. congruence. }
    rewrite app_assoc. apply Forall_app. split; [|by repeat constructor].
    rewrite <- (take_app_add pre post k).
    rewrite <- Hsplit, Heq, take_app_le.
    + by apply Forall_take.
    + assert (Hlen : length (pre ++ post) = length (init ++ tail)) by congruence.
      rewrite !length_app in Hlen. lia.
  - intros Hall. rewrite Hall.
    destruct (Hgo ev) as [tempDir Hmade]; [|done|].
    { rewrite Hsplit. apply elem_of_app. by left. }
    exists tempDir. split; [done|]. by apply Hlast.
Qed.

(** C8 at a failing input: the staging registry stops serving while the
    command is inspecting the first image.  The process exits with code 2;
    the temporary directory has been made and [os.RemoveAll] is never
    called on it. *)
Theorem C8_exit_2_leaves_the_tempDir :
  let run := run_process
               (Some (3, "listen tcp 127.0.0.1:5000: bind: address already in use"))
               (@RunE unit Demo.happy false "images.yaml" "images.tar" false)
               (Demo.start [Demo.amd64]) in
  run.1 = Exited 2
  ∧ omap made_tempDir run.2 = ["/work/.image-bundle-1"]
  ∧ filter (fun ev => is_RemoveAll ev = true) run.2 = []
  ∧ last run.2 = Some (EvExit 2).
Proof. vm_compute. done. Qed.

(** * Recognising an ECR registry *)

(** ** Matching by derivatives *)

Lemma string_app_eq_empty (a b : string) : a +:+ b = "" → a = "" ∧ b = "".
Proof. destruct a; [done|]. by rewrite string_app_cons. Qed.

Lemma string_app_eq_cons (a b s : string) (c : Ascii.ascii) :
  a +:+ b = String c s →
  (a = "" ∧ b = String c s) ∨ (∃ a', a = String c a' ∧ s = a' +:+ b).
Proof.
  destruct a as [|x a]; [by left|].
  rewrite string_app_cons. intros [= -> <-]. right. by exists a.
Qed.

Lemma nullable_lang (r : regexp.re) :
  regexp.nullable r = true ↔ regexp.lang r "".
Proof.
  split.
  - induction r as [| |f|r1 IH1 r2 IH2|r1 IH1 r2 IH2|r IH]; simpl; try done.
    + constructor.
    + intros [H1 H2]%andb_true_iff.
      apply (regexp.lang_Cat r1 r2 "" ""); auto.
    + intros [H|H]%orb_true_iff;
        [apply regexp.lang_Alt_l | apply regexp.lang_Alt_r]; auto.
    + constructor.
  - intros H. remember "" as s eqn:Hs.
    induction H as [|f c Hc|r1 r2 s1 s2 H1 IH1 H2 IH2|r1 r2 s H IH|r1 r2 s H IH
                   |r|r s1 s2 H1 IH1 H2 IH2]; simpl; try done.
    + apply string_app_eq_empty in Hs as [-> ->]. by rewrite IH1, IH2.
    + by rewrite IH.
    + rewrite IH by done. by rewrite orb_true_r.
Qed.

Lemma deriv_lang (c : Ascii.ascii) (r : regexp.re) (s : string) :
  regexp.lang (regexp.deriv c r) s ↔ regexp.lang r (String c s).
Proof.
  split.
  - revert s.
    induction r as [| |f|r1 IH1 r2 IH2|r1 IH1 r2 IH2|r IH]; intros s; simpl.
    + inversion 1.
    + inversion 1.
    + destruct (f c) eqn:Hf; inversion 1; subst. by constructor.
    + destruct (regexp.nullable r1) eqn:Hn.
      * inversion 1 as [| |? ? s1 s2 H1 H2|? ? ? H1|? ? ? H2| |]; subst.
        -- inversion H1 as [| |? ? s1 s2 H3 H4| | | |]; subst.
           rewrite <- string_app_cons. constructor; auto.
        -- apply (regexp.lang_Cat r1 r2 "" (String c s)); [|auto].
           by apply nullable_lang.
      * inversion 1 as [| |? ? s1 s2 H1 H2| | | |]; subst.
        rewrite <- string_app_cons. constructor; auto.
    + inversion 1; subst;
        [apply regexp.lang_Alt_l | apply regexp.lang_Alt_r]; auto.
    + inversion 1 as [| |? ? s1 s2 H1 H2| | | |]; subst.
      rewrite <- string_app_cons. constructor; auto.
  - intros H. remember (String c s) as s' eqn:Hs. revert s Hs.
    induction H as [|f c' Hc|r1 r2 s1 s2 H1 IH1 H2 IH2|r1 r2 s' H IH|r1 r2 s' H IH
                   |r|r s1 s2 H1 IH1 H2 IH2]; intros s Hs; simpl; try done.
    + injection Hs as -> <-. rewrite Hc. constructor.
    + apply string_app_eq_cons in Hs as [[-> ->]|[a' [-> ->]]].
      * apply nullable_lang in H1 as ->.
        apply regexp.lang_Alt_r. by apply IH2.
      * destruct (regexp.nullable r1);
          [apply regexp.lang_Alt_l|]; constructor; auto.
    + apply regexp.lang_Alt_l. by apply IH.
    + apply regexp.lang_Alt_r. by apply IH.
    + apply string_app_eq_cons in Hs as [[-> ->]|[a' [-> ->]]].
      * by apply IH2.
      * constructor; auto.
Qed.

(** The matcher finds exactly the inputs with a prefix in the language. *)
Lemma MatchString_bol_lang (r : regexp.re) (s : string) :
  regexp.MatchString_bol r s = true ↔
  ∃ s1 s2, s = s1 +:+ s2 ∧ regexp.lang r s1.
Proof.
  revert r. induction s as [|c s IH]; intros r; simpl.
  - rewrite orb_false_r, nullable_lang. split.
    + intros H. by exists "", "".
    + intros (s1 & s2 & Hs & H). symmetry in Hs.
      by apply string_app_eq_empty in Hs as [-> _].
  - rewrite orb_true_iff, nullable_lang, IH. split.
    + intros [H|(s1 & s2 & -> & H)].
      * by exists "", (String c s).
      * exists (String c s1), s2. split; [done | by apply deriv_lang].
    + intros (s1 & s2 & Hs & H). symmetry in Hs.
      apply string_app_eq_cons in Hs as [[-> _]|[a' [-> ->]]].
      * by left.
      * right. exists a', s2. split; [done | by apply deriv_lang].
Qed.

Lemma lang_Lit (l s : string) : regexp.lang (regexp.Lit l) s ↔ s = l.
Proof.
  revert s. induction l as [|c l IH]; intros s; simpl.
  - split; [by inversion 1 | intros ->; constructor].
  - split.
    + inversion 1 as [| |? ? s1 s2 H1 H2| | | |]; subst.
      inversion H1 as [|? ? Hc| | | | |]; subst.
      apply bool_decide_eq_true in Hc as ->.
      apply IH in H2 as ->. done.
    + intros ->. apply (regexp.lang_Cat _ _ (String c "") l).
      * constructor. by apply bool_decide_eq_true.
      * by apply IH.
Qed.

Lemma lang_Star_Class (f : Ascii.ascii → bool) (s : string) :
  regexp.lang (regexp.Star (regexp.Class f)) s ↔ string_forall f s = true.
Proof.
  split.
  - intros H. remember (regexp.Star (regexp.Class f)) as r eqn:Hr.
    induction H as [| | | | | |r s1 s2 H1 _ H2 IH2]; try done.
    injection Hr as ->. inversion H1 as [|? c Hc| | | | |]; subst.
    change (String c "" +:+ s2) with (String c s2). simpl.
    rewrite IH2 by done. by apply andb_true_iff.
  - induction s as [|c s IH]; simpl; [constructor|].
    intros [Hc Hs]%andb_true_iff.
    apply (regexp.lang_Star_cons _ (String c "") s); [by constructor | auto].
Qed.

Lemma lang_Plus_Class (f : Ascii.ascii → bool) (s : string) :
  regexp.lang (regexp.Plus (regexp.Class f)) s ↔
  s ≠ "" ∧ string_forall f s = true.
Proof.
  unfold regexp.Plus. split.
  - inversion 1 as [| |? ? s1 s2 H1 H2| | | |]; subst.
    inversion H1 as [|? c Hc| | | | |]; subst.
    change (String c "" +:+ s2) with (String c s2). split; [done|].
    simpl. apply andb_true_iff. split; [done | by apply lang_Star_Class].
  - intros [Hne Hall]. destruct s as [|c s]; [done|].
    simpl in Hall. apply andb_true_iff in Hall as [Hc Hs].
    apply (regexp.lang_Cat _ _ (String c "") s);
      [by constructor | by apply lang_Star_Class].
Qed.

Lemma lang_Cat_inv (r1 r2 : regexp.re) (s : string) :
  regexp.lang (regexp.Cat r1 r2) s ↔
  ∃ s1 s2, s = s1 +:+ s2 ∧ regexp.lang r1 s1 ∧ regexp.lang r2 s2.
Proof.
  split.
  - inversion 1; subst. eauto.
  - intros (s1 & s2 & -> & H1 & H2). by constructor.
Qed.

Lemma lang_Opt_Lit (l s : string) :
  regexp.lang (regexp.Opt (regexp.Lit l)) s ↔ s = "" ∨ s = l.
Proof.
  unfold regexp.Opt. split.
  - inversion 1 as [| | |? ? ? H1|? ? ? H2| |]; subst.
    + right. by apply lang_Lit.
    + left. by inversion H2.
  - intros [->| ->].
    + apply regexp.lang_Alt_r. constructor.
    + apply regexp.lang_Alt_l. by apply lang_Lit.
Qed.

Lemma IsECRRegistry_parts (registryAddress : string) :
  ecr.IsECRRegistry registryAddress = true ↔
  ∃ scheme account region rest,
    registryAddress =
      scheme +:+ account +:+ ".dkr.ecr." +:+ region +:+ ".amazonaws.com" +:+ rest
    ∧ (scheme = "" ∨ scheme = "https://")
    ∧ account ≠ "" ∧ string_forall ecr.is_alnum account = true
    ∧ region ≠ "" ∧ string_forall ecr.not_dot region = true.
Proof.
  unfold ecr.IsECRRegistry, ecr.ecrRegistryRegexp.
  rewrite MatchString_bol_lang. split.
  - intros (s1 & s2 & -> & H).
    apply lang_Cat_inv in H as (scheme & t1 & -> & Hscheme & H).
    apply lang_Cat_inv in H as (account & t2 & -> & Hacc & H).
    apply lang_Cat_inv in H as (dkr & t3 & -> & Hdkr & H).
    apply lang_Cat_inv in H as (region & t4 & -> & Hreg & H).
    apply lang_Cat_inv in H as (aws & slash & -> & Haws & _).
    apply lang_Opt_Lit in Hscheme. apply lang_Plus_Class in Hacc as [? ?].
    apply lang_Lit in Hdkr as ->. apply lang_Plus_Class in Hreg as [? ?].
    apply lang_Lit in Haws as ->.
    exists scheme, account, region, (slash +:+ s2).
    rewrite !string_app_assoc. done.
  - intros (scheme & account & region & rest & -> & Hs & ? & ? & ? & ?).
    exists (scheme +:+ account +:+ ".dkr.ecr." +:+ region +:+ ".amazonaws.com" +:+ ""),
      rest.
    split; [by rewrite !string_app_assoc|].
    repeat (apply regexp.lang_Cat).
    + by apply lang_Opt_Lit.
    + by apply lang_Plus_Class.
    + by apply lang_Lit.
    + by apply lang_Plus_Class.
    + by apply lang_Lit.
    + apply lang_Opt_Lit. by left.
Qed.

(** X1: the addresses [IsECRRegistry] accepts are exactly those that
    start, after an optional [https://], with a non-empty run of ASCII
    letters and digits, then [.dkr.ecr.], then a non-empty run of bytes
    other than a dot, then [.amazonaws.com]; what follows is free. *)
Theorem IsECRRegistry_shape (registryAddress : string) :
  ecr.IsECRRegistry registryAddress = true ↔
  ∃ scheme account region rest,
    registryAddress =
      scheme +:+ account +:+ ".dkr.ecr." +:+ region +:+ ".amazonaws.com" +:+ rest
    ∧ (scheme = "" ∨ scheme = "https://")
    ∧ account ≠ "" ∧ string_forall ecr.is_alnum account = true
    ∧ region ≠ "" ∧ string_forall ecr.not_dot region = true.
Proof. apply IsECRRegistry_parts. Qed.

(** X2: the pattern is not anchored at the end: whatever is appended to
    an accepted address, a path, a port or a further domain, the result is
    accepted as well. *)
Theorem IsECRRegistry_ignores_what_follows (registryAddress rest : string) :
  ecr.IsECRRegistry registryAddress = true →
  ecr.IsECRRegistry (registryAddress +:+ rest) = true.
Proof.
  unfold ecr.IsECRRegistry. rewrite !MatchString_bol_lang.
  intros (s1 & s2 & -> & H). exists s1, (s2 +:+ rest).
  by rewrite string_app_assoc.
Qed.

Lemma IsECRRegistry_ignores_what_follows_witness :
  ecr.IsECRRegistry
    ("123456789012.dkr.ecr.us-east-1.amazonaws.com" +:+ ".example.org:5000/nginx")
  = true.
Proof.
  apply (IsECRRegistry_ignores_what_follows
           "123456789012.dkr.ecr.us-east-1.amazonaws.com").
  vm_compute. reflexivity.
Defined.

Lemma alnum_run_unique (a1 a2 r1 r2 : string) (c1 c2 : Ascii.ascii) :
  string_forall ecr.is_alnum a1 = true → string_forall ecr.is_alnum a2 = true →
  ecr.is_alnum c1 = false → ecr.is_alnum c2 = false →
  a1 +:+ String c1 r1 = a2 +:+ String c2 r2 →
  a1 = a2 ∧ c1 = c2 ∧ r1 = r2.
Proof.
  revert a2. induction a1 as [|x a1 IH]; intros [|y a2]; simpl;
    rewrite ?string_app_cons.
  - by intros _ _ _ _ [= -> ->].
  - intros _ [Hy _]%andb_true_iff Hc1 _ [= -> _]. congruence.
  - intros [Hx _]%andb_true_iff _ _ Hc2 [= -> _]. congruence.
  - intros [_ H1]%andb_true_iff [_ H2]%andb_true_iff Hc1 Hc2 [= -> Heq].
    destruct (IH a2 H1 H2 Hc1 Hc2 Heq) as (-> & -> & ->). done.
Qed.

(** An address that starts with letters and digits followed by a colon is
    not one that starts with the account label followed by a dot. *)
Lemma scheme_is_no_account (word s account tail : string) :
  string_forall ecr.is_alnum word = true →
  string_forall ecr.is_alnum account = true →
  word +:+ "://" +:+ s ≠ account +:+ ".dkr.ecr." +:+ tail.
Proof.
  intros Hw Ha Heq.
  apply (alnum_run_unique word account ("//" +:+ s) ("dkr.ecr." +:+ tail)
           (Ascii.ascii_of_nat 58) (Ascii.ascii_of_nat 46)) in Heq; try done.
  by destruct Heq as (_ & [=] & _).
Qed.

(** X3: the scheme [https://] is optional: in front of an address that
    does not already start with it, it does not change the answer. *)
Theorem IsECRRegistry_https_optional (registryAddress : string) :
  regexp.MatchString_bol (regexp.Lit "https://") registryAddress = false →
  ecr.IsECRRegistry ("https://" +:+ registryAddress)
    = ecr.IsECRRegistry registryAddress.
Proof.
  intros Hno.
  assert (Hiff : ecr.IsECRRegistry ("https://" +:+ registryAddress) = true
                 ↔ ecr.IsECRRegistry registryAddress = true).
  { rewrite !IsECRRegistry_parts. split.
    - intros (scheme & account & region & rest & Heq & [->| ->] & Hrest).
      + destruct Hrest as (? & ? & ?).
        by apply (scheme_is_no_account "https" registryAddress) in Heq.
      + apply (string_app_inv_head "https://") in Heq.
        exists "", account, region, rest. split; [done|]. split; [by left|done].
    - intros (scheme & account & region & rest & -> & [->| ->] & Hrest).
      + exists "https://", account, region, rest.
        split; [done|]. split; [by right|done].
      + exfalso. apply not_true_iff_false in Hno. apply Hno.
        apply MatchString_bol_lang. eexists "https://", _.
        split; [done | by apply lang_Lit]. }
  destruct (ecr.IsECRRegistry ("https://" +:+ registryAddress)),
    (ecr.IsECRRegistry registryAddress); try done.
  - symmetry. by apply Hiff.
  - by apply Hiff.
Qed.

Lemma IsECRRegistry_https_optional_witness :
  ecr.IsECRRegistry ("https://" +:+ "123456789012.dkr.ecr.eu-west-1.amazonaws.com")
  = ecr.IsECRRegistry "123456789012.dkr.ecr.eu-west-1.amazonaws.com".
Proof.
  apply (IsECRRegistry_https_optional
           "123456789012.dkr.ecr.eu-west-1.amazonaws.com").
  vm_compute. reflexivity.
Defined.

(** X4: no other scheme is accepted: an address written with [http://]
    is never an ECR registry, whatever follows. *)
Theorem IsECRRegistry_rejects_http (registryAddress : string) :
  ecr.IsECRRegistry ("http://" +:+ registryAddress) = false.
Proof.
  apply not_true_iff_false. rewrite IsECRRegistry_parts.
  intros (scheme & account & region & rest & Heq & [->| ->] & Hrest).
  - destruct Hrest as (? & ? & ?).
    by apply (scheme_is_no_account "http" registryAddress) in Heq.
  - discriminate Heq.
Qed.

(** * The run as a whole *)

(** ** Every error of a run *)

Lemma passive_call_error (ev : event) : passive ev = true → call_error ev = None.
Proof. by destruct ev. Qed.

Lemma Forall_passive_call_error (t : list event) :
  Forall (fun ev => passive ev = true) t →
  Forall (fun ev => call_error ev = None) t.
Proof. intros H. eapply Forall_impl; [exact H | apply passive_call_error]. Qed.

Section Accounts.

Context {W : Type}.

Lemma accounts_ret {A} (a : A) : accounts (ret a : M W A).
Proof. intros s. constructor. Qed.

Lemma accounts_get : accounts (get_platforms : M W (list platform)).
Proof. intros s. constructor. Qed.

Lemma accounts_emit (ev : event) :
  call_error ev = None → accounts (emit ev : M W unit).
Proof. intros Hev s. by repeat constructor. Qed.

Lemma accounts_bind {A B} (m : M W A) (k : A → M W B) :
  accounts m → (∀ a, accounts (k a)) → accounts (bind m k).
Proof.
  intros Hm Hk s. specialize (Hm s). unfold bind, result_of, trace_of in *.
  destruct (m s) as [[[a|e] s1] t1]; simpl in *; [|done].
  specialize (Hk a s1). unfold result_of, trace_of in Hk.
  destruct (k a s1) as [[[b|e] s2] t2]; simpl in *.
  - by apply Forall_app.
  - destruct Hk as (pre & ev & post & -> & Hpre & Hev & Hpost).
    exists (t1 ++ pre), ev, post. rewrite <- app_assoc.
    split; [done|]. split; [by apply Forall_app | done].
Qed.

(** A call and what follows it: when the call failed, the continuation
    only logs and returns the error of the call. *)
Lemma accounts_call_bind {R B} (f : W → R * W) (ev : R → event) (k : R → M W B) :
  (∀ r, match call_error (ev r) with
        | Some e => ∀ s, result_of (k r s) = Err e
                         ∧ Forall (fun ev => passive ev = true) (trace_of (k r s))
        | None => accounts (k r)
        end) →
  accounts (bind (call f ev) k).
Proof.
  intros Hk s. unfold bind, call, result_of, trace_of in *.
  destruct (f (world s)) as [r w]. specialize (Hk r). simpl.
  destruct (call_error (ev r)) as [e|] eqn:Hev.
  - specialize (Hk {| world := w; platforms := platforms s |}).
    unfold result_of, trace_of in Hk.
    destruct (k r _) as [[r2 s2] t2]. simpl in *. destruct Hk as [-> Hpas].
    by exists [], (ev r), t2.
  - specialize (Hk {| world := w; platforms := platforms s |}).
    unfold result_of, trace_of in Hk.
    destruct (k r _) as [[[b|e] s2] t2]; simpl in *.
    + by constructor.
    + destruct Hk as (pre & ev' & post & -> & Hpre & Hev' & Hpost).
      exists (ev r :: pre), ev', post. split; [done|].
      split; [by constructor | done].
Qed.

Lemma accounts_call {R} (f : W → R * W) (ev : R → event) :
  (∀ r, call_error (ev r) = None) → accounts (call f ev).
Proof.
  intros Hev s. unfold call, result_of, trace_of.
  destruct (f (world s)) as [r w]. simpl. by repeat constructor.
Qed.

Lemma accounts_defer {A B} (d : M W B) (body : M W A) :
  (∀ s, Forall (fun ev => passive ev = true) (trace_of (d s))) →
  accounts body → accounts (defer d body).
Proof.
  intros Hd Hb s. specialize (Hb s). unfold defer, result_of, trace_of in *.
  destruct (body s) as [[r s1] t1]. specialize (Hd s1). unfold trace_of in Hd.
  destruct (d s1) as [[r2 s2] t2]. simpl in *. destruct r as [a|e]; simpl in *.
  - apply Forall_app. split; [done | by apply Forall_passive_call_error].
  - destruct Hb as (pre & ev & post & -> & Hpre & Hev & Hpost).
    exists pre, ev, (post ++ t2). rewrite <- app_assoc.
    split; [done|]. split; [done|]. split; [done | by apply Forall_app].
Qed.

Lemma accounts_forM_ {A} (f : A → M W unit) (l : list A) :
  (∀ x, accounts (f x)) → accounts (forM_ f l).
Proof.
  intros Hf. induction l as [|x l IH]; simpl.
  - apply accounts_ret.
  - apply accounts_bind; [apply Hf | by intros _].
Qed.

Lemma accounts_foldM {A B} (f : B → A → M W B) (b : B) (l : list A) :
  (∀ b x, accounts (f b x)) → accounts (foldM f b l).
Proof.
  intros Hf. revert b. induction l as [|x l IH]; intros b; simpl.
  - apply accounts_ret.
  - apply accounts_bind; [apply Hf | intros b'; apply IH].
Qed.

End Accounts.

Ltac accounts_step :=
  lazymatch goal with
  | |- accounts (bind (call _ _) _) =>
      apply accounts_call_bind;
      let r := fresh "r" in
      intros r;
      lazymatch type of r with
      | (_ * _ * option _)%type => destruct r as [[? ?] [?|]]
      | (_ * option _)%type => destruct r as [? [?|]]
      | option _ => destruct r as [?|]
      | (_ + _)%type => destruct r as [?|?]
      | stat_result => destruct r as [| |?]
      | _ => idtac
      end;
      cbn [call_error]; try ff_failed_call
  | |- accounts (bind get_platforms _) =>
      apply accounts_bind; [apply accounts_get | intros ?]
  | |- accounts (bind _ _) => apply accounts_bind; [|intros ?]
  | |- accounts (ret _) => apply accounts_ret
  | |- accounts (emit _) => apply accounts_emit; reflexivity
  | |- accounts (call _ _) => apply accounts_call; intros ?; reflexivity
  | |- accounts (defer _ _) =>
      apply accounts_defer; [apply passive_call; intros ?; reflexivity |]
  | |- accounts (forM_ _ _) => apply accounts_forM_; intros ?
  | |- accounts (foldM _ _ _) => apply accounts_foldM; intros ? ?
  | |- accounts (match ?x with _ => _ end) => destruct x
  end.

Lemma RunE_accounts {W : Type} `{!Collaborators W} (verbose : bool)
    (configFile outputFile : string) (overwrite : bool) :
  accounts (RunE verbose configFile outputFile overwrite).
Proof.
  unfold_cmd; unfold mbind, M_bind, mret, M_ret; repeat accounts_step.
Qed.

Lemma unique_failure (pre pre' post post' : list event) (ev ev' : event) :
  pre ++ ev :: post = pre' ++ ev' :: post' →
  Forall (fun ev => call_error ev = None) pre' →
  Forall (fun ev => call_error ev = None) post' →
  call_error ev ≠ None →
  pre = pre' ∧ ev = ev' ∧ post = post'.
Proof.
  revert pre. induction pre' as [|y pre' IH]; intros [|x pre] Heq Hpre Hpost Hev;
    simpl in *.
  - by injection Heq as -> ->.
  - injection Heq as -> <-. apply Forall_app in Hpost as [_ Hpost].
    by apply Forall_cons in Hpost as [? _].
  - injection Heq as -> _. by apply Forall_cons in Hpre as [? _].
  - injection Heq as -> Heq. apply Forall_cons in Hpre as [_ Hpre].
    destruct (IH pre Heq Hpre Hpost Hev) as (-> & -> & ->). done.
Qed.

(** X5: whichever call to a collaborator fails, [os.Stat] (also when it
    reports an existing file), [config.ParseFile], [filepath.Abs],
    [os.MkdirTemp], [registry.NewRegistry], the login, an inspect, a copy,
    the publication, [config.WriteSanitizedConfig] or
    [archive.ArchiveDirectory], the command returns the error of that call,
    wrapped as at its call site; no call failed before it and only log
    lines and deferred clean-up come after it. *)
Theorem any_failed_call_ends_the_run {W : Type} `{!Collaborators W}
    (verbose : bool) (configFile outputFile : string) (overwrite : bool)
    (s : state W) (pre post : list event) (ev : event) (e : error) :
  trace_of (RunE verbose configFile outputFile overwrite s) = pre ++ ev :: post →
  call_error ev = Some e →
  result_of (RunE verbose configFile outputFile overwrite s) = Err e
  ∧ Forall (fun ev => call_error ev = None) pre
  ∧ Forall (fun ev => passive ev = true) post.
Proof.
  intros Ht Hev.
  pose proof (RunE_accounts verbose configFile outputFile overwrite s) as Hacc.
  destruct (result_of (RunE verbose configFile outputFile overwrite s)) as [[]|e'];
    simpl in Hacc.
  - rewrite Ht in Hacc. apply Forall_app in Hacc as [_ Hacc].
    apply Forall_cons in Hacc as [Hnone _]. congruence.
  - destruct Hacc as (pre' & ev' & post' & Ht' & Hpre & Hev' & Hpost).
    rewrite Ht in Ht'.
    apply unique_failure in Ht' as (-> & -> & ->);
      [| done | by apply Forall_passive_call_error | congruence].
    split; [congruence | done].
Qed.

Lemma any_failed_call_ends_the_run_witness :
  result_of
    (@RunE unit (Demo.collaborators (StatErr "permission denied")
                   (Demo.one_registry ["1.25"])
                   (fun _ => (Demo.nginx, "inspected", None)) (fun _ => None))
       false "images.yaml" "images.tar" false (Demo.start [Demo.amd64]))
  = Err "failed to check if output file images.tar already exists: permission denied"
  ∧ Forall (fun ev => call_error ev = None)
      [EvStart "Checking if output file already exists"]
  ∧ Forall (fun ev => passive ev = true) [EvEnd false].
Proof.
  exact (@any_failed_call_ends_the_run unit
           (Demo.collaborators (StatErr "permission denied")
              (Demo.one_registry ["1.25"])
              (fun _ => (Demo.nginx, "inspected", None)) (fun _ => None))
           false "images.yaml" "images.tar" false (Demo.start [Demo.amd64])
           [EvStart "Checking if output file already exists"] [EvEnd false]
           (EvStat "images.tar" (StatErr "permission denied"))
           "failed to check if output file images.tar already exists: permission denied"
           eq_refl eq_refl).
Defined.

(** *** What the clean-ups return *)

Lemma bind_ext {W A B} (m m' : M W A) (k k' : A → M W B) (s : state W) :
  m s = m' s → (∀ a s1, k a s1 = k' a s1) → bind m k s = bind m' k' s.
Proof.
  intros Hm Hk. unfold bind. rewrite Hm.
  destruct (m' s) as [[[a|e] s1] t1]; [|done]. by rewrite Hk.
Qed.

Lemma defer_discards {W A R R'} (f : W → R * W) (f' : W → R' * W) (ev : event)
    (body body' : M W A) (s : state W) :
  (∀ w, (f w).2 = (f' w).2) → body s = body' s →
  defer (call f (fun _ => ev)) body s = defer (call f' (fun _ => ev)) body' s.
Proof.
  intros Hf Hb. unfold defer, call. rewrite Hb.
  destruct (body' s) as [[r s1] t1]. specialize (Hf (world s1)).
  destruct (f (world s1)) as [r1 w1], (f' (world s1)) as [r2 w2].
  simpl in Hf. by subst w2.
Qed.

Lemma bundle_cleanup_results {W : Type} (C : Collaborators W)
    (rm : string → W → option error) (cl : W → option error)
    (verbose : bool) (cfg : SourceConfig) (tempDir : string) (reg : Registry)
    (outputFile : string) (s : state W) :
  @bundle W (with_cleanup_results C rm cl) verbose cfg tempDir reg outputFile s
  = @bundle W C verbose cfg tempDir reg outputFile s.
Proof.
  unfold bundle. unfold mbind at 1 3, M_bind.
  apply bind_ext; [reflexivity|]. intros _ s1.
  apply defer_discards; [intros w; reflexivity | reflexivity].
Qed.

Lemma with_tempDir_cleanup_results {W : Type} (C : Collaborators W)
    (rm : string → W → option error) (cl : W → option error)
    (verbose : bool) (cfg : SourceConfig) (outputFile : string) (s : state W) :
  @with_tempDir W (with_cleanup_results C rm cl) verbose cfg outputFile s
  = @with_tempDir W C verbose cfg outputFile s.
Proof.
  unfold with_tempDir. unfold mbind, M_bind.
  apply bind_ext; [reflexivity|]. intros _ s1.
  apply bind_ext; [reflexivity|]. intros [outputFileAbs|e] s2; [|reflexivity].
  apply bind_ext; [reflexivity|]. intros [tempDir|e] s3; [|reflexivity].
  apply defer_discards; [intros w; reflexivity|].
  apply bind_ext; [reflexivity|]. intros _ s4.
  unfold with_registry. unfold mbind, M_bind.
  apply bind_ext; [reflexivity|]. intros _ s5.
  apply bind_ext; [reflexivity|]. intros [reg|e] s6; [|reflexivity].
  apply bind_ext; [reflexivity|]. intros _ s7.
  apply bind_ext; [reflexivity|]. intros _ s8.
  apply bundle_cleanup_results.
Qed.

(** What [os.RemoveAll] and the clean-up of the skopeo runner return
    reaches nobody: the run is the same run whatever they answer. *)
Lemma RunE_cleanup_results {W : Type} (C : Collaborators W)
    (rm : string → W → option error) (cl : W → option error)
    (verbose : bool) (configFile outputFile : string) (overwrite : bool)
    (s : state W) :
  @RunE W (with_cleanup_results C rm cl) verbose configFile outputFile overwrite s
  = @RunE W C verbose configFile outputFile overwrite s.
Proof.
  unfold RunE. unfold mbind, M_bind.
  apply bind_ext; [reflexivity|]. intros _ s1.
  apply bind_ext; [reflexivity|]. intros cfg s2.
  apply with_tempDir_cleanup_results.
Qed.

Lemma call_error_cases (ev : event) (e : error) :
  call_error ev = Some e ↔ failed_call ev = Some e ∨ already_exists ev = Some e.
Proof.
  destruct ev; simpl; try (intuition congruence);
    match goal with r : stat_result |- _ => destruct r end;
    simpl; intuition congruence.
Qed.

Lemma call_error_None (ev : event) :
  call_error ev = None ↔ failed_call ev = None ∧ already_exists ev = None.
Proof.
  destruct ev; simpl; try (intuition congruence);
    match goal with r : stat_result |- _ => destruct r end;
    simpl; intuition congruence.
Qed.

(** X6: every error the command returns is accounted for by one event of
    the run: either [os.Stat] found the output file, and the error is the
    command's own [... already exists ...], or a call came back with an
    error ([os.Stat] otherwise than with "not exist", [config.ParseFile],
    [filepath.Abs], [os.MkdirTemp], [registry.NewRegistry], the login, an
    inspect, a copy, the publication, [config.WriteSanitizedConfig],
    [archive.ArchiveDirectory]), and the error is that one as wrapped at
    the call site.  The command returns nil exactly when neither happened.
    The two deferred clean-ups are the exception to every call counting:
    what [os.RemoveAll] and [skopeoCleanup] return is discarded, and the
    run, its result included, is the same whatever they answer. *)
Theorem errors_come_from_failed_calls {W : Type} (C : Collaborators W)
    (verbose : bool) (configFile outputFile : string) (overwrite : bool)
    (s : state W) :
  (∀ e, result_of (@RunE W C verbose configFile outputFile overwrite s) = Err e
        ↔ ∃ ev, ev ∈ trace_of (@RunE W C verbose configFile outputFile overwrite s)
                ∧ (failed_call ev = Some e ∨ already_exists ev = Some e))
  ∧ (result_of (@RunE W C verbose configFile outputFile overwrite s) = Ok tt
     ↔ Forall (fun ev => failed_call ev = None ∧ already_exists ev = None)
         (trace_of (@RunE W C verbose configFile outputFile overwrite s)))
  ∧ (∀ (rm : string → W → option error) (cl : W → option error),
       @RunE W (with_cleanup_results C rm cl) verbose configFile outputFile
         overwrite s
       = @RunE W C verbose configFile outputFile overwrite s).
Proof.
  split; [|split]; [| |intros rm cl; apply RunE_cleanup_results].
  - intros e0.
    pose proof (@RunE_accounts W C verbose configFile outputFile overwrite s) as Hacc.
    destruct (result_of (RunE verbose configFile outputFile overwrite s))
      as [[]|e']; simpl in Hacc.
    + split; [done|].
      intros (ev & Hin & Hev%call_error_cases).
      apply (proj1 (Forall_forall _ _) Hacc) in Hin. congruence.
    + destruct Hacc as (pre & ev & post & Ht & Hpre & Hev & Hpost). split.
      * intros [= <-]. exists ev. split; [|by apply call_error_cases].
        rewrite Ht. apply elem_of_app. right. apply elem_of_cons. by left.
      * intros (ev0 & Hin & Hev0%call_error_cases). rewrite Ht in Hin.
        apply Forall_passive_call_error in Hpost.
        apply elem_of_app in Hin as [Hin|Hin].
        { apply (proj1 (Forall_forall _ _) Hpre) in Hin. congruence. }
        apply elem_of_cons in Hin as [->|Hin]; [congruence|].
        apply (proj1 (Forall_forall _ _) Hpost) in Hin. congruence.
  - pose proof (@RunE_accounts W C verbose configFile outputFile overwrite s) as Hacc.
    destruct (result_of (RunE verbose configFile outputFile overwrite s))
      as [[]|e']; simpl in Hacc.
    + split; [|done]. intros _.
      eapply Forall_impl; [exact Hacc|]. intros ev. apply call_error_None.
    + destruct Hacc as (pre & ev & post & Ht & Hpre & Hev & Hpost).
      split; [done|]. rewrite Ht. intros Hall.
      apply Forall_app in Hall as [_ Hall].
      apply Forall_cons in Hall as [Hnone%call_error_None _]. congruence.
Qed.

(** Both clean-ups fail, and the command returns nil. *)
Example failed_cleanups_are_not_reported :
  let C := with_cleanup_results Demo.happy
             (fun _ _ => Some "unlinkat: permission denied")
             (fun _ => Some "exit status 1") in
  let s := Demo.start [Demo.amd64] in
  (@os_RemoveAll unit C "/work/.image-bundle-1" tt).1
    = Some "unlinkat: permission denied"
  ∧ (@skopeoCleanup unit C tt).1 = Some "exit status 1"
  ∧ result_of (@RunE unit C false "images.yaml" "images.tar" false s) = Ok tt
  ∧ last (trace_of (@RunE unit C false "images.yaml" "images.tar" false s))
    = Some (EvRemoveAll "/work/.image-bundle-1").
Proof. vm_compute. done. Qed.

(** ** The loop over the requested platforms *)

Lemma copy_requests_after_copy (verbose : bool) (out : string)
    (err : option error) :
  copy_requests (after_copy verbose out err) = [].
Proof. destruct err; simpl; [done | by destruct verbose]. Qed.

Lemma platforms_loop_run {W : Type} `{!Collaborators W}
    (verbose : bool) (registryName imageName imageTag : string) (reg : Registry)
    (skopeoOpts : list skopeo.SkopeoOption) (idx : gmap string ManifestDescriptor)
    (ps : list platform) (acc : bool * ManifestList) (s : state W) :
  let run := platforms_loop verbose registryName imageName imageTag reg
               skopeoOpts idx acc ps s in
  copy_requests (trace_of run)
    `prefix_of` (planned registryName imageName imageTag reg skopeoOpts idx <$> ps)
  ∧ ∀ digestFound dest,
      result_of run = Ok (digestFound, dest) →
      copy_requests (trace_of run)
        = (planned registryName imageName imageTag reg skopeoOpts idx <$> ps)
      ∧ versioned dest = versioned acc.2
      ∧ Manifests dest
        = Manifests acc.2 ++ filter (fun m => Digest m ≠ "") (found idx <$> ps).
Proof.
  unfold platforms_loop. revert acc s.
  induction ps as [|p ps IH]; intros acc s; cbn [foldM].
  - unfold ret, result_of, trace_of. simpl. split; [done|].
    intros df dest [= ->]. by rewrite app_nil_r.
  - unfold bind. rewrite platform_body_run.
    destruct (Copy _ _ _ (world s)) as [[out [e|]] w]; cbn [fst snd].
    + unfold result_of, trace_of. cbn [fst snd]. split; [|done].
      unfold copy_requests. rewrite !omap_app.
      fold (copy_requests (after_copy verbose out (Some e))).
      rewrite copy_requests_after_copy, app_nil_r.
      destruct (resolve idx p).2; simpl; by apply prefix_cons, prefix_nil.
    + match goal with
      | |- context [foldM ?f ?b ps ?s1] =>
          specialize (IH b s1); destruct (foldM f b ps s1) as [[r s2] t2]
      end.
      unfold result_of, trace_of in *. cbn [fst snd] in *.
      destruct IH as [IHpre IHok].
      assert (Hhere : ∀ t,
                copy_requests
                  (((if (resolve idx p).2 then []
                     else [EvWarning (resolve idx p).1.1
                             (registryName +:+ "/" +:+ imageName +:+ ":" +:+ imageTag)])
                    ++ [EvCopy (copy_src registryName imageName imageTag (resolve idx p).1.2)
                          (copy_dst (Address reg) imageName imageTag (resolve idx p).1.2)
                          (copy_opts skopeoOpts (resolve idx p).1.1) (out, None)]
                    ++ after_copy verbose out None) ++ t)
                = planned registryName imageName imageTag reg skopeoOpts idx p
                  :: copy_requests t).
      { intros t. unfold copy_requests. rewrite !omap_app.
        fold (copy_requests (after_copy verbose out None)).
        rewrite copy_requests_after_copy.
        by destruct (resolve idx p).2. }
      rewrite Hhere. split; [by apply prefix_cons|].
      intros df dest Hr. destruct (IHok df dest Hr) as (-> & -> & ->).
      split; [done|]. split.
      * unfold appended. by destruct (digestFound_of _).
      * rewrite fmap_cons, filter_cons. fold (found idx p).
        unfold appended, digestFound_of.
        case_decide as Hd.
        -- rewrite bool_decide_eq_false_2 by done. simpl.
           by rewrite <- app_assoc.
        -- by rewrite bool_decide_eq_true_2.
Qed.

Lemma copy_results_after_copy (verbose : bool) (out : string)
    (err : option error) :
  copy_results (after_copy verbose out err) = [].
Proof. destruct err; simpl; [done | by destruct verbose]. Qed.

(** What the copy tool answered, copy by copy: the loop goes on after an
    answer without error and returns at the first answer with one. *)
Lemma platforms_loop_results {W : Type} `{!Collaborators W}
    (verbose : bool) (registryName imageName imageTag : string) (reg : Registry)
    (skopeoOpts : list skopeo.SkopeoOption) (idx : gmap string ManifestDescriptor)
    (ps : list platform) (acc : bool * ManifestList) (s : state W) :
  let run := platforms_loop verbose registryName imageName imageTag reg
               skopeoOpts idx acc ps s in
  copy_requests (trace_of run)
    = (planned registryName imageName imageTag reg skopeoOpts idx
         <$> take (length (copy_results (trace_of run))) ps)
  ∧ match result_of run with
    | Ok _ => copy_results (trace_of run) = replicate (length ps) None
    | Err e =>
        ∃ n, n < length ps
             ∧ copy_results (trace_of run) = replicate n None ++ [Some e]
    end.
Proof.
  unfold platforms_loop. revert acc s.
  induction ps as [|p ps IH]; intros acc s; cbn [foldM].
  - unfold ret, result_of, trace_of. simpl. done.
  - unfold bind. rewrite platform_body_run.
    assert (Hhere : ∀ r t,
              copy_requests
                (((if (resolve idx p).2 then []
                   else [EvWarning (resolve idx p).1.1
                           (registryName +:+ "/" +:+ imageName +:+ ":" +:+ imageTag)])
                  ++ [EvCopy (copy_src registryName imageName imageTag (resolve idx p).1.2)
                        (copy_dst (Address reg) imageName imageTag (resolve idx p).1.2)
                        (copy_opts skopeoOpts (resolve idx p).1.1) r]
                  ++ after_copy verbose r.1 r.2) ++ t)
              = planned registryName imageName imageTag reg skopeoOpts idx p
                :: copy_requests t
              ∧ copy_results
                  (((if (resolve idx p).2 then []
                     else [EvWarning (resolve idx p).1.1
                             (registryName +:+ "/" +:+ imageName +:+ ":" +:+ imageTag)])
                    ++ [EvCopy (copy_src registryName imageName imageTag (resolve idx p).1.2)
                          (copy_dst (Address reg) imageName imageTag (resolve idx p).1.2)
                          (copy_opts skopeoOpts (resolve idx p).1.1) r]
                    ++ after_copy verbose r.1 r.2) ++ t)
                = r.2 :: copy_results t).
    { intros [out err] t. unfold copy_requests, copy_results. rewrite !omap_app.
      fold (copy_requests (after_copy verbose out err)).
      fold (copy_results (after_copy verbose out err)).
      rewrite copy_requests_after_copy, copy_results_after_copy.
      by destruct (resolve idx p).2. }
    destruct (Copy _ _ _ (world s)) as [[out [e|]] w]; cbn [fst snd].
    + unfold result_of, trace_of. cbn [fst snd].
      destruct (Hhere (out, Some e) []) as [Hq Hr]. rewrite app_nil_r in Hq, Hr.
      cbn [fst snd] in Hq, Hr. rewrite Hq, Hr. split; [done|].
      exists 0. split; [simpl; lia | done].
    + match goal with
      | |- context [foldM ?f ?b ps ?s1] =>
          specialize (IH b s1); destruct (foldM f b ps s1) as [[r s2] t2]
      end.
      unfold result_of, trace_of in *. cbn [fst snd] in *.
      destruct (Hhere (out, None) t2) as [Hq Hr]. cbn [fst snd] in Hq, Hr.
      rewrite Hq, Hr. destruct IH as [IHq IHr]. split.
      * cbn [length take]. by rewrite fmap_cons, <- IHq.
      * destruct r as [a|e].
        -- by rewrite IHr.
        -- destruct IHr as (n & Hn & ->). exists (S n).
           split; [simpl; lia | done].
Qed.

Lemma planned_unfold (registryName imageName imageTag : string) (reg : Registry)
    (skopeoOpts : list skopeo.SkopeoOption) (idx : gmap string ManifestDescriptor)
    (p : platform) :
  planned registryName imageName imageTag reg skopeoOpts idx p
  = match resolve idx p with
    | (p', m, _) =>
        if decide (Digest m = "")
        then (tag_ref registryName imageName imageTag,
              tag_ref (Address reg) imageName imageTag,
              skopeoOpts ++ [skopeo.DisableDestTLSVerify; skopeo.OS (os p');
                             skopeo.Arch (arch p'); skopeo.Variant (variant p')])
        else (digest_ref registryName imageName (Digest m),
              digest_ref (Address reg) imageName (Digest m),
              skopeoOpts ++ [skopeo.DisableDestTLSVerify; skopeo.OS (os p');
                             skopeo.Arch (arch p'); skopeo.Variant (variant p')])
    end.
Proof.
  unfold planned, found, copy_src, copy_dst, copy_opts, digestFound_of.
  destruct (resolve idx p) as [[p' m] ok]. cbn [fst snd].
  case_decide as Hd.
  - by rewrite bool_decide_eq_true_2.
  - by rewrite bool_decide_eq_false_2.
Qed.

(** X7: the loop issues one copy per requested platform, in the order of
    the request, each digest- or tag-qualified as its lookup says and
    filtered on the platform as the lookup left it.  It goes on to the
    next platform when the copy tool answers without error and stops at the
    first copy that fails, whose error it returns: the answers are a run of
    successes, followed by the one failure when the loop returns an error.
    When it returns normally no platform has been skipped. *)
Theorem one_copy_per_requested_platform {W : Type} `{!Collaborators W}
    (verbose : bool) (registryName imageName imageTag : string) (reg : Registry)
    (skopeoOpts : list skopeo.SkopeoOption) (idx : gmap string ManifestDescriptor)
    (ps : list platform) (acc : bool * ManifestList) (s : state W) :
  let run := platforms_loop verbose registryName imageName imageTag reg
               skopeoOpts idx acc ps s in
  let request p :=
    match resolve idx p with
    | (p', m, _) =>
        if decide (Digest m = "")
        then (tag_ref registryName imageName imageTag,
              tag_ref (Address reg) imageName imageTag,
              skopeoOpts ++ [skopeo.DisableDestTLSVerify; skopeo.OS (os p');
                             skopeo.Arch (arch p'); skopeo.Variant (variant p')])
        else (digest_ref registryName imageName (Digest m),
              digest_ref (Address reg) imageName (Digest m),
              skopeoOpts ++ [skopeo.DisableDestTLSVerify; skopeo.OS (os p');
                             skopeo.Arch (arch p'); skopeo.Variant (variant p')])
    end in
  copy_requests (trace_of run)
    = (request <$> take (length (copy_results (trace_of run))) ps)
  ∧ match result_of run with
    | Ok _ =>
        copy_results (trace_of run) = replicate (length ps) None
        ∧ copy_requests (trace_of run) = (request <$> ps)
    | Err e =>
        ∃ n, n < length ps
             ∧ copy_results (trace_of run) = replicate n None ++ [Some e]
             ∧ copy_requests (trace_of run) = (request <$> take (S n) ps)
    end.
Proof.
  intros run request.
  destruct (platforms_loop_results verbose registryName imageName imageTag reg
              skopeoOpts idx ps acc s) as [Hq Hr].
  fold run in Hq, Hr.
  assert (Hreq : ∀ l : list platform,
            planned registryName imageName imageTag reg skopeoOpts idx <$> l
            = request <$> l).
  { intros l. apply list_fmap_ext. intros _ p _. apply planned_unfold. }
  rewrite Hreq in Hq. split; [done|].
  destruct (result_of run) as [a|e].
  - split; [done|]. rewrite Hq, Hr, length_replicate. by rewrite firstn_all.
  - destruct Hr as (n & Hn & Hr). exists n. split; [done|]. split; [done|].
    rewrite Hq, Hr, length_app, length_replicate. simpl.
    by replace (n + 1) with (S n) by lia.
Qed.

(** ** Keys of the manifest index *)

Lemma no_slash_app (a b : string) :
  no_slash (a +:+ "/" +:+ b) = false.
Proof.
  induction a as [|c a IH]; [done|].
  rewrite string_app_cons. unfold no_slash in *. simpl.
  rewrite IH. by rewrite andb_false_r.
Qed.

Lemma string_app_empty_l (s : string) : "" +:+ s = s.
Proof. reflexivity. Qed.

Lemma no_slash_split (a1 a2 r1 r2 : string) :
  no_slash a1 = true → no_slash a2 = true →
  a1 +:+ "/" +:+ r1 = a2 +:+ "/" +:+ r2 → a1 = a2 ∧ r1 = r2.
Proof.
  unfold no_slash.
  revert a2. induction a1 as [|x a1 IH]; intros [|y a2]; simpl;
    rewrite ?string_app_empty_l, ?string_app_cons.
  - intros _ _ [= Heq]. by subst.
  - intros _ [Hy _]%andb_true_iff [= Heq _]. by subst y.
  - intros [Hx _]%andb_true_iff _ [= Heq _]. by subst x.
  - intros [_ H1]%andb_true_iff [_ H2]%andb_true_iff [= -> Heq].
    by destruct (IH a2 H1 H2 Heq) as [-> ->].
Qed.

Lemma srcManifestPlatform_unfold (m : ManifestDescriptor) :
  srcManifestPlatform m =
    OS (Platform m) +:+ "/" +:+ Architecture (Platform m) +:+
    (if decide (Variant (Platform m) = "") then ""
     else "/" +:+ Variant (Platform m)).
Proof.
  unfold srcManifestPlatform. case_decide.
  - by rewrite string_app_empty_r.
  - by rewrite !string_app_assoc.
Qed.

(** X8: two source entries whose OS and architecture contain no slash
    have the same key only if they name the same platform, variant
    included: in the index an entry is only ever overwritten by an entry
    for the same platform. *)
Theorem index_keys_do_not_collide (m1 m2 : ManifestDescriptor) :
  no_slash (OS (Platform m1)) = true →
  no_slash (Architecture (Platform m1)) = true →
  no_slash (OS (Platform m2)) = true →
  no_slash (Architecture (Platform m2)) = true →
  srcManifestPlatform m1 = srcManifestPlatform m2 →
  Platform m1 = Platform m2.
Proof.
  rewrite !srcManifestPlatform_unfold.
  destruct (Platform m1) as [a1 o1 v1], (Platform m2) as [a2 o2 v2]. simpl.
  intros Ho1 Ha1 Ho2 Ha2 Heq.
  apply no_slash_split in Heq as [-> Heq]; [|done..].
  repeat case_decide; subst.
  - rewrite !string_app_empty_r in Heq. by subst.
  - rewrite string_app_empty_r in Heq. subst a1.
    by rewrite no_slash_app in Ha1.
  - rewrite string_app_empty_r in Heq. subst a2.
    by rewrite no_slash_app in Ha2.
  - apply no_slash_split in Heq as [-> ->]; done.
Qed.

Lemma index_keys_do_not_collide_witness :
  Platform (Demo.desc "linux" "arm64" "v8" "sha256:bbb")
  = Platform (Demo.desc "linux" "arm64" "v8" "sha256:eee").
Proof.
  apply index_keys_do_not_collide; reflexivity.
Defined.

(** Slashes inside a field do make keys collide. *)
Example index_keys_collide_on_slashes :
  srcManifestPlatform (Demo.desc "linux" "arm64/v8" "" "sha256:fff")
  = srcManifestPlatform (Demo.desc "linux" "arm64" "v8" "sha256:bbb").
Proof. reflexivity. Qed.

(** ** Looking up in the index of a manifest list *)

Lemma lookup_miss_no_entry (ms : list ManifestDescriptor) (k : string) :
  platformManifests ms !! k = None →
  Forall (fun m => srcManifestPlatform m ≠ k) ms.
Proof.
  rewrite platformManifests_lookup. intros Hlast%last_None.
  apply Forall_forall. intros m Hm Hk.
  assert (Hin : m ∈ filter (fun m => srcManifestPlatform m = k) ms)
    by (by apply list_elem_of_filter).
  rewrite Hlast in Hin. by apply elem_of_nil in Hin.
Qed.

Lemma resolve_built_index (ms : list ManifestDescriptor) (p : platform) :
  match resolve (platformManifests ms) p with
  | (p', m, true) =>
      last (filter (fun m => srcManifestPlatform m = platform_String p') ms)
        = Some m
      ∧ (p' = p
         ∨ (arch p = "arm64" ∧ p' = set_variant p "v8"
            ∧ Forall (fun m => srcManifestPlatform m ≠ platform_String p) ms))
  | (p', m, false) =>
      m = zero ∧ p' = arm64_fallback p
      ∧ Forall (fun m => srcManifestPlatform m ≠ platform_String p
                         ∧ srcManifestPlatform m ≠ platform_String p') ms
  end.
Proof.
  unfold resolve.
  destruct (platformManifests ms !! platform_String p) as [m|] eqn:H1.
  - rewrite platformManifests_lookup in H1. split; [done | by left].
  - pose proof (lookup_miss_no_entry ms _ H1) as Hno1.
    destruct (platformManifests ms !! platform_String (arm64_fallback p))
      as [m|] eqn:H2.
    + rewrite platformManifests_lookup in H2. split; [done|].
      unfold arm64_fallback in *. case_decide as Harch.
      * right. done.
      * by left.
    + pose proof (lookup_miss_no_entry ms _ H2) as Hno2.
      split; [done|]. split; [done|].
      apply Forall_forall. intros m Hm.
      split.
      * by apply (proj1 (Forall_forall _ _) Hno1).
      * by apply (proj1 (Forall_forall _ _) Hno2).
Qed.

(** X9: against the index built from a manifest list, a requested
    platform resolves to the last entry of the list that has its key; for
    [arm64] the key with variant [v8] is only consulted when no entry has
    the requested key; and the platform is unresolved exactly when no
    entry has either key. *)
Theorem resolve_finds_the_last_matching_entry
    (ms : list ManifestDescriptor) (p : platform) :
  match resolve (platformManifests ms) p with
  | (p', m, true) =>
      last (filter (fun m => srcManifestPlatform m = platform_String p') ms)
        = Some m
      ∧ (p' = p
         ∨ (arch p = "arm64" ∧ p' = set_variant p "v8"
            ∧ Forall (fun m => srcManifestPlatform m ≠ platform_String p) ms))
  | (p', m, false) =>
      m = zero ∧ p' = arm64_fallback p
      ∧ Forall (fun m => srcManifestPlatform m ≠ platform_String p
                         ∧ srcManifestPlatform m ≠ platform_String p') ms
  end.
Proof. apply resolve_built_index. Qed.

Lemma found_in_source (ms : list ManifestDescriptor) (p : platform) :
  Digest (found (platformManifests ms) p) ≠ "" →
  found (platformManifests ms) p ∈ ms.
Proof.
  unfold found. pose proof (resolve_built_index ms p) as H.
  destruct (resolve (platformManifests ms) p) as [[p' m] [|]]; simpl.
  - destruct H as [Hlast _]. intros _.
    apply last_Some_elem_of in Hlast.
    by apply list_elem_of_filter in Hlast as [_ ?].
  - by destruct H as [-> _].
Qed.

(** ** What a tag publishes *)

Lemma platforms_loop_publishes_nothing {W : Type} `{!Collaborators W}
    (verbose : bool) (registryName imageName imageTag : string) (reg : Registry)
    (skopeoOpts : list skopeo.SkopeoOption) (idx : gmap string ManifestDescriptor)
    (ps : list platform) (acc : bool * ManifestList) (s : state W) :
  Forall (fun ev => is_publish ev = false)
    (trace_of (platforms_loop verbose registryName imageName imageTag reg
                 skopeoOpts idx acc ps s)).
Proof.
  assert (Hs : sound (platforms s) (fun ev => is_publish ev = false)
                 (platforms_loop verbose registryName imageName imageTag reg
                    skopeoOpts idx acc ps)).
  { sound_tac. }
  by destruct (Hs s eq_refl).
Qed.

Ltac not_in_list H :=
  repeat (apply elem_of_cons in H as [H|H]; [discriminate H|]);
  by apply elem_of_nil in H.

Lemma what_a_tag_publishes {W : Type} `{!Collaborators W}
    (verbose : bool) (registryName : string) (reg : Registry)
    (skopeoOpts : list skopeo.SkopeoOption) (imageName imageTag : string)
    (s : state W) (ml : ManifestList) (dst : string)
    (opts : list skopeo.SkopeoOption) (r : string * option error) :
  EvCopyManifest ml dst opts r
    ∈ trace_of (imageTag_body verbose registryName reg skopeoOpts imageName
                  imageTag s) →
  let src := (InspectManifest
                ("docker://" +:+ registryName +:+ "/" +:+ imageName +:+ ":"
                 +:+ imageTag) (world s)).1.1.1 in
  dst = tag_ref (Address reg) imageName imageTag
  ∧ opts = skopeoOpts ++ [skopeo.DisableDestTLSVerify]
  ∧ versioned ml = versioned src
  ∧ Manifests ml
    = filter (fun m => Digest m ≠ "")
        (found (platformManifests (Manifests src)) <$> platforms s)
  ∧ Manifests ml ≠ []
  ∧ Forall (fun m => m ∈ Manifests src) (Manifests ml).
Proof.
  unfold imageTag_body. run_M.
  destruct (InspectManifest _ (world s)) as [[[src out] [e|]] w]; simpl.
  { unfold trace_of. simpl. intros Hin. not_in_list Hin. }
  set (idx := platformManifests (Manifests src)).
  set (acc0 := (false, {| versioned := versioned src; Manifests := [] |})).
  set (s1 := {| world := w; platforms := platforms s |}).
  assert (Hlog : ∃ t1, (if verbose then emit (EvInfo out) else ret ()) s1
                       = (Ok tt, s1, t1)
                       ∧ Forall (fun ev => is_publish ev = false) t1).
  { destruct verbose; eexists; (split; [reflexivity|]); by repeat constructor. }
  destruct Hlog as (t1 & -> & Ht1). cbn [platforms s1].
  pose proof (platforms_loop_run verbose registryName imageName imageTag reg
                skopeoOpts idx (platforms s) acc0 s1) as [_ Hrun].
  pose proof (platforms_loop_digestFound verbose registryName imageName imageTag
                reg skopeoOpts idx (platforms s) acc0 s1) as Hdf.
  pose proof (platforms_loop_publishes_nothing verbose registryName imageName
                imageTag reg skopeoOpts idx (platforms s) acc0 s1) as Hnop.
  unfold result_of, trace_of in *.
  destruct (platforms_loop verbose registryName imageName imageTag reg
              skopeoOpts idx acc0 (platforms s) s1)
    as [[[[df dest]|e] s2] t2]; cbn [fst snd] in *.
  2: { intros Hin. apply elem_of_cons in Hin as [Hin|Hin]; [discriminate Hin|].
       apply elem_of_cons in Hin as [Hin|Hin]; [discriminate Hin|].
       apply elem_of_app in Hin as [Hin|Hin];
         [apply (proj1 (Forall_forall _ _) Ht1) in Hin
         |apply (proj1 (Forall_forall _ _) Hnop) in Hin]; discriminate Hin. }
  destruct (Hrun df dest eq_refl) as (_ & Hver & Hms).
  specialize (Hdf df dest eq_refl). cbn [fst snd acc0 Manifests] in *.
  rewrite app_nil_l in Hms.
  assert (Hfacts : df = true →
            versioned dest = versioned src
            ∧ Manifests dest
              = filter (fun m => Digest m ≠ "") (found idx <$> platforms s)
            ∧ Manifests dest ≠ []
            ∧ Forall (fun m => m ∈ Manifests src) (Manifests dest)).
  { intros ->. split; [done|]. split; [done|]. split.
    - destruct (last (platforms s)) as [p|] eqn:Hlast; [|done].
      apply last_Some_elem_of in Hlast.
      assert (Hin : found idx p ∈ Manifests dest).
      { rewrite Hms. apply list_elem_of_filter. split.
        - unfold digestFound_of in Hdf. symmetry in Hdf.
          apply negb_true_iff, bool_decide_eq_false in Hdf. done.
        - apply list_elem_of_fmap. by exists p. }
      intros Hnil. rewrite Hnil in Hin. by apply elem_of_nil in Hin.
    - rewrite Hms. apply Forall_forall. intros m Hm.
      apply list_elem_of_filter in Hm as [Hd Hm].
      apply list_elem_of_fmap in Hm as (p & -> & _).
      by apply found_in_source. }
  unfold publish. destruct df; run_M.
  - destruct (CopyManifest _ _ _ (world s2)) as [[out2 [e|]] w2];
      [|destruct verbose]; simpl; intros Hin;
      (apply elem_of_cons in Hin as [Hin|Hin]; [discriminate Hin|]);
      (apply elem_of_cons in Hin as [Hin|Hin]; [discriminate Hin|]);
      (apply elem_of_app in Hin as [Hin|Hin];
       [apply (proj1 (Forall_forall _ _) Ht1) in Hin; discriminate Hin|]);
      (apply elem_of_app in Hin as [Hin|Hin];
       [apply (proj1 (Forall_forall _ _) Hnop) in Hin; discriminate Hin|]);
      (apply elem_of_cons in Hin as [Hin|Hin]; [|not_in_list Hin]);
      injection Hin as -> -> -> ->;
      destruct (Hfacts eq_refl) as (? & ? & ? & ?); done.
  - intros Hin.
    apply elem_of_cons in Hin as [Hin|Hin]; [discriminate Hin|].
    apply elem_of_cons in Hin as [Hin|Hin]; [discriminate Hin|].
    apply elem_of_app in Hin as [Hin|Hin];
      [apply (proj1 (Forall_forall _ _) Ht1) in Hin; discriminate Hin|].
    apply elem_of_app in Hin as [Hin|Hin];
      [apply (proj1 (Forall_forall _ _) Hnop) in Hin; discriminate Hin|].
    not_in_list Hin.
Qed.

(** X10: whenever a tag publishes a manifest list, it goes to the tag's
    own reference in the staging registry, carries the header of the
    source list and, in the order of the request, the entries the requested
    platforms resolved to with a non-empty digest; it is never empty and
    holds nothing but entries of the source list. *)
Theorem published_list_mirrors_the_source {W : Type} `{!Collaborators W}
    (verbose : bool) (registryName : string) (reg : Registry)
    (skopeoOpts : list skopeo.SkopeoOption) (imageName imageTag : string)
    (s : state W) (ml : ManifestList) (dst : string)
    (opts : list skopeo.SkopeoOption) (r : string * option error) :
  EvCopyManifest ml dst opts r
    ∈ trace_of (imageTag_body verbose registryName reg skopeoOpts imageName
                  imageTag s) →
  let src := (InspectManifest
                ("docker://" +:+ registryName +:+ "/" +:+ imageName +:+ ":"
                 +:+ imageTag) (world s)).1.1.1 in
  dst = tag_ref (Address reg) imageName imageTag
  ∧ opts = skopeoOpts ++ [skopeo.DisableDestTLSVerify]
  ∧ versioned ml = versioned src
  ∧ Manifests ml
    = filter (fun m => Digest m ≠ "")
        (found (platformManifests (Manifests src)) <$> platforms s)
  ∧ Manifests ml ≠ []
  ∧ Forall (fun m => m ∈ Manifests src) (Manifests ml).
Proof. apply what_a_tag_publishes. Qed.

Lemma published_list_mirrors_the_source_witness :
  let ml := {| versioned := Demo.v2;
               Manifests := [Demo.desc "linux" "arm64" "v8" "sha256:bbb";
                             Demo.desc "linux" "amd64" "" "sha256:aaa"] |} in
  versioned ml = versioned Demo.nginx
  ∧ Manifests ml ≠ []
  ∧ Forall (fun m => m ∈ Manifests Demo.nginx) (Manifests ml).
Proof.
  pose proof (@published_list_mirrors_the_source unit Demo.happy false
                "docker.io" {| Address := "127.0.0.1:5000" |} []
                "library/nginx" "1.25" (Demo.start [Demo.arm64; Demo.amd64])
                {| versioned := Demo.v2;
                   Manifests := [Demo.desc "linux" "arm64" "v8" "sha256:bbb";
                                 Demo.desc "linux" "amd64" "" "sha256:aaa"] |}
                "docker://127.0.0.1:5000/library/nginx:1.25"
                [skopeo.DisableDestTLSVerify] ("published", None)) as H.
  destruct H as (_ & _ & Hv & _ & Hne & Hall).
  - vm_compute. repeat constructor.
  - exact (conj Hv (conj Hne Hall)).
Defined.

(** ** The calls made for one source registry *)

Lemma sound_bind_ok {W A B} (ps : list platform) (P : event → Prop)
    (m : M W A) (k : A → M W B) :
  sound ps P m →
  (∀ a, (∃ s, result_of (m s) = Ok a) → sound ps P (k a)) →
  sound ps P (bind m k).
Proof.
  intros Hm Hk s Hs. specialize (Hm s Hs).
  specialize (fun a H => Hk a (ex_intro _ s H)).
  unfold bind, result_of, trace_of, state_of in *.
  destruct (m s) as [[[a|e] s1] t1]; simpl in *; [|done].
  destruct Hm as [Ht1 Hs1]. specialize (Hk a eq_refl s1 Hs1).
  unfold trace_of, state_of in Hk.
  destruct (k a s1) as [[r s2] t2]; simpl in *.
  destruct Hk as [Ht2 Hs2]. split; [by apply Forall_app | done].
Qed.

Lemma sound_forM_in {W A} (ps : list platform) (P : event → Prop)
    (f : A → M W unit) (l : list A) :
  (∀ x, x ∈ l → sound ps P (f x)) → sound ps P (forM_ f l).
Proof.
  induction l as [|x l IH]; intros Hf; simpl.
  - apply sound_ret.
  - apply sound_bind.
    + apply Hf. by left.
    + intros _. apply IH. intros y Hy. apply Hf. by right.
Qed.

Lemma sound_weaken {W A} (ps : list platform) (P Q : event → Prop) (m : M W A) :
  (∀ ev, P ev → Q ev) → sound ps P m → sound ps Q m.
Proof.
  intros HPQ Hm s Hs. destruct (Hm s Hs) as [Ht Hs']. split; [|done].
  eapply Forall_impl; [exact Ht | exact HPQ].
Qed.

Lemma registry_opts_Ok {W : Type} `{!Collaborators W} (verbose : bool)
    (registryName : string) (registryConfig : RegistrySyncConfig)
    (s : state W) (skopeoOpts : list skopeo.SkopeoOption) :
  result_of (registry_opts verbose registryName registryConfig s) = Ok skopeoOpts →
  skopeoOpts = source_opts verbose registryConfig.
Proof.
  unfold registry_opts, source_opts, login, tls_opts, result_of. run_M.
  destruct (credentials registryConfig) as [c|]; [case_decide|]; simpl;
    try (destruct (AttemptToLoginToRegistry _ _ _) as [[e|] w]; simpl;
         [done|]);
    intros [= <-];
    destruct (TLSVerify registryConfig) as [[|]|], verbose; simpl;
    by rewrite ?app_nil_r.
Qed.

Lemma registry_body_for_registry {W : Type} `{!Collaborators W} (verbose : bool)
    (reg : Registry) (entry : string * RegistrySyncConfig) (ps : list platform) :
  sound ps (for_registry verbose reg entry) (registry_body verbose reg entry).
Proof.
  unfold registry_body. unfold mbind, M_bind.
  apply sound_bind_ok.
  - unfold registry_opts, login. unfold mbind, M_bind, mret, M_ret.
    assert (Hlogin : has_username entry.2 = false →
              sound ps (for_registry verbose reg entry)
                (bind (bind (call (AttemptToLoginToRegistry entry.1 verbose)
                               (EvLogin entry.1 verbose))
                         (fun err => match err with
                                     | Some e =>
                                         fail ("error logging in to registry: " +:+ e)
                                     | None => ret tt
                                     end))
                   (fun _ => ret (tls_opts entry.2)))).
    { intros Hno. repeat sound_step. done. }
    apply sound_bind; [|intros ?; apply sound_ret].
    unfold has_username in Hlogin.
    destruct (credentials entry.2) as [c|]; [case_decide as Hu|].
    + apply Hlogin. by rewrite bool_decide_eq_true_2.
    + apply sound_ret.
    + by apply Hlogin.
  - intros skopeoOpts [s Hs]. apply registry_opts_Ok in Hs as ->.
    apply sound_forM_in. intros image Himage.
    unfold image_body. apply sound_forM_in. intros imageTag HimageTag.
    unfold imageTag_body, publish, platforms_loop, platform_body, logV4.
    unfold mbind, M_bind, mret, M_ret. repeat sound_step.
    + by exists image, imageTag.
    + exists image, imageTag. split; [done|]. split; [done|].
      split; [|by eexists].
      unfold copy_src, copy_dst, digest_ref, tag_ref.
      destruct (digestFound_of _); [right; by eexists | by left].
    + by exists image, imageTag.
Qed.

Lemma registry_opts_trace {W : Type} `{!Collaborators W} (verbose : bool)
    (registryName : string) (registryConfig : RegistrySyncConfig) (s : state W) :
  omap login_of (trace_of (registry_opts verbose registryName registryConfig s))
  = if has_username registryConfig then [] else [(registryName, verbose)].
Proof.
  unfold registry_opts, login, has_username, trace_of. run_M.
  destruct (credentials registryConfig) as [[u0 p0]|]; [case_decide as Hu|];
    simpl in *.
  - rewrite bool_decide_eq_true_2 by done. simpl.
    by destruct (AttemptToLoginToRegistry _ _ _) as [[e|] w].
  - by rewrite bool_decide_eq_false_2.
  - by destruct (AttemptToLoginToRegistry _ _ _) as [[e|] w].
Qed.

(** The run of a loop, iteration by iteration: the iterations that were
    entered, in the order of the list, all of them when the loop returns
    normally. *)
Lemma forM__segments {W A} (f : A → M W unit) (P : A → list event → Prop)
    (l : list A) (s : state W) :
  (∀ x s', P x (trace_of (f x s'))) →
  ∃ segs,
    trace_of (forM_ f l s) = mjoin segs
    ∧ length segs ≤ length l
    ∧ (result_of (forM_ f l s) = Ok tt → length segs = length l)
    ∧ Forall2 P (take (length segs) l) segs.
Proof.
  intros HP. revert s. induction l as [|x l IH]; intros s.
  - exists []. by repeat split.
  - cbn [forM_]. unfold bind, result_of, trace_of in *.
    specialize (HP x s). destruct (f x s) as [[[[]|e] s1] t1]; cbn [fst snd] in *.
    + destruct (IH s1) as (segs & Ht & Hlen & Hok & Hall).
      destruct (forM_ f l s1) as [[r s2] t2]. cbn [fst snd] in *.
      exists (t1 :: segs). split; [by rewrite Ht|].
      split; [simpl; lia|]. split; [intros Hr; simpl; by rewrite Hok|].
      simpl. by constructor.
    + exists [t1]. split; [simpl; by rewrite app_nil_r|].
      split; [simpl; lia|]. split; [done|]. simpl. by repeat constructor.
Qed.

(** ** The run around the loop over the registries *)

Ltac quiet := by repeat constructor.

Lemma bundle_around_the_loop {W : Type} `{!Collaborators W} (verbose : bool)
    (cfg : SourceConfig) (tempDir : string) (reg : Registry)
    (outputFile : string) (s : state W) :
  ∃ s1 pre post,
    trace_of (bundle verbose cfg tempDir reg outputFile s)
      = pre ++ trace_of (forM_ (registry_body verbose reg) cfg s1) ++ post
    ∧ platforms s1 = platforms s
    ∧ Forall (fun ev => is_loop_event ev = false) pre
    ∧ Forall (fun ev => is_loop_event ev = false) post
    ∧ (result_of (bundle verbose cfg tempDir reg outputFile s) = Ok tt →
       result_of (forM_ (registry_body verbose reg) cfg s1) = Ok tt).
Proof.
  unfold bundle, defer. run_M.
  destruct (skopeo_NewRunner (world s)) as [[] w1]. simpl.
  exists {| world := w1; platforms := platforms s |}, [EvNewRunner].
  unfold result_of, trace_of.
  destruct (forM_ (registry_body verbose reg) cfg _) as [[[[]|e] s2] tl]; simpl.
  - destruct (config_WriteSanitizedConfig _ _ (world s2)) as [[e|] w3]; simpl.
    + destruct (skopeoCleanup w3) as [? w4]. simpl. eexists.
      rewrite <- app_assoc. split; [reflexivity|]. repeat split; quiet.
    + destruct (archive_ArchiveDirectory _ _ w3) as [[e|] w4]; simpl;
        destruct (skopeoCleanup w4) as [? w5]; simpl; eexists;
        rewrite <- app_assoc; (split; [reflexivity|]); repeat split; quiet.
  - destruct (skopeoCleanup (world s2)) as [? w3]. simpl. eexists.
    split; [reflexivity|]. repeat split; quiet.
Qed.

Lemma with_registry_around_the_loop {W : Type} `{!Collaborators W}
    (verbose : bool) (cfg : SourceConfig) (tempDir outputFile : string)
    (s : state W) :
  let run := with_registry verbose cfg tempDir outputFile s in
(Forall (fun ev => is_loop_event ev = false) (trace_of run)
   ∧ result_of run ≠ Ok tt)
  ∨ ∃ reg s1 pre post,
      trace_of run
        = pre ++ trace_of (forM_ (registry_body verbose reg) cfg s1) ++ post
      ∧ platforms s1 = platforms s
      ∧ EvNewRegistry tempDir (inl reg) ∈ pre
      ∧ Forall (fun ev => is_loop_event ev = false) pre
      ∧ Forall (fun ev => is_loop_event ev = false) post
      ∧ (result_of run = Ok tt →
         result_of (forM_ (registry_body verbose reg) cfg s1) = Ok tt).
Proof.
  unfold with_registry. run_M.
  destruct (registry_NewRegistry tempDir (world s)) as [[reg|e] w1]; simpl.
  2: { left. unfold result_of, trace_of. simpl. split; [quiet | done]. }
  right. exists reg.
  destruct (bundle_around_the_loop verbose cfg tempDir reg outputFile
              {| world := w1; platforms := platforms s |})
    as (s1 & pre & post & Ht & Hps & Hpre & Hpost & Hok).
  unfold result_of, trace_of in *.
  destruct (bundle verbose cfg tempDir reg outputFile _) as [[r s2] t]. simpl in *.
  subst t.
  exists s1,
    ([EvStart "Starting temporary Docker registry";
      EvNewRegistry tempDir (inl reg); EvGoListenAndServe reg; EvEnd true] ++ pre),
    post.
  split; [done|]. split; [done|]. split.
  { apply elem_of_app. left. apply elem_of_cons. right. by left. }
  split; [|done]. apply Forall_app. split; [quiet | done].
Qed.

Lemma with_tempDir_around_the_loop {W : Type} `{!Collaborators W}
    (verbose : bool) (cfg : SourceConfig) (outputFile : string) (s : state W) :
  let run := with_tempDir verbose cfg outputFile s in
(Forall (fun ev => is_loop_event ev = false) (trace_of run)
   ∧ result_of run ≠ Ok tt)
  ∨ ∃ tempDir reg s1 pre post,
      trace_of run
        = pre ++ trace_of (forM_ (registry_body verbose reg) cfg s1) ++ post
      ∧ platforms s1 = platforms s
      ∧ EvNewRegistry tempDir (inl reg) ∈ pre
      ∧ Forall (fun ev => is_loop_event ev = false) pre
      ∧ Forall (fun ev => is_loop_event ev = false) post
      ∧ (result_of run = Ok tt →
         result_of (forM_ (registry_body verbose reg) cfg s1) = Ok tt).
Proof.
  unfold with_tempDir. run_M.
  destruct (filepath_Abs outputFile (world s)) as [[outputFileAbs|e] w1]; simpl.
  2: { left. unfold result_of, trace_of. simpl. split; [quiet | done]. }
  destruct (os_MkdirTemp _ _ w1) as [[tempDir|e] w2]; simpl.
  2: { left. unfold result_of, trace_of. simpl. split; [quiet | done]. }
  unfold defer.
  pose proof (with_registry_around_the_loop verbose cfg tempDir outputFile
                {| world := w2; platforms := platforms s |}) as Hreg.
  unfold result_of, trace_of in *. simpl in *.
  destruct (with_registry verbose cfg tempDir outputFile _) as [[r s3] t].
  destruct (os_RemoveAll tempDir (world s3)) as [? w4]. simpl in *.
  destruct Hreg as [[Hquiet Herr]|(reg & s1 & pre & post & -> & Hps & Hin & Hpre & Hpost & Hok)].
  - left. split; [|done]. repeat (apply Forall_cons; split; [done|]).
    apply Forall_app. split; [done | quiet].
  - right. exists tempDir, reg, s1.
    eexists (_ :: _ :: _ :: _ :: pre), (post ++ [EvRemoveAll tempDir]).
    split; [by rewrite <- !app_assoc|]. split; [done|]. split.
    { do 4 apply elem_of_cons, or_intror. done. }
    split; [by repeat (apply Forall_cons; split; [done|])|].
    split; [|done]. apply Forall_app. split; [done | quiet].
Qed.

Lemma parsed_run_around_the_loop {W : Type} `{!Collaborators W}
    (verbose : bool) (configFile outputFile : string) (s : state W) :
  let run := bind (parse_config verbose configFile)
               (fun cfg => with_tempDir verbose cfg outputFile) s in
(Forall (fun ev => is_loop_event ev = false) (trace_of run)
   ∧ result_of run ≠ Ok tt)
  ∨ ∃ cfg tempDir reg s1 pre post,
      trace_of run
        = pre ++ trace_of (forM_ (registry_body verbose reg) cfg s1) ++ post
      ∧ platforms s1 = platforms s
      ∧ EvParseFile configFile (inl cfg) ∈ pre
      ∧ EvNewRegistry tempDir (inl reg) ∈ pre
      ∧ Forall (fun ev => is_loop_event ev = false) pre
      ∧ Forall (fun ev => is_loop_event ev = false) post
      ∧ (result_of run = Ok tt →
         result_of (forM_ (registry_body verbose reg) cfg s1) = Ok tt).
Proof.
  unfold bind, parse_config. run_M.
  destruct (config_ParseFile configFile (world s)) as [[cfg|e] w1]; simpl.
  2: { left. unfold result_of, trace_of. simpl. split; [quiet | done]. }
  assert (Hlog : ∃ t1, (if verbose then emit (EvInfoConfig cfg) else ret ())
                         {| world := w1; platforms := platforms s |}
                       = (Ok tt, {| world := w1; platforms := platforms s |}, t1)
                       ∧ Forall (fun ev => is_loop_event ev = false) t1).
  { destruct verbose; eexists; (split; [reflexivity|]); quiet. }
  destruct Hlog as (t1 & -> & Ht1). simpl.
  pose proof (with_tempDir_around_the_loop verbose cfg outputFile
                {| world := w1; platforms := platforms s |}) as Htmp.
  unfold result_of, trace_of in *. simpl in *.
  destruct (with_tempDir verbose cfg outputFile _) as [[r s3] t]. simpl in *.
  set (front := EvStart "Parsing image bundle config"
                :: EvParseFile configFile (inl cfg) :: t1 ++ [EvEnd true]).
  assert (Hfront : Forall (fun ev => is_loop_event ev = false) front).
  { repeat (apply Forall_cons; split; [done|]).
    apply Forall_app. split; [done | quiet]. }
  change (EvStart "Parsing image bundle config"
          :: EvParseFile configFile (inl cfg) :: (t1 ++ [EvEnd true]) ++ t)
    with (front ++ t).
  destruct Htmp as [[Hquiet Herr]|(tempDir & reg & s1 & pre & post & -> & Hps & Hin & Hpre & Hpost & Hok)].
  - left. split; [by apply Forall_app | done].
  - right. exists cfg, tempDir, reg, s1, (front ++ pre), post.
    split; [by rewrite <- (app_assoc front)|]. split; [done|]. split.
    { apply elem_of_app. left. unfold front. apply elem_of_cons. right. by left. }
    split; [apply elem_of_app; by right|].
    split; [by apply Forall_app|]. done.
Qed.

Lemma RunE_around_the_loop {W : Type} `{!Collaborators W}
    (verbose : bool) (configFile outputFile : string) (overwrite : bool)
    (s : state W) (r : outcome unit) (s' : state W) (t : list event) :
  RunE verbose configFile outputFile overwrite s = (r, s', t) →
(Forall (fun ev => is_loop_event ev = false) t ∧ r ≠ Ok tt)
  ∨ ∃ cfg tempDir reg s1 pre post,
      t = pre ++ trace_of (forM_ (registry_body verbose reg) cfg s1) ++ post
      ∧ platforms s1 = platforms s
      ∧ EvParseFile configFile (inl cfg) ∈ pre
      ∧ EvNewRegistry tempDir (inl reg) ∈ pre
      ∧ Forall (fun ev => is_loop_event ev = false) pre
      ∧ Forall (fun ev => is_loop_event ev = false) post
      ∧ (r = Ok tt →
         result_of (forM_ (registry_body verbose reg) cfg s1) = Ok tt).
Proof.
  assert (Hcheck : ∃ r0 s0 t0,
            (if overwrite then ret tt else check_outputFile outputFile) s
              = (r0, s0, t0)
            ∧ platforms s0 = platforms s
            ∧ Forall (fun ev => is_loop_event ev = false) t0).
  { destruct overwrite; [by eexists _, _, _|].
    unfold check_outputFile. run_M.
    destruct (os_Stat outputFile (world s)) as [[| |e] w]; simpl;
      eexists _, _, _; (split; [reflexivity|]); split; try done; quiet. }
  destruct Hcheck as (r0 & s0 & t0 & Hcheck & Hps0 & Ht0).
  unfold RunE.
  change (((if overwrite then mret () else check_outputFile outputFile);;
           cfg ← parse_config verbose configFile;
           with_tempDir verbose cfg outputFile) s)
    with (bind (if overwrite then ret tt else check_outputFile outputFile)
            (fun _ => bind (parse_config verbose configFile)
                        (fun cfg => with_tempDir verbose cfg outputFile)) s).
  unfold bind at 1. rewrite Hcheck.
  destruct r0 as [[]|e]; [|intros [= <- <- <-]; by left].
  pose proof (parsed_run_around_the_loop verbose configFile outputFile s0) as Hrest.
  unfold result_of, trace_of in *. simpl in Hrest.
  destruct (bind (parse_config verbose configFile) _ s0) as [[r1 s2] t2].
  simpl in Hrest. intros [= <- <- <-].
  destruct Hrest as [[Hquiet Herr]|(cfg & tempDir & reg & s1 & pre & post & -> & Hps & Hcfg & Hreg & Hpre & Hpost & Hok)].
  - left. split; [by apply Forall_app | done].
  - right. exists cfg, tempDir, reg, s1, (t0 ++ pre), post.
    split; [by rewrite <- (app_assoc t0)|]. split; [congruence|].
    split; [apply elem_of_app; by right|].
    split; [apply elem_of_app; by right|].
    split; [by apply Forall_app|]. done.
Qed.

(** ** Which images a run touches *)

Section Yields.

Context {W : Type} {B : Type}.
Variables (ps : list platform) (g : event → option B).

Lemma yields_quiet {A} (m : M W A) :
  sound ps (fun ev => g ev = None) m → yields ps g m [].
Proof.
  intros Hm s Hs. destruct (Hm s Hs) as [Ht Hs'].
  rewrite (omap_all_None _ _ Ht). done.
Qed.

Lemma yields_bind {A C} (m : M W A) (k : A → M W C) (o1 o2 : list B) :
  yields ps g m o1 → (∀ a, yields ps g (k a) o2) →
  yields ps g (bind m k) (o1 ++ o2).
Proof.
  intros Hm Hk s Hs. destruct (Hm s Hs) as (Hs1 & Hpre1 & Hok1).
  unfold bind, result_of, trace_of, state_of in *.
  destruct (m s) as [[[a|e] s1] t1]; simpl in *.
  - destruct (Hk a s1 Hs1) as (Hs2 & Hpre2 & Hok2).
    unfold result_of, trace_of, state_of in *.
    destruct (k a s1) as [[r s2] t2]; simpl in *.
    rewrite omap_app, (Hok1 a eq_refl). split; [done|].
    split; [by apply prefix_app|]. intros c Hr. by rewrite (Hok2 c Hr).
  - split; [done|]. split; [by apply prefix_app_r | done].
Qed.

Lemma yields_forM_ {A} (f : A → M W unit) (h : A → list B) (l : list A) :
  (∀ x, yields ps g (f x) (h x)) → yields ps g (forM_ f l) (l ≫= h).
Proof.
  intros Hf. induction l as [|x l IH]; simpl.
  - intros s Hs. done.
  - apply yields_bind; [apply Hf | by intros _].
Qed.

End Yields.

Lemma imageTag_body_keeps_platforms {W : Type} `{!Collaborators W}
    (verbose : bool) (registryName : string) (reg : Registry)
    (skopeoOpts : list skopeo.SkopeoOption) (imageName imageTag : string)
    (s : state W) :
  platforms (state_of (imageTag_body verbose registryName reg skopeoOpts
                         imageName imageTag s)) = platforms s.
Proof.
  assert (Hs : sound (platforms s) (fun _ => True)
                 (imageTag_body verbose registryName reg skopeoOpts imageName
                    imageTag)) by sound_tac.
  by destruct (Hs s eq_refl).
Qed.

Lemma platforms_loop_inspects_nothing {W : Type} `{!Collaborators W}
    (verbose : bool) (registryName imageName imageTag : string) (reg : Registry)
    (skopeoOpts : list skopeo.SkopeoOption) (idx : gmap string ManifestDescriptor)
    (ps : list platform) (acc : bool * ManifestList) (s : state W) :
  Forall (fun ev => inspect_ref ev = None)
    (trace_of (platforms_loop verbose registryName imageName imageTag reg
                 skopeoOpts idx acc ps s)).
Proof.
  assert (Hs : sound (platforms s) (fun ev => inspect_ref ev = None)
                 (platforms_loop verbose registryName imageName imageTag reg
                    skopeoOpts idx acc ps)) by sound_tac.
  by destruct (Hs s eq_refl).
Qed.

Lemma copy_mark_requests (t : list event) :
  omap copy_mark t = (fun _ => tt) <$> copy_requests t.
Proof.
  induction t as [|ev t IH]; [done|].
  change (copy_requests (ev :: t))
    with (from_option (fun x => x :: copy_requests t) (copy_requests t)
            (copy_request ev)).
  change (omap copy_mark (ev :: t))
    with (from_option (fun x => x :: omap copy_mark t) (omap copy_mark t)
            (copy_mark ev)).
  destruct ev; simpl; by rewrite IH.
Qed.

Lemma fmap_tt_replicate {A} (l : list A) :
  (fun _ => tt) <$> l = replicate (length l) tt.
Proof. induction l as [|x l IH]; [done|]. by rewrite fmap_cons, IH. Qed.

Lemma prefix_fmap_tt {A} (l1 l2 : list A) :
  l1 `prefix_of` l2 →
  ((fun _ => tt) <$> l1) `prefix_of` replicate (length l2) tt.
Proof.
  intros [k ->]. rewrite <- fmap_tt_replicate, fmap_app. by apply prefix_app_r.
Qed.

Ltac norm_omap :=
  unfold inspected in *;
  rewrite ?omap_cons_eq, ?omap_app, ?omap_cons_eq;
  cbn [from_option inspect_ref copy_mark].

Lemma imageTag_body_calls {W : Type} `{!Collaborators W}
    (verbose : bool) (registryName : string) (reg : Registry)
    (skopeoOpts : list skopeo.SkopeoOption) (imageName imageTag : string)
    (s : state W) :
  let run := imageTag_body verbose registryName reg skopeoOpts imageName
               imageTag s in
  inspected (trace_of run)
    = ["docker://" +:+ registryName +:+ "/" +:+ imageName +:+ ":" +:+ imageTag]
  ∧ omap copy_mark (trace_of run) `prefix_of` replicate (length (platforms s)) tt
  ∧ (result_of run = Ok tt →
     omap copy_mark (trace_of run) = replicate (length (platforms s)) tt).
Proof.
  unfold imageTag_body. run_M.
  destruct (InspectManifest _ (world s)) as [[[src out] [e|]] w]; simpl.
  { unfold result_of, trace_of. simpl. split; [done|]. split; [|done].
    apply prefix_nil. }
  set (idx := platformManifests (Manifests src)).
  set (acc0 := (false, {| versioned := versioned src; Manifests := [] |})).
  set (s1 := {| world := w; platforms := platforms s |}).
  assert (Hlog : ∃ t1, (if verbose then emit (EvInfo out) else ret ()) s1
                       = (Ok tt, s1, t1)
                       ∧ inspected t1 = [] ∧ omap copy_mark t1 = []).
  { destruct verbose; eexists; (split; [reflexivity|]); done. }
  destruct Hlog as (t1 & -> & Hi1 & Hc1). cbn [platforms s1].
  pose proof (platforms_loop_run verbose registryName imageName imageTag reg
                skopeoOpts idx (platforms s) acc0 s1) as [Hpre Hrun].
  pose proof (platforms_loop_inspects_nothing verbose registryName imageName
                imageTag reg skopeoOpts idx (platforms s) acc0 s1) as Hnoi.
  apply omap_all_None in Hnoi.
  unfold result_of, trace_of in *.
  destruct (platforms_loop verbose registryName imageName imageTag reg
              skopeoOpts idx acc0 (platforms s) s1)
    as [[[[df dest]|e] s2] t2]; cbn [fst snd] in *.
  2: { norm_omap. rewrite Hi1, Hnoi, Hc1.
       split; [done|]. split; [|done]. simpl.
       rewrite copy_mark_requests.
       apply prefix_fmap_tt in Hpre. by rewrite length_fmap in Hpre. }
  destruct (Hrun df dest eq_refl) as (Hcopies & _ & _).
  assert (Hloop : omap copy_mark t2 = replicate (length (platforms s)) tt).
  { by rewrite copy_mark_requests, Hcopies, fmap_tt_replicate, length_fmap. }
  assert (Hpub : ∃ r3 s3 t3,
            publish verbose imageName imageTag reg skopeoOpts df dest s2
              = (r3, s3, t3)
            ∧ inspected t3 = [] ∧ omap copy_mark t3 = []).
  { unfold publish. destruct df; run_M; [|by eexists _, _, _].
    destruct (CopyManifest _ _ _ (world s2)) as [[out2 [e|]] w2];
      [|destruct verbose]; simpl; by eexists _, _, _. }
  destruct Hpub as (r3 & s3 & t3 & -> & Hi3 & Hc3).
  destruct r3 as [[]|e]; cbn [fst snd]; norm_omap; norm_omap;
    rewrite ?Hi1, ?Hnoi, ?Hc1, ?Hloop, ?Hi3, ?Hc3, ?app_nil_r; simpl;
    rewrite ?app_nil_r; done.
Qed.

Lemma registry_opts_quiet {W : Type} `{!Collaborators W} {B : Type}
    (g : event → option B) (verbose : bool) (registryName : string)
    (registryConfig : RegistrySyncConfig) (ps : list platform) :
  (∀ name debug r, g (EvLogin name debug r) = None) →
  yields ps g (registry_opts verbose registryName registryConfig) [].
Proof.
  intros Hg. apply yields_quiet.
  unfold registry_opts, login. unfold mbind, M_bind, mret, M_ret.
  repeat sound_step; apply Hg.
Qed.

Lemma registries_loop_inspects {W : Type} `{!Collaborators W}
    (verbose : bool) (reg : Registry) (cfg : SourceConfig) (ps : list platform) :
  yields ps inspect_ref (forM_ (registry_body verbose reg) cfg) (inspect_refs cfg).
Proof.
  unfold inspect_refs. apply yields_forM_. intros entry.
  unfold registry_body. unfold mbind at 1, M_bind.
  apply (yields_bind ps inspect_ref _ _ []); [by apply registry_opts_quiet|].
  intros skopeoOpts. apply yields_forM_. intros image.
  unfold image_body. apply yields_forM_. intros imageTag s Hs.
  destruct (imageTag_body_calls verbose entry.1 reg skopeoOpts image.1 imageTag s)
    as (Hi & _ & _).
  rewrite imageTag_body_keeps_platforms. fold (inspected) in *.
  unfold inspected in Hi. rewrite Hi. done.
Qed.

Lemma registries_loop_copies {W : Type} `{!Collaborators W}
    (verbose : bool) (reg : Registry) (cfg : SourceConfig) (ps : list platform) :
  yields ps copy_mark (forM_ (registry_body verbose reg) cfg)
    (entry ← cfg; image ← Images entry.2; _ ← image.2;
     replicate (length ps) tt).
Proof.
  apply yields_forM_. intros entry.
  unfold registry_body. unfold mbind at 1, M_bind.
  apply (yields_bind ps copy_mark _ _ []); [by apply registry_opts_quiet|].
  intros skopeoOpts. apply yields_forM_. intros image.
  unfold image_body. apply yields_forM_. intros imageTag s Hs.
  destruct (imageTag_body_calls verbose entry.1 reg skopeoOpts image.1 imageTag s)
    as (_ & Hpre & Hok).
  rewrite imageTag_body_keeps_platforms. rewrite Hs in *.
  split; [done|]. split; [done|]. by intros [].
Qed.

Lemma length_bind_times {A B C} (f : A → list B) (h : A → list C) (n : nat)
    (l : list A) :
  (∀ x, length (f x) = length (h x) * n) →
  length (l ≫= f) = length (l ≫= h) * n.
Proof.
  intros Hf. induction l as [|x l IH]; [done|].
  rewrite !bind_cons, !length_app, Hf, IH. lia.
Qed.

Lemma copies_of_a_configuration (cfg : SourceConfig) (n : nat) :
  length (entry ← cfg; image ← Images entry.2; _ ← image.2; replicate n tt)
  = length (inspect_refs cfg) * n.
Proof.
  unfold inspect_refs.
  apply length_bind_times. intros entry.
  apply length_bind_times. intros image.
  apply length_bind_times. intros imageTag.
  rewrite length_replicate. simpl. lia.
Qed.

Lemma quiet_inspected (t : list event) :
  Forall (fun ev => is_loop_event ev = false) t →
  inspected t = [] ∧ copy_requests t = [].
Proof.
  intros Ht. split; apply omap_all_None;
    (eapply Forall_impl; [exact Ht|]); by intros [].
Qed.

(** ** Every tag, every platform *)

Lemma zip_with_app_short {A B C} (f : A → B → C) (l1 l2 : list A) (k : list B) :
  length k ≤ length l1 → zip_with f (l1 ++ l2) k = zip_with f l1 k.
Proof.
  revert k. induction l1 as [|x l1 IH]; intros [|y k] Hlen; simpl in *;
    try done; try lia.
  - by destruct l2.
  - f_equal. apply IH. lia.
Qed.

Ltac norm_plan :=
  unfold inspected_lists, copy_requests, warnings in *;
  rewrite ?omap_cons_eq, ?omap_app, ?omap_cons_eq;
  cbn [from_option inspected_list copy_request warning].

Section Plans.

Context {W T B : Type}.
Variables (ps : list platform) (g : event → option B)
  (h : T → ManifestList → list B).

Lemma plans_quiet {A} (m : M W A) :
  sound ps (fun ev => inspected_list ev = None ∧ g ev = None) m →
  plans ps g h m [].
Proof.
  intros Hm s Hs. destruct (Hm s Hs) as [Ht Hs'].
  assert (Hi : inspected_lists (trace_of (m s)) = []).
  { apply omap_all_None. eapply Forall_impl; [exact Ht|]. by intros ev [? ?]. }
  assert (Hc : omap g (trace_of (m s)) = []).
  { apply omap_all_None. eapply Forall_impl; [exact Ht|]. by intros ev [? ?]. }
  rewrite Hi, Hc. done.
Qed.

Lemma plans_bind_ok {A C} (m : M W A) (k : A → M W C) (items1 items2 : list T) :
  plans ps g h m items1 →
  (∀ a, (∃ s, result_of (m s) = Ok a) → plans ps g h (k a) items2) →
  plans ps g h (bind m k) (items1 ++ items2).
Proof.
  intros Hm Hk s Hs. destruct (Hm s Hs) as (Hs1 & Hlen1 & Hpre1 & Hok1).
  specialize (fun a H => Hk a (ex_intro _ s H)).
  unfold bind, result_of, trace_of, state_of in *.
  destruct (m s) as [[[a|e] s1] t1]; cbn [fst snd] in *.
  - destruct (Hok1 a eq_refl) as [Hl1 Hq1].
    destruct (Hk a eq_refl s1 Hs1) as (Hs2 & Hlen2 & Hpre2 & Hok2).
    unfold result_of, trace_of, state_of in *.
    destruct (k a s1) as [[r s2] t2]; cbn [fst snd] in *.
    assert (Hi : inspected_lists (t1 ++ t2)
                 = inspected_lists t1 ++ inspected_lists t2)
      by apply omap_app.
    rewrite Hi, omap_app, zip_with_app, join_app, <- Hq1 by done.
    rewrite !length_app. split; [done|]. split; [lia|].
    split; [by apply prefix_app|].
    intros b Hr. destruct (Hok2 b Hr) as [Hl2 Hq2]. split; [lia|]. by rewrite Hq2.
  - rewrite zip_with_app_short by done. rewrite length_app.
    split; [done|]. split; [lia|]. done.
Qed.

Lemma plans_forM_ {A} (f : A → M W unit) (items : A → list T) (l : list A) :
  (∀ x, plans ps g h (f x) (items x)) → plans ps g h (forM_ f l) (l ≫= items).
Proof.
  intros Hf. induction l as [|x l IH]; cbn [forM_].
  - intros s Hs. done.
  - rewrite bind_cons. apply plans_bind_ok; [apply Hf | by intros _ _].
Qed.

End Plans.

Lemma platforms_loop_no_lists {W : Type} `{!Collaborators W}
    (verbose : bool) (registryName imageName imageTag : string) (reg : Registry)
    (skopeoOpts : list skopeo.SkopeoOption) (idx : gmap string ManifestDescriptor)
    (ps : list platform) (acc : bool * ManifestList) (s : state W) :
  inspected_lists
    (trace_of (platforms_loop verbose registryName imageName imageTag reg
                 skopeoOpts idx acc ps s)) = [].
Proof.
  assert (Hs : sound (platforms s) (fun ev => inspected_list ev = None)
                 (platforms_loop verbose registryName imageName imageTag reg
                    skopeoOpts idx acc ps)) by sound_tac.
  apply omap_all_None. by destruct (Hs s eq_refl).
Qed.

Lemma warnings_after_copy (verbose : bool) (out : string) (err : option error) :
  warnings (after_copy verbose out err) = [].
Proof. destruct err; simpl; [done | by destruct verbose]. Qed.

(** The loop warns about the platforms it does not find, and about no
    other. *)
Lemma platforms_loop_warnings {W : Type} `{!Collaborators W}
    (verbose : bool) (registryName imageName imageTag : string) (reg : Registry)
    (skopeoOpts : list skopeo.SkopeoOption) (idx : gmap string ManifestDescriptor)
    (ps : list platform) (acc : bool * ManifestList) (s : state W) :
  let run := platforms_loop verbose registryName imageName imageTag reg
               skopeoOpts idx acc ps s in
  let expected :=
    p ← ps;
    if (resolve idx p).2 then []
    else [((resolve idx p).1.1,
           registryName +:+ "/" +:+ imageName +:+ ":" +:+ imageTag)] in
  warnings (trace_of run) `prefix_of` expected
  ∧ ∀ acc1, result_of run = Ok acc1 → warnings (trace_of run) = expected.
Proof.
  unfold platforms_loop. revert acc s.
  induction ps as [|p ps IH]; intros acc s; cbn [foldM].
  - unfold ret, result_of, trace_of. simpl. done.
  - unfold bind. rewrite platform_body_run. rewrite bind_cons.
    assert (Hhere : ∀ r t,
              warnings
                (((if (resolve idx p).2 then []
                   else [EvWarning (resolve idx p).1.1
                           (registryName +:+ "/" +:+ imageName +:+ ":" +:+ imageTag)])
                  ++ [EvCopy (copy_src registryName imageName imageTag (resolve idx p).1.2)
                        (copy_dst (Address reg) imageName imageTag (resolve idx p).1.2)
                        (copy_opts skopeoOpts (resolve idx p).1.1) r]
                  ++ after_copy verbose r.1 r.2) ++ t)
              = (if (resolve idx p).2 then []
                 else [((resolve idx p).1.1,
                        registryName +:+ "/" +:+ imageName +:+ ":" +:+ imageTag)])
                ++ warnings t).
    { intros [out err] t. unfold warnings. rewrite !omap_app.
      fold (warnings (after_copy verbose out err)).
      rewrite warnings_after_copy.
      by destruct (resolve idx p).2. }
    destruct (Copy _ _ _ (world s)) as [[out [e|]] w]; cbn [fst snd].
    + unfold result_of, trace_of. cbn [fst snd].
      pose proof (Hhere (out, Some e) []) as Hw. rewrite app_nil_r in Hw.
      cbn [fst snd] in Hw. rewrite Hw. split; [|done].
      rewrite app_nil_r. by apply prefix_app_r.
    + match goal with
      | |- context [foldM ?f ?b ps ?s1] =>
          specialize (IH b s1); destruct (foldM f b ps s1) as [[r s2] t2]
      end.
      unfold result_of, trace_of in *. cbn [fst snd] in *.
      pose proof (Hhere (out, None) t2) as Hw. cbn [fst snd] in Hw.
      rewrite Hw. destruct IH as [IHpre IHok].
      split; [by apply prefix_app|].
      intros acc1 Hr. by rewrite (IHok acc1 Hr).
Qed.

(** One tag: one inspection, then the copy requests of the requested
    platforms against the index of the list it returned, with a warning
    for each platform that the index does not hold. *)
Lemma imageTag_body_plan {W : Type} `{!Collaborators W}
    (verbose : bool) (registryName : string) (reg : Registry)
    (skopeoOpts : list skopeo.SkopeoOption) (imageName imageTag : string)
    (s : state W) :
  let run := imageTag_body verbose registryName reg skopeoOpts imageName
               imageTag s in
  ∃ ml,
    let idx := platformManifests (Manifests ml) in
    let copies := planned registryName imageName imageTag reg skopeoOpts idx
                    <$> platforms s in
    let warns :=
      p ← platforms s;
      if (resolve idx p).2 then []
      else [((resolve idx p).1.1,
             registryName +:+ "/" +:+ imageName +:+ ":" +:+ imageTag)] in
    inspected_lists (trace_of run) = [ml]
    ∧ copy_requests (trace_of run) `prefix_of` copies
    ∧ warnings (trace_of run) `prefix_of` warns
    ∧ (result_of run = Ok tt →
       copy_requests (trace_of run) = copies ∧ warnings (trace_of run) = warns).
Proof.
  unfold imageTag_body. run_M.
  destruct (InspectManifest _ (world s)) as [[[src out] [e|]] w]; simpl.
  { exists src. unfold result_of, trace_of. simpl. split; [done|].
    split; [apply prefix_nil|]. split; [apply prefix_nil | done]. }
  exists src.
  set (idx := platformManifests (Manifests src)).
  set (acc0 := (false, {| versioned := versioned src; Manifests := [] |})).
  set (s1 := {| world := w; platforms := platforms s |}).
  assert (Hlog : ∃ t1, (if verbose then emit (EvInfo out) else ret ()) s1
                       = (Ok tt, s1, t1)
                       ∧ inspected_lists t1 = [] ∧ copy_requests t1 = []
                       ∧ warnings t1 = []).
  { destruct verbose; eexists; (split; [reflexivity|]); done. }
  destruct Hlog as (t1 & -> & Hi1 & Hc1 & Hw1). cbn [platforms s1].
  pose proof (platforms_loop_run verbose registryName imageName imageTag reg
                skopeoOpts idx (platforms s) acc0 s1) as [Hpre Hrun].
  pose proof (platforms_loop_warnings verbose registryName imageName imageTag reg
                skopeoOpts idx (platforms s) acc0 s1) as [Hwpre Hwrun].
  pose proof (platforms_loop_no_lists verbose registryName imageName
                imageTag reg skopeoOpts idx (platforms s) acc0 s1) as Hnoi.
  unfold result_of, trace_of in *.
  destruct (platforms_loop verbose registryName imageName imageTag reg
              skopeoOpts idx acc0 (platforms s) s1)
    as [[[[df dest]|e] s2] t2]; cbn [fst snd] in *.
  2: { norm_plan. rewrite Hi1, Hnoi, Hc1, Hw1. done. }
  destruct (Hrun df dest eq_refl) as (Hcopies & _ & _).
  specialize (Hwrun _ eq_refl).
  assert (Hpub : ∃ r3 s3 t3,
            publish verbose imageName imageTag reg skopeoOpts df dest s2
              = (r3, s3, t3)
            ∧ inspected_lists t3 = [] ∧ copy_requests t3 = []
            ∧ warnings t3 = []).
  { unfold publish. destruct df; run_M; [|by eexists _, _, _].
    destruct (CopyManifest _ _ _ (world s2)) as [[out2 [e|]] w2];
      [|destruct verbose]; simpl; by eexists _, _, _. }
  destruct Hpub as (r3 & s3 & t3 & -> & Hi3 & Hc3 & Hw3).
  destruct r3 as [[]|e]; cbn [fst snd]; norm_plan; norm_plan;
    rewrite ?Hi1, ?Hnoi, ?Hc1, ?Hw1, ?Hcopies, ?Hwrun, ?Hi3, ?Hc3, ?Hw3,
      ?app_nil_r; simpl;
    rewrite ?app_nil_r; done.
Qed.

Lemma registries_loop_plans {W : Type} `{!Collaborators W}
    (verbose : bool) (reg : Registry) (cfg : SourceConfig) (ps : list platform) :
  plans ps copy_request (tag_copies verbose reg ps)
    (forM_ (registry_body verbose reg) cfg) (tags_of cfg)
  ∧ plans ps warning (tag_warnings ps)
      (forM_ (registry_body verbose reg) cfg) (tags_of cfg).
Proof.
  unfold tags_of. split.
  - apply plans_forM_. intros entry.
    unfold registry_body. unfold mbind at 1, M_bind.
    apply (plans_bind_ok ps _ _ _ _ []).
    { apply plans_quiet. unfold registry_opts, login.
      unfold mbind, M_bind, mret, M_ret. repeat sound_step; done. }
    intros skopeoOpts [s0 Hopts]. apply registry_opts_Ok in Hopts as ->.
    apply plans_forM_. intros image.
    unfold image_body. apply plans_forM_. intros imageTag s Hs.
    destruct (imageTag_body_plan verbose entry.1 reg (source_opts verbose entry.2)
                image.1 imageTag s) as (ml & Hi & Hpre & _ & Hok).
    rewrite imageTag_body_keeps_platforms. rewrite Hi, Hs in *.
    cbn [zip_with mjoin list_join length]. rewrite app_nil_r.
    split; [done|]. split; [done|]. split; [done|].
    intros [] Hr. split; [done|]. by apply Hok.
  - apply plans_forM_. intros entry.
    unfold registry_body. unfold mbind at 1, M_bind.
    apply (plans_bind_ok ps _ _ _ _ []).
    { apply plans_quiet. unfold registry_opts, login.
      unfold mbind, M_bind, mret, M_ret. repeat sound_step; done. }
    intros skopeoOpts _.
    apply plans_forM_. intros image.
    unfold image_body. apply plans_forM_. intros imageTag s Hs.
    destruct (imageTag_body_plan verbose entry.1 reg skopeoOpts
                image.1 imageTag s) as (ml & Hi & _ & Hpre & Hok).
    rewrite imageTag_body_keeps_platforms. rewrite Hi, Hs in *.
    cbn [zip_with mjoin list_join length]. rewrite app_nil_r.
    split; [done|]. split; [done|]. split; [done|].
    intros [] Hr. split; [done|]. by apply Hok.
Qed.

Lemma quiet_lists (t : list event) :
  Forall (fun ev => is_loop_event ev = false) t →
  inspected_lists t = [] ∧ warnings t = [].
Proof.
  intros Ht. split; apply omap_all_None;
    (eapply Forall_impl; [exact Ht|]); by intros [].
Qed.

(** The copy requests of a run: for each tag of the parsed configuration,
    in the order of the loops, and each requested platform, in the order
    of the request, the copy of that platform of that tag; and a warning
    for each of them that the tag does not offer. *)
Lemma RunE_plan {W : Type} `{!Collaborators W}
    (verbose : bool) (configFile outputFile : string) (overwrite : bool)
    (s : state W) (r : outcome unit) (s' : state W) (t : list event) :
  RunE verbose configFile outputFile overwrite s = (r, s', t) →
  (copy_requests t = [] ∧ inspected t = [] ∧ warnings t = [] ∧ r ≠ Ok tt)
  ∨ ∃ cfg tempDir reg,
      EvParseFile configFile (inl cfg) ∈ t
      ∧ EvNewRegistry tempDir (inl reg) ∈ t
      ∧ inspected t `prefix_of` inspect_refs cfg
      ∧ length (inspected_lists t) ≤ length (tags_of cfg)
      ∧ copy_requests t
          `prefix_of` mjoin (zip_with (tag_copies verbose reg (platforms s))
                               (tags_of cfg) (inspected_lists t))
      ∧ warnings t
          `prefix_of` mjoin (zip_with (tag_warnings (platforms s))
                               (tags_of cfg) (inspected_lists t))
      ∧ (r = Ok tt →
         inspected t = inspect_refs cfg
         ∧ length (inspected_lists t) = length (tags_of cfg)
         ∧ copy_requests t
           = mjoin (zip_with (tag_copies verbose reg (platforms s))
                      (tags_of cfg) (inspected_lists t))
         ∧ warnings t
           = mjoin (zip_with (tag_warnings (platforms s))
                      (tags_of cfg) (inspected_lists t))
         ∧ length (copy_requests t)
           = length (inspect_refs cfg) * length (platforms s)).
Proof.
  intros Hrun.
  destruct (RunE_around_the_loop verbose configFile outputFile overwrite s r s' t
              Hrun)
    as [[Hquiet Herr]|(cfg & tempDir & reg & s1 & pre & post & -> & Hps & Hcfg
                       & Hreg & Hpre & Hpost & Hok)].
  { left. destruct (quiet_inspected t Hquiet), (quiet_lists t Hquiet). done. }
  right. exists cfg, tempDir, reg.
  split; [apply elem_of_app; by left|]. split; [apply elem_of_app; by left|].
  destruct (quiet_inspected pre Hpre) as [Hi1 Hc1].
  destruct (quiet_inspected post Hpost) as [Hi3 Hc3].
  destruct (quiet_lists pre Hpre) as [Hl1 Hw1].
  destruct (quiet_lists post Hpost) as [Hl3 Hw3].
  destruct (registries_loop_inspects verbose reg cfg (platforms s) s1 Hps)
    as (_ & Hi2 & Hi2ok).
  destruct (registries_loop_plans verbose reg cfg (platforms s)) as [Hcp Hwp].
  destruct (Hcp s1 Hps) as (_ & Hlen & Hplan & Hplanok).
  destruct (Hwp s1 Hps) as (_ & _ & Hwarn & Hwarnok).
  fold (copy_requests (trace_of (forM_ (registry_body verbose reg) cfg s1)))
    in Hplan, Hplanok.
  fold (warnings (trace_of (forM_ (registry_body verbose reg) cfg s1)))
    in Hwarn, Hwarnok.
  assert (Hi : inspected (pre ++ trace_of (forM_ (registry_body verbose reg) cfg s1)
                          ++ post)
               = omap inspect_ref (trace_of (forM_ (registry_body verbose reg) cfg s1))).
  { unfold inspected in *. by rewrite !omap_app, Hi1, Hi3, app_nil_r. }
  assert (Hl : inspected_lists
                 (pre ++ trace_of (forM_ (registry_body verbose reg) cfg s1) ++ post)
               = inspected_lists (trace_of (forM_ (registry_body verbose reg) cfg s1))).
  { unfold inspected_lists in *. by rewrite !omap_app, Hl1, Hl3, app_nil_r. }
  assert (Hc : copy_requests
                 (pre ++ trace_of (forM_ (registry_body verbose reg) cfg s1) ++ post)
               = copy_requests (trace_of (forM_ (registry_body verbose reg) cfg s1))).
  { unfold copy_requests in *. by rewrite !omap_app, Hc1, Hc3, app_nil_r. }
  assert (Hw : warnings
                 (pre ++ trace_of (forM_ (registry_body verbose reg) cfg s1) ++ post)
               = warnings (trace_of (forM_ (registry_body verbose reg) cfg s1))).
  { unfold warnings in *. by rewrite !omap_app, Hw1, Hw3, app_nil_r. }
  rewrite Hi, Hl, Hc, Hw.
  split; [done|]. split; [done|]. split; [done|]. split; [done|].
  intros Hr. specialize (Hok Hr).
  destruct (Hplanok tt Hok) as [Hlen' Hplan'].
  destruct (Hwarnok tt Hok) as [_ Hwarn'].
  rewrite (Hi2ok tt Hok).
  split; [done|]. split; [done|]. split; [done|]. split; [done|].
  destruct (registries_loop_copies verbose reg cfg (platforms s) s1 Hps)
    as (_ & _ & Hc2).
  specialize (Hc2 tt Hok).
  rewrite <- copies_of_a_configuration, <- Hc2, copy_mark_requests.
  by rewrite length_fmap.
Qed.


(** X12: a run that returns nil has inspected every tag of every image of
    every registry of the parsed configuration exactly once, in the order
    of the three loops, and has issued exactly one copy per tag and
    requested platform: its copy requests are, tag after tag and for each
    tag platform after platform in the order of the request, the copy of
    that platform of that tag, from the tag's own registry with that
    registry's options, against the manifest list that the inspection of
    the tag returned. *)
Theorem every_configured_tag_is_inspected_and_copied
    {W : Type} `{!Collaborators W}
    (verbose : bool) (configFile outputFile : string) (overwrite : bool)
    (s : state W) :
  result_of (RunE verbose configFile outputFile overwrite s) = Ok tt →
  ∃ cfg tempDir reg,
    EvParseFile configFile (inl cfg)
      ∈ trace_of (RunE verbose configFile outputFile overwrite s)
    ∧ EvNewRegistry tempDir (inl reg)
      ∈ trace_of (RunE verbose configFile outputFile overwrite s)
    ∧ inspected (trace_of (RunE verbose configFile outputFile overwrite s))
      = inspect_refs cfg
    ∧ length (inspected_lists
                (trace_of (RunE verbose configFile outputFile overwrite s)))
      = length (tags_of cfg)
    ∧ copy_requests (trace_of (RunE verbose configFile outputFile overwrite s))
      = mjoin (zip_with
                 (fun tag ml =>
                    planned tag.1.1.1 tag.1.2 tag.2 reg
                      (source_opts verbose tag.1.1.2)
                      (platformManifests (Manifests ml)) <$> platforms s)
                 (tags_of cfg)
                 (inspected_lists
                    (trace_of (RunE verbose configFile outputFile overwrite s))))
    ∧ length (copy_requests
                (trace_of (RunE verbose configFile outputFile overwrite s)))
      = length (inspect_refs cfg) * length (platforms s).
Proof.
  unfold result_of, trace_of.
  destruct (RunE verbose configFile outputFile overwrite s) as [[r s'] t] eqn:Hrun.
  cbn [fst snd]. intros ->.
  destruct (RunE_plan verbose configFile outputFile overwrite s _ s' t Hrun)
    as [(_ & _ & _ & Herr)|(cfg & tempDir & reg & Hcfg & Hreg & _ & _ & _ & _
                            & Hok)]; [done|].
  destruct (Hok eq_refl) as (Hi & Hl & Hc & _ & Hn).
  by exists cfg, tempDir, reg.
Qed.

Lemma every_configured_tag_is_inspected_and_copied_witness :
  let run := @RunE unit Demo.two_tags false "images.yaml" "images.tar" false
               (Demo.start [Demo.amd64; Demo.arm64]) in
  ∃ cfg tempDir reg,
    EvParseFile "images.yaml" (inl cfg) ∈ trace_of run
    ∧ EvNewRegistry tempDir (inl reg) ∈ trace_of run
    ∧ inspected (trace_of run) = inspect_refs cfg
    ∧ length (inspected_lists (trace_of run)) = length (tags_of cfg)
    ∧ copy_requests (trace_of run)
      = mjoin (zip_with
                 (fun tag ml =>
                    planned tag.1.1.1 tag.1.2 tag.2 reg
                      (source_opts false tag.1.1.2)
                      (platformManifests (Manifests ml))
                      <$> [Demo.amd64; Demo.arm64])
                 (tags_of cfg) (inspected_lists (trace_of run)))
    ∧ length (copy_requests (trace_of run)) = length (inspect_refs cfg) * 2.
Proof.
  apply (@every_configured_tag_is_inspected_and_copied unit Demo.two_tags false
           "images.yaml" "images.tar" false (Demo.start [Demo.amd64; Demo.arm64])).
  vm_compute. reflexivity.
Defined.

(** The copies of the two tags of the example, platform by platform: the
    second tag is looked up for the platforms as requested, whatever the
    lookups of the first tag made of them. *)
Example copies_of_two_tags :
  copy_requests
    (trace_of (@RunE unit Demo.two_tags false "images.yaml" "images.tar" false
                 (Demo.start [Demo.amd64; Demo.arm64])))
  = [("docker://docker.io/library/nginx@sha256:aaa",
      "docker://127.0.0.1:5000/library/nginx@sha256:aaa",
      [skopeo.DisableDestTLSVerify; skopeo.OS "linux"; skopeo.Arch "amd64";
       skopeo.Variant ""]);
     ("docker://docker.io/library/nginx@sha256:bbb",
      "docker://127.0.0.1:5000/library/nginx@sha256:bbb",
      [skopeo.DisableDestTLSVerify; skopeo.OS "linux"; skopeo.Arch "arm64";
       skopeo.Variant "v8"]);
     ("docker://docker.io/library/nginx@sha256:ccc",
      "docker://127.0.0.1:5000/library/nginx@sha256:ccc",
      [skopeo.DisableDestTLSVerify; skopeo.OS "linux"; skopeo.Arch "amd64";
       skopeo.Variant ""]);
     ("docker://docker.io/library/nginx@sha256:ddd",
      "docker://127.0.0.1:5000/library/nginx@sha256:ddd",
      [skopeo.DisableDestTLSVerify; skopeo.OS "linux"; skopeo.Arch "arm64";
       skopeo.Variant ""])].
Proof. vm_compute. done. Qed.

(** C10: a run never changes the requested platforms.  The fallback
    assigns to the loop variable, a copy of the slice element, and nothing
    assigns to the slice: the captured slice is after the run what it was
    before it, the status line of every tag of every image of every
    registry shows the platforms as they were requested, and the loop of
    every tag ranges over them: the copy requests of the run are, tag after
    tag, those of the platforms as requested, each looked up under its
    requested key first whatever the lookups of earlier tags did to their
    loop variable. *)
Theorem C10_requested_platforms_unchanged {W : Type} `{!Collaborators W}
    (verbose : bool) (configFile outputFile : string) (overwrite : bool)
    (s : state W) :
  platforms (state_of (RunE verbose configFile outputFile overwrite s))
    = platforms s
  ∧ Forall (shows_platforms (platforms s))
      (trace_of (RunE verbose configFile outputFile overwrite s))
  ∧ ((copy_requests (trace_of (RunE verbose configFile outputFile overwrite s))
      = []
      ∧ result_of (RunE verbose configFile outputFile overwrite s) ≠ Ok tt)
     ∨ ∃ cfg tempDir reg,
         EvParseFile configFile (inl cfg)
           ∈ trace_of (RunE verbose configFile outputFile overwrite s)
         ∧ EvNewRegistry tempDir (inl reg)
           ∈ trace_of (RunE verbose configFile outputFile overwrite s)
         ∧ copy_requests (trace_of (RunE verbose configFile outputFile overwrite s))
             `prefix_of`
             mjoin (zip_with (tag_copies verbose reg (platforms s)) (tags_of cfg)
                      (inspected_lists
                         (trace_of (RunE verbose configFile outputFile overwrite s))))
         ∧ (result_of (RunE verbose configFile outputFile overwrite s) = Ok tt →
            copy_requests (trace_of (RunE verbose configFile outputFile overwrite s))
            = mjoin (zip_with (tag_copies verbose reg (platforms s)) (tags_of cfg)
                       (inspected_lists
                          (trace_of
                             (RunE verbose configFile outputFile overwrite s)))))).
Proof.
  destruct (RunE_sound_platforms verbose configFile outputFile overwrite
              (platforms s) s eq_refl) as [Ht Hs].
  split; [done|]. split; [done|].
  unfold result_of, trace_of.
  destruct (RunE verbose configFile outputFile overwrite s) as [[r s'] t] eqn:Hrun.
  cbn [fst snd].
  destruct (RunE_plan verbose configFile outputFile overwrite s _ s' t Hrun)
    as [(Hnone & _ & _ & Herr)|(cfg & tempDir & reg & Hcfg & Hreg & _ & _ & Hpre
                                & _ & Hok)]; [by left|].
  right. exists cfg, tempDir, reg. split; [done|]. split; [done|].
  split; [done|]. intros Hr. by destruct (Hok Hr) as (_ & _ & Hc & _).
Qed.

(** The fallback of one tag does not reach the next: [linux/arm64] is
    found under [v8] for tag [1.25] and, as requested, without a variant
    for tag [1.26]. *)
Example fallback_is_per_iteration :
  let run := @RunE unit Demo.two_tags false "images.yaml" "images.tar" false
               (Demo.start [Demo.arm64]) in
  result_of run = Ok tt
  ∧ copy_requests (trace_of run)
    = [("docker://docker.io/library/nginx@sha256:bbb",
        "docker://127.0.0.1:5000/library/nginx@sha256:bbb",
        [skopeo.DisableDestTLSVerify; skopeo.OS "linux"; skopeo.Arch "arm64";
         skopeo.Variant "v8"]);
       ("docker://docker.io/library/nginx@sha256:ddd",
        "docker://127.0.0.1:5000/library/nginx@sha256:ddd",
        [skopeo.DisableDestTLSVerify; skopeo.OS "linux"; skopeo.Arch "arm64";
         skopeo.Variant ""])]
  ∧ platforms (state_of run) = [Demo.arm64].
Proof. vm_compute. done. Qed.

(** C4: a platform that is still absent after the fallback does not end
    the run.  The iteration warns and issues the tag-qualified copy; the
    destination manifest list stays as it was and [digestFound] is false;
    the loop then goes on with the remaining platforms, unless the copy
    tool itself fails on that copy, whose error is then returned.  And the
    run goes on with the tag and with the tags after it: as long as no
    call fails (and no output file is in the way), it returns nil having
    inspected every tag of the configuration, issued the copy of every
    requested platform of every tag, found or not, and warned about each
    platform that a tag does not offer.  When a run that has warned about a
    platform returns an error, it is the error of a call that failed after
    the warning. *)
Theorem C4_unresolved_is_not_fatal {W : Type} `{!Collaborators W}
    (verbose : bool) (registryName imageName imageTag : string) (reg : Registry)
    (skopeoOpts : list skopeo.SkopeoOption) (idx : gmap string ManifestDescriptor)
    (acc : bool * ManifestList) (p : platform) (rest : list platform)
    (s : state W)
    (configFile outputFile : string) (overwrite : bool) (s0 : state W) :
  ((resolve idx p).2 = false →
   let p' := (resolve idx p).1.1 in
   let src := tag_ref registryName imageName imageTag in
   let dst := tag_ref (Address reg) imageName imageTag in
   let r := Copy src dst (copy_opts skopeoOpts p') (world s) in
   let here :=
     [EvWarning p' (registryName +:+ "/" +:+ imageName +:+ ":" +:+ imageTag);
      EvCopy src dst (copy_opts skopeoOpts p') r.1]
     ++ after_copy verbose r.1.1 r.1.2 in
   let next := platforms_loop verbose registryName imageName imageTag reg
                 skopeoOpts idx (false, acc.2) rest (mkState r.2 (platforms s)) in
   platforms_loop verbose registryName imageName imageTag reg skopeoOpts idx
     acc (p :: rest) s
   = match r.1.2 with
     | None => (result_of next, state_of next, here ++ trace_of next)
     | Some e => (Err e, mkState r.2 (platforms s), here)
     end)
  ∧ (Forall (fun ev => call_error ev = None)
       (trace_of (RunE verbose configFile outputFile overwrite s0)) →
     result_of (RunE verbose configFile outputFile overwrite s0) = Ok tt
     ∧ ∃ cfg tempDir reg0,
         EvParseFile configFile (inl cfg)
           ∈ trace_of (RunE verbose configFile outputFile overwrite s0)
         ∧ EvNewRegistry tempDir (inl reg0)
           ∈ trace_of (RunE verbose configFile outputFile overwrite s0)
         ∧ inspected (trace_of (RunE verbose configFile outputFile overwrite s0))
           = inspect_refs cfg
         ∧ copy_requests
             (trace_of (RunE verbose configFile outputFile overwrite s0))
           = mjoin (zip_with (tag_copies verbose reg0 (platforms s0)) (tags_of cfg)
                      (inspected_lists
                         (trace_of
                            (RunE verbose configFile outputFile overwrite s0))))
         ∧ warnings (trace_of (RunE verbose configFile outputFile overwrite s0))
           = mjoin (zip_with (tag_warnings (platforms s0)) (tags_of cfg)
                      (inspected_lists
                         (trace_of
                            (RunE verbose configFile outputFile overwrite s0)))))
  ∧ (∀ pre p' srcImageName post e,
       trace_of (RunE verbose configFile outputFile overwrite s0)
         = pre ++ EvWarning p' srcImageName :: post →
       result_of (RunE verbose configFile outputFile overwrite s0) = Err e →
       ∃ ev, ev ∈ post ∧ call_error ev = Some e).
Proof.
  split; [|split].
  - intros Hok. cbv zeta.
    unfold platforms_loop at 1. cbn [foldM]. unfold bind at 1.
    rewrite platform_body_run.
    rewrite (resolve_miss_zero idx p Hok), Hok.
    change (copy_src registryName imageName imageTag zero)
      with (tag_ref registryName imageName imageTag).
    change (copy_dst (Address reg) imageName imageTag zero)
      with (tag_ref (Address reg) imageName imageTag).
    destruct (Copy _ _ _ (world s)) as [[out [e|]] w]; cbn [fst snd]; [done|].
    change (appended acc.2 zero) with acc.2.
    change (digestFound_of zero) with false.
    unfold platforms_loop.
    by destruct (foldM _ (false, acc.2) rest _) as [[? ?] ?].
  - pose proof (RunE_accounts verbose configFile outputFile overwrite s0) as Hacc.
    unfold result_of, trace_of in *.
    destruct (RunE verbose configFile outputFile overwrite s0) as [[r s'] t]
      eqn:Hrun.
    cbn [fst snd] in *. intros Hnone.
    assert (r = Ok tt) as ->.
    { destruct r as [[]|e]; [done|]. simpl in Hacc.
      destruct Hacc as (pre & ev & post & -> & _ & Hev & _).
      apply Forall_app in Hnone as [_ Hnone].
      apply Forall_cons in Hnone as [Hnone _]. congruence. }
    split; [done|].
    destruct (RunE_plan verbose configFile outputFile overwrite s0 _ s' t Hrun)
      as [(_ & _ & _ & Herr)|(cfg & tempDir & reg0 & Hcfg & Hreg & _ & _ & _ & _
                              & Hok)]; [done|].
    destruct (Hok eq_refl) as (Hi & _ & Hc & Hw & _).
    by exists cfg, tempDir, reg0.
  - intros pre p' srcImageName post e Ht Hr.
    pose proof (RunE_accounts verbose configFile outputFile overwrite s0) as Hacc.
    rewrite Hr, Ht in Hacc. simpl in Hacc.
    destruct Hacc as (pre' & ev & post' & Heq & _ & Hev & Hpost).
    exists ev. split; [|done].
    apply app_eq_split in Heq
      as [(post1 & -> & ->)|(pre2 & -> & Heq)].
    + apply Forall_app in Hpost as [_ Hpost].
      by apply Forall_cons in Hpost as [? _].
    + destruct pre2 as [|w pre2]; simpl in Heq.
      * injection Heq as <- _. done.
      * injection Heq as _ ->. apply elem_of_app. right. by left.
Qed.

Lemma C4_unresolved_is_not_fatal_witness :
  let reg := {| Address := "127.0.0.1:5000" |} in
  let idx := platformManifests (Manifests Demo.nginx) in
  let acc := (false, {| versioned := Demo.v2; Manifests := [] |}) in
  let s := Demo.start [Demo.windows; Demo.amd64] in
  let run := @RunE unit Demo.two_tags false "images.yaml" "images.tar" false s in
  @platforms_loop unit Demo.happy false "docker.io" "library/nginx" "1.25" reg []
    idx acc [Demo.windows; Demo.amd64] s
  = (Ok (true, {| versioned := Demo.v2;
                  Manifests := [Demo.desc "linux" "amd64" "" "sha256:aaa"] |}),
     s,
     [EvWarning Demo.windows "docker.io/library/nginx:1.25";
      EvCopy "docker://docker.io/library/nginx:1.25"
        "docker://127.0.0.1:5000/library/nginx:1.25"
        [skopeo.DisableDestTLSVerify; skopeo.OS "windows"; skopeo.Arch "amd64";
         skopeo.Variant ""] ("copied", None);
      EvCopy "docker://docker.io/library/nginx@sha256:aaa"
        "docker://127.0.0.1:5000/library/nginx@sha256:aaa"
        [skopeo.DisableDestTLSVerify; skopeo.OS "linux"; skopeo.Arch "amd64";
         skopeo.Variant ""] ("copied", None)])
  ∧ result_of run = Ok tt
  ∧ ∃ cfg tempDir reg0,
      EvParseFile "images.yaml" (inl cfg) ∈ trace_of run
      ∧ EvNewRegistry tempDir (inl reg0) ∈ trace_of run
      ∧ inspected (trace_of run) = inspect_refs cfg
      ∧ copy_requests (trace_of run)
        = mjoin (zip_with (tag_copies false reg0 [Demo.windows; Demo.amd64])
                   (tags_of cfg) (inspected_lists (trace_of run)))
      ∧ warnings (trace_of run)
        = mjoin (zip_with (tag_warnings [Demo.windows; Demo.amd64])
                   (tags_of cfg) (inspected_lists (trace_of run))).
Proof.
  pose proof (@C4_unresolved_is_not_fatal unit Demo.happy false "docker.io"
                "library/nginx" "1.25" {| Address := "127.0.0.1:5000" |} []
                (platformManifests (Manifests Demo.nginx))
                (false, {| versioned := Demo.v2; Manifests := [] |})
                Demo.windows [Demo.amd64]
                (Demo.start [Demo.windows; Demo.amd64])
                "images.yaml" "images.tar" false
                (Demo.start [Demo.windows; Demo.amd64])) as [Hloop _].
  pose proof (@C4_unresolved_is_not_fatal unit Demo.two_tags false "docker.io"
                "library/nginx" "1.25" {| Address := "127.0.0.1:5000" |} []
                (platformManifests (Manifests Demo.nginx))
                (false, {| versioned := Demo.v2; Manifests := [] |})
                Demo.windows [Demo.amd64]
                (Demo.start [Demo.windows; Demo.amd64])
                "images.yaml" "images.tar" false
                (Demo.start [Demo.windows; Demo.amd64])) as (_ & Hrun & _).
  split; [exact (Hloop eq_refl)|].
  apply Hrun. vm_compute. repeat constructor.
Defined.

(** An unresolved platform lets the run complete: both tags are copied by
    tag and nothing is published. *)
Example unresolved_platform_run_completes :
  let run := @RunE unit Demo.two_tags false "images.yaml" "images.tar" false
               (Demo.start [Demo.windows]) in
  result_of run = Ok tt
  ∧ copy_requests (trace_of run)
    = [("docker://docker.io/library/nginx:1.25",
        "docker://127.0.0.1:5000/library/nginx:1.25",
        [skopeo.DisableDestTLSVerify; skopeo.OS "windows"; skopeo.Arch "amd64";
         skopeo.Variant ""]);
       ("docker://docker.io/library/nginx:1.26",
        "docker://127.0.0.1:5000/library/nginx:1.26",
        [skopeo.DisableDestTLSVerify; skopeo.OS "windows"; skopeo.Arch "amd64";
         skopeo.Variant ""])]
  ∧ filter (fun ev => is_publish ev = true) (trace_of run) = [].
Proof. vm_compute. done. Qed.

(** ** The calls made for one source registry, registry by registry *)

Lemma registry_body_inspects {W : Type} `{!Collaborators W}
    (verbose : bool) (reg : Registry) (entry : string * RegistrySyncConfig)
    (ps : list platform) :
  yields ps inspect_ref (registry_body verbose reg entry) (inspect_refs [entry]).
Proof.
  unfold inspect_refs. rewrite bind_singleton.
  unfold registry_body. unfold mbind at 1, M_bind.
  apply (yields_bind ps inspect_ref _ _ []); [by apply registry_opts_quiet|].
  intros skopeoOpts. apply yields_forM_. intros image.
  unfold image_body. apply yields_forM_. intros imageTag s Hs.
  destruct (imageTag_body_calls verbose entry.1 reg skopeoOpts image.1 imageTag s)
    as (Hi & _ & _).
  rewrite imageTag_body_keeps_platforms. fold (inspected) in *.
  unfold inspected in Hi. rewrite Hi. done.
Qed.

(** The calls of the iteration for one registry. *)
Lemma registry_body_segment {W : Type} `{!Collaborators W} (verbose : bool)
    (reg : Registry) (entry : string * RegistrySyncConfig) (s : state W) :
  let seg := trace_of (registry_body verbose reg entry s) in
  Forall (for_registry verbose reg entry) seg
  ∧ omap login_of seg
    = (if has_username entry.2 then [] else [(entry.1, verbose)])
  ∧ inspected seg `prefix_of` inspect_refs [entry].
Proof.
  split; [|split].
  - by destruct (registry_body_for_registry verbose reg entry (platforms s) s
                   eq_refl).
  - pose proof (registry_opts_trace verbose entry.1 entry.2 s) as Hlogin.
    unfold registry_body. unfold mbind at 1, M_bind.
    unfold bind, trace_of in *.
    destruct (registry_opts verbose entry.1 entry.2 s) as [[[skopeoOpts|e] s1] t1];
      cbn [fst snd] in *; [|done].
    assert (Hs : sound (platforms s1) (fun ev => login_of ev = None)
                   (forM_ (image_body verbose entry.1 reg skopeoOpts)
                      (Images entry.2))) by sound_tac.
    destruct (Hs s1 eq_refl) as [Hnone _]. unfold trace_of in Hnone.
    destruct (forM_ _ (Images entry.2) s1) as [[r s2] t2]. cbn [fst snd] in *.
    by rewrite omap_app, Hlogin, (omap_all_None _ _ Hnone), app_nil_r.
  - by destruct (registry_body_inspects verbose reg entry (platforms s) s eq_refl)
      as (_ & Hpre & _).
Qed.

(** X11: the calls to skopeo of a run come registry by registry, in the
    order of the parsed configuration: the part of the run between what
    comes before and after the loops is, piece by piece, the iteration of
    the first registry, of the second, and so on, as far as the run got.
    Every call made in the iteration of a registry is a call for that
    registry.  The login, made
    only for a registry without a user name and then exactly once, names
    it; an inspect, which takes no options, reads a tag configured for it,
    and the tags are inspected in the order of the configuration; a copy
    reads such a tag from it, by tag or by digest, writes it under the same
    name to the staging registry the run started and carries exactly the
    options of that registry (its disabled source TLS check, its source
    credentials, debug in verbose mode), then [DisableDestTLSVerify] and a
    platform filter; a publication goes to the staging registry with the
    same options and [DisableDestTLSVerify].  No call carries the options
    of a registry other than the one whose iteration makes it. *)
Theorem skopeo_calls_belong_to_their_registry {W : Type} `{!Collaborators W}
    (verbose : bool) (configFile outputFile : string) (overwrite : bool)
    (s : state W) :
  (Forall (fun ev => is_loop_event ev = false)
     (trace_of (RunE verbose configFile outputFile overwrite s))
   ∧ result_of (RunE verbose configFile outputFile overwrite s) ≠ Ok tt)
  ∨ ∃ cfg tempDir reg pre segs post,
      trace_of (RunE verbose configFile outputFile overwrite s)
        = pre ++ mjoin segs ++ post
      ∧ EvParseFile configFile (inl cfg) ∈ pre
      ∧ EvNewRegistry tempDir (inl reg) ∈ pre
      ∧ Forall (fun ev => is_loop_event ev = false) pre
      ∧ Forall (fun ev => is_loop_event ev = false) post
      ∧ length segs ≤ length cfg
      ∧ (result_of (RunE verbose configFile outputFile overwrite s) = Ok tt →
         length segs = length cfg)
      ∧ Forall2
          (fun entry seg =>
             (∃ s1, seg = trace_of (registry_body verbose reg entry s1))
             ∧ Forall (for_registry verbose reg entry) seg
             ∧ omap login_of seg
               = (if has_username entry.2 then [] else [(entry.1, verbose)])
             ∧ inspected seg `prefix_of` inspect_refs [entry])
          (take (length segs) cfg) segs.
Proof.
  unfold result_of, trace_of.
  destruct (RunE verbose configFile outputFile overwrite s) as [[r s'] t] eqn:Hrun.
  cbn [fst snd].
  destruct (RunE_around_the_loop verbose configFile outputFile overwrite s r s' t
              Hrun)
    as [[Hquiet Herr]|(cfg & tempDir & reg & s1 & pre & post & Ht & _ & Hcfg & Hreg
                & Hpre & Hpost & Hok)]; [by left|].
  right.
  destruct (forM__segments (registry_body verbose reg)
              (fun entry seg =>
                 (∃ s1, seg = trace_of (registry_body verbose reg entry s1))
                 ∧ Forall (for_registry verbose reg entry) seg
                 ∧ omap login_of seg
                   = (if has_username entry.2 then [] else [(entry.1, verbose)])
                 ∧ inspected seg `prefix_of` inspect_refs [entry])
              cfg s1)
    as (segs & Hsegs & Hlen & Hall & Hfor).
  { intros entry s2. split; [by exists s2 | apply registry_body_segment]. }
  exists cfg, tempDir, reg, pre, segs, post.
  rewrite <- Hsegs. split; [done|]. split; [done|]. split; [done|].
  split; [done|]. split; [done|]. split; [done|]. split; [|done].
  intros Hr. by apply Hall, Hok.
Qed.

(** ** How a run ends *)

Lemma bundle_ending {W : Type} `{!Collaborators W} (verbose : bool)
    (cfg : SourceConfig) (tempDir : string) (reg : Registry)
    (outputFile : string) (s : state W) :
  let run := bundle verbose cfg tempDir reg outputFile s in
  [EvSkopeoCleanup] `suffix_of` trace_of run
  ∧ (result_of run = Ok tt →
     [EvWriteSanitizedConfig cfg (filepath_Join tempDir "images.yaml") None;
      EvStart ("Archiving images to " +:+ outputFile);
      EvArchiveDirectory tempDir outputFile None; EvEnd true; EvSkopeoCleanup]
       `suffix_of` trace_of run).
Proof.
  unfold bundle, defer. run_M.
  destruct (skopeo_NewRunner (world s)) as [[] w1]. simpl.
  unfold result_of, trace_of.
  destruct (forM_ (registry_body verbose reg) cfg _) as [[[[]|e] s2] tl]; simpl.
  - destruct (config_WriteSanitizedConfig _ _ (world s2)) as [[e|] w3]; simpl.
    + destruct (skopeoCleanup w3) as [? w4]. simpl.
      split; [|done]. by apply suffix_cons_r, suffix_app_r.
    + destruct (archive_ArchiveDirectory _ _ w3) as [[e|] w4]; simpl;
        destruct (skopeoCleanup w4) as [? w5]; simpl;
        (split; [by apply suffix_cons_r, suffix_app_r|]); [done|].
      intros _. rewrite <- app_assoc. by apply suffix_cons_r, suffix_app_r.
  - destruct (skopeoCleanup (world s2)) as [? w3]. simpl.
    split; [|done]. by apply suffix_cons_r, suffix_app_r.
Qed.

Lemma with_tempDir_ending {W : Type} `{!Collaborators W}
    (verbose : bool) (cfg : SourceConfig) (outputFile : string) (s : state W) :
  let run := with_tempDir verbose cfg outputFile s in
((EvNewRunner ∉ trace_of run) ∧ result_of run ≠ Ok tt)
  ∨ ∃ tempDir,
      tempDir ∈ omap made_tempDir (trace_of run)
      ∧ [EvSkopeoCleanup; EvRemoveAll tempDir] `suffix_of` trace_of run
      ∧ (result_of run = Ok tt →
         [EvWriteSanitizedConfig cfg (filepath_Join tempDir "images.yaml") None;
          EvStart ("Archiving images to " +:+ outputFile);
          EvArchiveDirectory tempDir outputFile None; EvEnd true;
          EvSkopeoCleanup; EvRemoveAll tempDir]
           `suffix_of` trace_of run).
Proof.
  unfold with_tempDir. run_M.
  destruct (filepath_Abs outputFile (world s)) as [[outputFileAbs|e] w1]; simpl.
  2: { left. unfold result_of, trace_of. simpl. split; [|done].
       intros Hin. not_in_list Hin. }
  destruct (os_MkdirTemp _ _ w1) as [[tempDir|e] w2]; simpl.
  2: { left. unfold result_of, trace_of. simpl. split; [|done].
       intros Hin. not_in_list Hin. }
  unfold defer, with_registry. run_M.
  destruct (registry_NewRegistry tempDir w2) as [[reg|e] w3]; simpl.
  2: { destruct (os_RemoveAll tempDir w3) as [? w4].
       left. unfold result_of, trace_of. simpl. split; [|done].
       intros Hin. not_in_list Hin. }
  pose proof (bundle_ending verbose cfg tempDir reg outputFile
                {| world := w3; platforms := platforms s |}) as [Hend Hok].
  unfold result_of, trace_of in *. simpl in *.
  destruct (bundle verbose cfg tempDir reg outputFile _) as [[r s4] t].
  destruct (os_RemoveAll tempDir (world s4)) as [? w5]. simpl in *.
  right. exists tempDir. split; [|split].
  - by left.
  - repeat apply suffix_cons_r.
    by apply (suffix_app _ _ [EvRemoveAll tempDir]) in Hend.
  - intros Hr. specialize (Hok Hr). repeat apply suffix_cons_r.
    by apply (suffix_app _ _ [EvRemoveAll tempDir]) in Hok.
Qed.

Lemma RunE_ending {W : Type} `{!Collaborators W}
    (verbose : bool) (configFile outputFile : string) (overwrite : bool)
    (s : state W) (r : outcome unit) (s' : state W) (t : list event) :
  RunE verbose configFile outputFile overwrite s = (r, s', t) →
((EvNewRunner ∉ t) ∧ r ≠ Ok tt)
  ∨ ∃ cfg tempDir,
      EvParseFile configFile (inl cfg) ∈ t
      ∧ tempDir ∈ omap made_tempDir t
      ∧ [EvSkopeoCleanup; EvRemoveAll tempDir] `suffix_of` t
      ∧ (r = Ok tt →
         [EvWriteSanitizedConfig cfg (filepath_Join tempDir "images.yaml") None;
          EvStart ("Archiving images to " +:+ outputFile);
          EvArchiveDirectory tempDir outputFile None; EvEnd true;
          EvSkopeoCleanup; EvRemoveAll tempDir] `suffix_of` t).
Proof.
  assert (Hcheck : ∃ r0 s0 t0,
            (if overwrite then ret tt else check_outputFile outputFile) s
              = (r0, s0, t0)
            ∧ EvNewRunner ∉ t0).
  { destruct overwrite.
    - eexists _, _, _. split; [reflexivity|]. intros Hin. not_in_list Hin.
    - unfold check_outputFile. run_M.
      destruct (os_Stat outputFile (world s)) as [[| |e] w]; simpl;
        eexists _, _, _; (split; [reflexivity|]); intros Hin; not_in_list Hin. }
  destruct Hcheck as (r0 & s0 & t0 & Hcheck & Ht0).
  unfold RunE.
  change (((if overwrite then mret () else check_outputFile outputFile);;
           cfg ← parse_config verbose configFile;
           with_tempDir verbose cfg outputFile) s)
    with (bind (if overwrite then ret tt else check_outputFile outputFile)
            (fun _ => bind (parse_config verbose configFile)
                        (fun cfg => with_tempDir verbose cfg outputFile)) s).
  unfold bind at 1. rewrite Hcheck.
  destruct r0 as [[]|e]; [|intros [= <- <- <-]; by left].
  unfold bind, parse_config. run_M.
  destruct (config_ParseFile configFile (world s0)) as [[cfg|e] w1]; simpl.
  2: { intros [= <- <- <-]. left. split; [|done].
       intros [Hin|Hin]%elem_of_app; [done | not_in_list Hin]. }
  assert (Hlog : ∃ t1, (if verbose then emit (EvInfoConfig cfg) else ret ())
                         {| world := w1; platforms := platforms s0 |}
                       = (Ok tt, {| world := w1; platforms := platforms s0 |}, t1)
                       ∧ EvNewRunner ∉ t1).
  { destruct verbose; eexists; (split; [reflexivity|]);
      intros Hin; not_in_list Hin. }
  destruct Hlog as (t1 & -> & Ht1). simpl.
  pose proof (with_tempDir_ending verbose cfg outputFile
                {| world := w1; platforms := platforms s0 |}) as Htmp.
  unfold result_of, trace_of in *. simpl in *.
  destruct (with_tempDir verbose cfg outputFile _) as [[r2 s3] t2]. simpl in *.
  intros [= <- <- <-].
  destruct Htmp as [[Hno Herr]|(tempDir & Hmade & Hend & Hok)].
  - left. split; [|done].
    intros [Hin|Hin]%elem_of_app; [done|].
    apply elem_of_cons in Hin as [Hin|Hin]; [done|].
    apply elem_of_cons in Hin as [Hin|Hin]; [done|].
    apply elem_of_app in Hin as [Hin|Hin]; [|done].
    apply elem_of_app in Hin as [Hin|Hin]; [done | not_in_list Hin].
  - right. exists cfg, tempDir. split; [|split; [|split]].
    + apply elem_of_app. right. apply elem_of_cons. right. by left.
    + rewrite omap_app, !omap_cons_eq, omap_app. simpl.
      apply elem_of_app. right. apply elem_of_app. by right.
    + apply suffix_app_r. do 2 apply suffix_cons_r. by apply suffix_app_r.
    + intros Hr. apply suffix_app_r. do 2 apply suffix_cons_r.
      by apply suffix_app_r, Hok.
Qed.

(** X13: the two deferred clean-ups run in the reverse order of their
    registration on every return, with or without an error: once the
    skopeo runner exists, the last two things the command does are
    [skopeoCleanup] and then [os.RemoveAll] on the temporary directory it
    made. *)
Theorem deferred_cleanups_run_last_in_reverse_order
    {W : Type} `{!Collaborators W}
    (verbose : bool) (configFile outputFile : string) (overwrite : bool)
    (s : state W) :
  EvNewRunner ∈ trace_of (RunE verbose configFile outputFile overwrite s) →
  ∃ tempDir,
    tempDir ∈ omap made_tempDir
                (trace_of (RunE verbose configFile outputFile overwrite s))
    ∧ [EvSkopeoCleanup; EvRemoveAll tempDir]
        `suffix_of` trace_of (RunE verbose configFile outputFile overwrite s).
Proof.
  unfold trace_of.
  destruct (RunE verbose configFile outputFile overwrite s) as [[r s'] t] eqn:Hrun.
  cbn [snd]. intros Hin.
  destruct (RunE_ending verbose configFile outputFile overwrite s r s' t Hrun)
    as [[Hno _]|(cfg & tempDir & _ & Hmade & Hend & _)]; [done|].
  by exists tempDir.
Qed.

Lemma deferred_cleanups_run_last_in_reverse_order_witness :
  ∃ tempDir,
    tempDir ∈ omap made_tempDir
                (trace_of (@RunE unit Demo.failing_copy false "images.yaml"
                             "images.tar" false
                             (Demo.start [Demo.amd64; Demo.arm64])))
    ∧ [EvSkopeoCleanup; EvRemoveAll tempDir]
        `suffix_of` trace_of (@RunE unit Demo.failing_copy false "images.yaml"
                                "images.tar" false
                                (Demo.start [Demo.amd64; Demo.arm64])).
Proof.
  apply (@deferred_cleanups_run_last_in_reverse_order unit Demo.failing_copy
           false "images.yaml" "images.tar" false
           (Demo.start [Demo.amd64; Demo.arm64])).
  vm_compute. repeat constructor.
Defined.

(** X14: a run that returns nil ends by writing the sanitized copy of the
    parsed configuration as [images.yaml] into the temporary directory,
    archiving that directory into the output file, and cleaning up; the
    archive is written once, after every copy, from the directory the run
    created and then removes. *)
Theorem a_successful_run_ends_with_the_archive {W : Type} `{!Collaborators W}
    (verbose : bool) (configFile outputFile : string) (overwrite : bool)
    (s : state W) :
  result_of (RunE verbose configFile outputFile overwrite s) = Ok tt →
  ∃ cfg tempDir,
    EvParseFile configFile (inl cfg)
      ∈ trace_of (RunE verbose configFile outputFile overwrite s)
    ∧ tempDir ∈ omap made_tempDir
                  (trace_of (RunE verbose configFile outputFile overwrite s))
    ∧ [EvWriteSanitizedConfig cfg (filepath_Join tempDir "images.yaml") None;
       EvStart ("Archiving images to " +:+ outputFile);
       EvArchiveDirectory tempDir outputFile None; EvEnd true;
       EvSkopeoCleanup; EvRemoveAll tempDir]
        `suffix_of` trace_of (RunE verbose configFile outputFile overwrite s).
Proof.
  unfold result_of, trace_of.
  destruct (RunE verbose configFile outputFile overwrite s) as [[r s'] t] eqn:Hrun.
  cbn [fst snd]. intros ->.
  destruct (RunE_ending verbose configFile outputFile overwrite s _ s' t Hrun)
    as [[_ Herr]|(cfg & tempDir & Hcfg & Hmade & _ & Hok)]; [done|].
  exists cfg, tempDir. auto.
Qed.

Lemma a_successful_run_ends_with_the_archive_witness :
  ∃ cfg tempDir,
    EvParseFile "images.yaml" (inl cfg)
      ∈ trace_of (@RunE unit Demo.happy false "images.yaml" "images.tar" false
                    (Demo.start [Demo.amd64]))
    ∧ tempDir ∈ omap made_tempDir
                  (trace_of (@RunE unit Demo.happy false "images.yaml" "images.tar"
                               false (Demo.start [Demo.amd64])))
    ∧ [EvWriteSanitizedConfig cfg
         (@filepath_Join unit Demo.happy tempDir "images.yaml") None;
       EvStart ("Archiving images to " +:+ "images.tar");
       EvArchiveDirectory tempDir "images.tar" None; EvEnd true;
       EvSkopeoCleanup; EvRemoveAll tempDir]
        `suffix_of` trace_of (@RunE unit Demo.happy false "images.yaml"
                                "images.tar" false (Demo.start [Demo.amd64])).
Proof.
  apply (@a_successful_run_ends_with_the_archive unit Demo.happy false
           "images.yaml" "images.tar" false (Demo.start [Demo.amd64])).
  vm_compute. reflexivity.
Defined.

(** X15: on every path on which the command returns after
    [os.MkdirTemp] succeeded, with nil or with any error, the temporary
    directory is removed, and that is the last thing the command does. *)
Theorem tempDir_is_removed_on_every_return {W : Type} `{!Collaborators W}
    (verbose : bool) (configFile outputFile : string) (overwrite : bool)
    (s : state W) (tempDir : string) :
  tempDir ∈ omap made_tempDir
              (trace_of (RunE verbose configFile outputFile overwrite s)) →
  last (trace_of (RunE verbose configFile outputFile overwrite s))
    = Some (EvRemoveAll tempDir).
Proof. apply RunE_removes_tempDir. Qed.

Lemma tempDir_is_removed_on_every_return_witness :
  last (trace_of (@RunE unit Demo.failing_copy false "images.yaml" "images.tar"
                    false (Demo.start [Demo.amd64; Demo.arm64])))
  = Some (EvRemoveAll "/work/.image-bundle-1").
Proof.
  apply (@tempDir_is_removed_on_every_return unit Demo.failing_copy false
           "images.yaml" "images.tar" false (Demo.start [Demo.amd64; Demo.arm64])).
  vm_compute. repeat constructor.
Defined.

(** X16: when the serving goroutine ends the process, the exit code is 2
    and the process has done a prefix of what the command does when it is
    left to return, the [go] statement included, followed by the line on
    [ErrOut] and the exit: no deferred call is run because of the exit.
    [os.RemoveAll] has been called by then only if the command had already
    made its last call, which it is; an exit at any earlier point leaves
    the temporary directory behind. *)
Theorem exit_by_the_server_skips_the_cleanup {W : Type} `{!Collaborators W}
    (verbose : bool) (configFile outputFile : string) (overwrite : bool)
    (serve_fails : option (nat * error)) (s : state W)
    (code : Z) (t : list event) :
  run_process serve_fails (RunE verbose configFile outputFile overwrite) s
    = (Exited code, t) →
  code = 2%Z
  ∧ ∃ k e t0,
      serve_fails = Some (k, e)
      ∧ t = t0 ++ [EvErrOut ("error serving Docker registry: " +:+ e +:+ newline);
                   EvExit 2]
      ∧ t0 `prefix_of` trace_of (RunE verbose configFile outputFile overwrite s)
      ∧ (∃ ev, ev ∈ t0 ∧ is_go ev = true)
      ∧ (t0 ≠ trace_of (RunE verbose configFile outputFile overwrite s) →
         Forall (fun ev => is_RemoveAll ev = false) t)
      ∧ (t0 = trace_of (RunE verbose configFile outputFile overwrite s) →
         ∃ tempDir,
           tempDir ∈ omap made_tempDir t0 ∧ last t0 = Some (EvRemoveAll tempDir)).
Proof. apply exit_cuts_the_run. Qed.

Lemma exit_by_the_server_skips_the_cleanup_witness :
  let run := run_process (Some (0, "bind: address already in use"))
               (@RunE unit Demo.happy false "images.yaml" "images.tar" false)
               (Demo.start [Demo.amd64]) in
  2%Z = 2%Z
  ∧ ∃ k e t0,
      Some (0, "bind: address already in use") = Some (k, e)
      ∧ run.2 = t0 ++ [EvErrOut ("error serving Docker registry: " +:+ e +:+ newline);
                       EvExit 2]
      ∧ t0 `prefix_of` trace_of (@RunE unit Demo.happy false "images.yaml"
                                   "images.tar" false (Demo.start [Demo.amd64]))
      ∧ (∃ ev, ev ∈ t0 ∧ is_go ev = true)
      ∧ (t0 ≠ trace_of (@RunE unit Demo.happy false "images.yaml" "images.tar"
                          false (Demo.start [Demo.amd64])) →
         Forall (fun ev => is_RemoveAll ev = false) run.2)
      ∧ (t0 = trace_of (@RunE unit Demo.happy false "images.yaml" "images.tar"
                          false (Demo.start [Demo.amd64])) →
         ∃ tempDir,
           tempDir ∈ omap made_tempDir t0 ∧ last t0 = Some (EvRemoveAll tempDir)).
Proof.
  apply (@exit_by_the_server_skips_the_cleanup unit Demo.happy false
           "images.yaml" "images.tar" false
           (Some (0, "bind: address already in use")) (Demo.start [Demo.amd64])).
  vm_compute. reflexivity.
Defined.

(** The exit may also come when the command has made its last call: the
    directory is removed, and the process still ends with code 2. *)
Example exit_after_the_last_call :
  let cmd := @RunE unit Demo.happy false "images.yaml" "images.tar" false in
  let s := Demo.start [Demo.amd64] in
  ∃ k, (run_process (Some (k, "server closed")) cmd s).1 = Exited 2
       ∧ (run_process (Some (k, "server closed")) cmd s).2
         = trace_of (cmd s)
           ++ [EvErrOut ("error serving Docker registry: server closed" +:+ newline);
               EvExit 2]
       ∧ last (trace_of (cmd s)) = Some (EvRemoveAll "/work/.image-bundle-1")
       ∧ (run_process (Some (S k, "server closed")) cmd s).1 = Returned (Ok tt).
Proof. exists 14. vm_compute. done. Qed.

(** ** The options of a source registry *)

Lemma source_opts_tls (verbose : bool) (registryConfig : RegistrySyncConfig) :
  skopeo.DisableSrcTLSVerify ∈ source_opts verbose registryConfig
  ↔ TLSVerify registryConfig = Some false.
Proof.
  unfold source_opts.
  destruct (TLSVerify registryConfig) as [[|]|],
    (credentials registryConfig) as [[u0 p0]|]; try case_decide;
    destruct verbose; simpl;
    rewrite ?elem_of_cons, ?elem_of_nil; intuition congruence.
Qed.

Lemma source_opts_debug (verbose : bool) (registryConfig : RegistrySyncConfig) :
  skopeo.Debug ∈ source_opts verbose registryConfig ↔ verbose = true.
Proof.
  unfold source_opts.
  destruct (TLSVerify registryConfig) as [[|]|],
    (credentials registryConfig) as [[u0 p0]|]; try case_decide;
    destruct verbose; simpl;
    rewrite ?elem_of_cons, ?elem_of_nil; intuition congruence.
Qed.

Lemma source_opts_credentials (verbose : bool)
    (registryConfig : RegistrySyncConfig) (u p : string) :
  skopeo.SrcCredentials u p ∈ source_opts verbose registryConfig
  ↔ u ≠ "" ∧ credentials registryConfig = Some {| Username := u; Password := p |}.
Proof.
  unfold source_opts.
  destruct (TLSVerify registryConfig) as [[|]|],
    (credentials registryConfig) as [[u0 p0]|]; try case_decide;
    destruct verbose; simpl in *;
    rewrite ?elem_of_cons, ?elem_of_nil; intuition congruence.
Qed.

Lemma source_opts_has_username (verbose : bool)
    (registryConfig : RegistrySyncConfig) :
  (∃ u p, skopeo.SrcCredentials u p ∈ source_opts verbose registryConfig)
  ↔ has_username registryConfig = true.
Proof.
  unfold has_username. split.
  - intros (u & p & [Hu ->]%source_opts_credentials). simpl.
    by rewrite bool_decide_eq_false_2.
  - destruct (credentials registryConfig) as [[u0 p0]|] eqn:Hc; [|done].
    simpl. intros Hu%negb_true_iff%bool_decide_eq_false.
    exists u0, p0. apply source_opts_credentials. by rewrite Hc.
Qed.

(** X17: the options computed for a source registry disable the source
    TLS check exactly when the configuration sets [tlsVerify] to false,
    carry the source credentials exactly when a non-empty user name is
    configured, and ask for debug output exactly in verbose mode; a login
    is attempted exactly when no credentials are passed, and when it fails
    no options are returned but the wrapped error. *)
Theorem registry_options_follow_the_configuration {W : Type} `{!Collaborators W}
    (verbose : bool) (registryName : string)
    (registryConfig : RegistrySyncConfig) (s : state W) :
  let run := registry_opts verbose registryName registryConfig s in
  let login := AttemptToLoginToRegistry registryName verbose (world s) in
  trace_of run
    = (if has_username registryConfig then []
       else [EvLogin registryName verbose login.1])
  ∧ match result_of run with
    | Err e =>
        has_username registryConfig = false
        ∧ ∃ e', login.1 = Some e' ∧ e = "error logging in to registry: " +:+ e'
    | Ok skopeoOpts =>
        (has_username registryConfig = false → login.1 = None)
        ∧ (skopeo.DisableSrcTLSVerify ∈ skopeoOpts
           ↔ TLSVerify registryConfig = Some false)
        ∧ (skopeo.Debug ∈ skopeoOpts ↔ verbose = true)
        ∧ (∀ u p, skopeo.SrcCredentials u p ∈ skopeoOpts
                  ↔ u ≠ ""
                    ∧ credentials registryConfig
                      = Some {| Username := u; Password := p |})
        ∧ ((∃ u p, skopeo.SrcCredentials u p ∈ skopeoOpts)
           ↔ has_username registryConfig = true)
    end.
Proof.
  pose proof (registry_opts_Ok verbose registryName registryConfig s) as Hopts.
  unfold registry_opts, login, tls_opts, has_username, result_of, trace_of in *.
  revert Hopts. run_M.
  destruct (credentials registryConfig) as [[u0 p0]|] eqn:Hc;
    [case_decide as Hu|]; simpl in *.
  - rewrite bool_decide_eq_true_2 by done. simpl.
    destruct (AttemptToLoginToRegistry _ _ _) as [[e|] w]; simpl; intros Hopts.
    { split; [done|]. split; [done|]. by eexists. }
    rewrite (Hopts _ eq_refl). split; [done|]. split; [done|].
    split; [apply source_opts_tls|]. split; [apply source_opts_debug|].
    split; [intros u p; rewrite <- Hc; apply source_opts_credentials|].
    rewrite source_opts_has_username. unfold has_username. rewrite Hc. simpl.
    by rewrite bool_decide_eq_true_2.
  - rewrite bool_decide_eq_false_2 by done. simpl. intros Hopts.
    rewrite (Hopts _ eq_refl). split; [done|]. split; [done|].
    split; [apply source_opts_tls|]. split; [apply source_opts_debug|].
    split; [intros u p; rewrite <- Hc; apply source_opts_credentials|].
    rewrite source_opts_has_username. unfold has_username. rewrite Hc. simpl.
    by rewrite bool_decide_eq_false_2.
  - destruct (AttemptToLoginToRegistry _ _ _) as [[e|] w]; simpl; intros Hopts.
    { split; [done|]. split; [done|]. by eexists. }
    rewrite (Hopts _ eq_refl). split; [done|]. split; [done|].
    split; [apply source_opts_tls|]. split; [apply source_opts_debug|].
    split; [intros u p; rewrite <- Hc; apply source_opts_credentials|].
    rewrite source_opts_has_username. unfold has_username. by rewrite Hc.
Qed.

(** ** The status line *)

Lemma status_run_app (st : status) (t1 t2 : list event) :
  status_run st (t1 ++ t2)
  = match status_run st t1 with
    | Some st => status_run st t2
    | None => None
    end.
Proof.
  revert st. induction t1 as [|ev t1 IH]; intros st; simpl; [done|].
  destruct (status_step st ev); [apply IH | done].
Qed.

Lemma status_run_Failed (t : list event) :
  status_run Failed t = Some Failed ∨ status_run Failed t = None.
Proof.
  induction t as [|ev t IH]; simpl; [auto|].
  destruct (status_step Failed ev) as [st|] eqn:Hstep; [|auto].
  assert (st = Failed) as ->
    by (destruct ev; simpl in Hstep; repeat case_match; congruence).
  done.
Qed.

Section Tracks.

Context {W : Type}.

Lemma tracks_ret {A} (a : A) (st : status) : tracks (ret a : M W A) st st.
Proof. intros s. done. Qed.

Lemma tracks_get (st : status) :
  tracks (get_platforms : M W (list platform)) st st.
Proof. intros s. done. Qed.

Lemma tracks_fail {A} (e : error) (pre post : status) :
  pre = Failed ∨ pre = Idle → tracks (fail e : M W A) pre post.
Proof. intros [->| ->] s; simpl; auto. Qed.

Lemma tracks_emit (ev : event) (pre post : status) :
  status_step pre ev = Some post → tracks (emit ev : M W unit) pre post.
Proof. intros Hev s. simpl. by rewrite Hev. Qed.

Lemma tracks_call {R} (f : W → R * W) (ev : R → event) (st : status) :
  (∀ r, status_step st (ev r) = Some st) → tracks (call f ev) st st.
Proof.
  intros Hev s. unfold call, result_of, trace_of.
  destruct (f (world s)) as [r w]. simpl. by rewrite Hev.
Qed.

Lemma tracks_bind {A B} (m : M W A) (k : A → M W B) (pre mid post : status) :
  tracks m pre mid → (∀ a, tracks (k a) mid post) → tracks (bind m k) pre post.
Proof.
  intros Hm Hk s. specialize (Hm s). unfold bind, result_of, trace_of in *.
  destruct (m s) as [[[a|e] s1] t1]; simpl in *; [|done].
  specialize (Hk a s1). unfold result_of, trace_of in Hk.
  destruct (k a s1) as [[r s2] t2]; simpl in *.
  rewrite status_run_app, Hm. done.
Qed.

Lemma tracks_defer {A R} (f : W → R * W) (ev : R → event) (body : M W A)
    (pre post : status) :
  (∀ r st, status_step st (ev r) = Some st) →
  tracks body pre post → tracks (defer (call f ev) body) pre post.
Proof.
  intros Hev Hb s. specialize (Hb s). unfold defer, call, result_of, trace_of in *.
  destruct (body s) as [[r s1] t1]. destruct (f (world s1)) as [r2 w]. simpl in *.
  rewrite status_run_app.
  destruct r as [a|e].
  - rewrite Hb. simpl. by rewrite Hev.
  - destruct Hb as [-> | ->]; simpl; rewrite Hev; auto.
Qed.

Lemma tracks_forM_ {A} (f : A → M W unit) (l : list A) (st : status) :
  (∀ x, tracks (f x) st st) → tracks (forM_ f l) st st.
Proof.
  intros Hf. induction l as [|x l IH]; simpl.
  - apply tracks_ret.
  - eapply tracks_bind; [apply Hf | by intros _].
Qed.

Lemma tracks_foldM {A B} (f : B → A → M W B) (b : B) (l : list A) (st : status) :
  (∀ b x, tracks (f b x) st st) → tracks (foldM f b l) st st.
Proof.
  intros Hf. revert b. induction l as [|x l IH]; intros b; simpl.
  - apply tracks_ret.
  - eapply tracks_bind; [apply Hf | intros b'; apply IH].
Qed.

End Tracks.

Ltac tracks_tac :=
  lazymatch goal with
  | |- tracks (bind get_platforms _) _ _ =>
      eapply tracks_bind; [apply tracks_get | intros ?; tracks_tac]
  | |- tracks (bind _ _) _ _ =>
      eapply tracks_bind; [tracks_tac | intros ?; tracks_tac]
  | |- tracks (ret _) _ _ => apply tracks_ret
  | |- tracks (fail _) _ _ => apply tracks_fail; auto
  | |- tracks (emit _) _ _ => apply tracks_emit; reflexivity
  | |- tracks (call _ _) _ _ => apply tracks_call; intros ?; reflexivity
  | |- tracks (defer (call _ _) _) _ _ =>
      apply tracks_defer; [by intros ? [] | tracks_tac]
  | |- tracks (forM_ _ _) _ _ => apply tracks_forM_; intros ?; tracks_tac
  | |- tracks (foldM _ _ _) _ _ => apply tracks_foldM; intros ? ?; tracks_tac
  | |- tracks (match ?x with _ => _ end) _ _ => destruct x; tracks_tac
  end.

Lemma RunE_tracks {W : Type} `{!Collaborators W} (verbose : bool)
    (configFile outputFile : string) (overwrite : bool) :
  tracks (RunE verbose configFile outputFile overwrite) Idle Idle.
Proof.
  unfold_cmd. unfold mbind, M_bind, mret, M_ret. tracks_tac.
Qed.

(** X18: in every run the calls to the status logger alternate: a status
    is started only when none is in progress and ended only when one is;
    after a status that ended in failure nothing is started again; and a
    run that returns nil has ended every status it started with
    success. *)
Theorem status_lines_are_well_bracketed {W : Type} `{!Collaborators W}
    (verbose : bool) (configFile outputFile : string) (overwrite : bool)
    (s : state W) :
  match result_of (RunE verbose configFile outputFile overwrite s) with
  | Ok _ =>
      status_run Idle (trace_of (RunE verbose configFile outputFile overwrite s))
        = Some Idle
      ∧ Forall (fun ev => ev ≠ EvEnd false)
          (trace_of (RunE verbose configFile outputFile overwrite s))
  | Err _ =>
      status_run Idle (trace_of (RunE verbose configFile outputFile overwrite s))
        = Some Failed
      ∨ status_run Idle (trace_of (RunE verbose configFile outputFile overwrite s))
        = Some Idle
  end.
Proof.
  pose proof (RunE_tracks verbose configFile outputFile overwrite s) as H.
  destruct (result_of (RunE verbose configFile outputFile overwrite s)); [|done].
  split; [done|].
  assert (Hgen : ∀ t st, status_run st t = Some Idle →
                         Forall (fun ev => ev ≠ EvEnd false) t).
  { clear. induction t as [|ev t IH]; intros st Hrun; [constructor|].
    simpl in Hrun. destruct (status_step st ev) as [st'|] eqn:Hstep; [|done].
    constructor; [|by eapply IH].
    intros ->. destruct st; simpl in Hstep; try done.
    injection Hstep as <-.
    destruct (status_run_Failed t) as [Hf|Hf]; congruence. }
  by eapply Hgen.
Qed.
